(** * liblbHttpd: the WebSocket session, its sender handle, the upgrade
      gate and the session scheduler, as a shallow embedding.

    Sources embedded here:
    - [WebSocket.cpp] (the revision with the close handshake):
      [canClose], [parseFrame], [sendMessage], [sendClose], [sendPing],
      [sendPong], [sendFrame], [closeConnection];
    - [ws/SendersImpl.h] and [ws/Senders.cpp]: the revocable sender handle;
    - [Server.cpp]: [isHeaderSet], [isHeaderSetTo],
      [maybeCreateWebSocketResponse], [webSocketClosed], [webSocketLoop],
      and further down [parseMethod], [parseVersion],
      [accessHandlerCallback], [keyValueIterator], [postDataIterator],
      [invokeRequestHandler], [upgradeHandler] and the destructor;
    - [WebSocket.cpp]: [receive];
    - [Poller.h]: the poll set;
    - [ws/Receivers.cpp] and [ws/ReceiversImpl.h]: the receiver handle.

    Conventions.  A [size_t] is a [Z] reduced modulo [2^64] by [wrap]
    wherever the C++ computes with it.  A [std::string] used as a byte
    buffer is a [list byte]; HTTP header names and values are [string]s.
    Effects are explicit: every operation of a session takes the session
    state and returns the new one; what the session writes to its socket,
    what it hands to the receiver handle and the calls of its close
    callback are logged in the state, in order. *)

From Stdlib Require Import ZArith List String Ascii Bool Lia.
From Stdlib Require Import Strings.Byte.
From stdpp Require Import base gmap strings list fin_maps.

Local Open Scope Z_scope.

Definition bytes := list byte.

(** [payload.size()] of a [std::string]. *)
Definition string_size (payload : bytes) : Z := Z.of_nat (length payload).

(** Arithmetic on [size_t] wraps modulo [2^64]. *)
Definition size_t_modulus : Z := 2 ^ 64.
Definition wrap (z : Z) : Z := z mod size_t_modulus.

(** No [std::string] is longer than [PTRDIFF_MAX] bytes. *)
Definition max_size : Z := 2 ^ 63 - 1.

(** ** The frame header of liblbEncoding, as the session uses it *)

Module Header.

Inductive OpCode :=
| eContinuation
| eText
| eBinary
| eConnectionClose
| ePing
| ePong.

(** Modelled from the spec: the type [encoding::websocket::Header]
    belongs to liblbEncoding and is not among the sources.  The fields are
    the ones [WebSocket.cpp] reads and writes. *)
Record t := mk {
  fin : bool;
  opCode : OpCode;
  isMasked : bool;
  payloadSize : Z
}.

(** Modelled from the spec: a default-constructed header.  [sendMessage]
    sets [fin] only on the final frame and never touches [isMasked]
    ("the server never masks the payload"), so both start out false; the
    op code and the size are always assigned before use. *)
Definition default : t :=
  {| fin := false; opCode := eContinuation; isMasked := false; payloadSize := 0 |}.

Definition set_opCode (h : t) (o : OpCode) : t :=
  {| fin := fin h; opCode := o; isMasked := isMasked h; payloadSize := payloadSize h |}.
Definition set_payloadSize (h : t) (n : Z) : t :=
  {| fin := fin h; opCode := opCode h; isMasked := isMasked h; payloadSize := n |}.
Definition set_fin (h : t) (b : bool) : t :=
  {| fin := b; opCode := opCode h; isMasked := isMasked h; payloadSize := payloadSize h |}.

(** Modelled from the spec: [Header::encodedSizeInBytes(payloadSize, masked)]
    of liblbEncoding, the RFC 6455 header size: two bytes, the extended
    length of 16 or 64 bits, and the four bytes of masking key. *)
Definition encodedSizeInBytes (payloadSize : Z) (masked : bool) : Z :=
  2 + (if payloadSize <? 126 then 0 else if payloadSize <? 65536 then 2 else 8)
    + (if masked then 4 else 0).

(** [header.encodedSizeInBytes()] on a header object. *)
Definition encodedSize (h : t) : Z :=
  encodedSizeInBytes (payloadSize h) (isMasked h).

End Header.

(** A frame: what the decoder hands to [parseFrame] (payload unmasked) and
    what [sendFrame] puts on the wire. *)
Record Frame := mkFrame {
  header : Header.t;
  payload : bytes
}.

(** Bytes of one frame on the wire: header plus payload. *)
Definition frameSize (f : Frame) : Z :=
  Header.encodedSize (header f) + string_size (payload f).

(** ** Close status codes (liblbEncoding) *)

Module closestatus.

Inductive ProtocolCode :=
| eGoingAway
| eProtocolError.

(** Modelled from the spec: [closestatus::toPayload], the numeric codes
    of the close payload (1001 going away, 1002 protocol error). *)
Definition toPayload (c : ProtocolCode) : Z :=
  match c with
  | eGoingAway => 1001
  | eProtocolError => 1002
  end.

Definition byte_of_Z (z : Z) : byte :=
  match Byte.of_N (Z.to_N (z mod 256)) with
  | Some b => b
  | None => x00
  end.

(** Modelled from the spec: [closestatus::encodePayloadCode(code, payload)]
    overwrites the first two bytes of [payload] with the code in network
    byte order. *)
Definition encodePayloadCode (code : Z) (payload : bytes) : bytes :=
  match payload with
  | _ :: _ :: rest => byte_of_Z (code / 256) :: byte_of_Z code :: rest
  | _ => payload
  end.

End closestatus.

(** ** Send results and the receiver op codes *)

(** Modelled from the spec: [ws/SendResult.h] is not among the sources;
    the spec lists the five results. *)
Inductive SendResult :=
| eSuccess
| eFailure
| eClosed
| eNoImplementation
| eFrameSizeTooSmall.

Definition ConnectionID := Z.

Module Receivers.

Inductive DataOpCode := eText | eBinary.
Inductive ControlOpCode := eClose | ePing | ePong.

(** One call on the receiver handle of a session. *)
Inductive Call :=
| receiveData (id : ConnectionID) (op : DataOpCode) (message : bytes)
| receiveControl (id : ConnectionID) (op : ControlOpCode) (payload : bytes).

End Receivers.

(** ** The sender handle: [Senders::Impl] and [Senders] *)

Module Senders.

(** The four [std::function]s of [Senders::Impl].  A session always binds
    them to its own [sendMessage], [sendClose], [sendPing] and [sendPong],
    so a function object is either that binding ([true]) or empty
    ([false]). *)
Record Impl := mkImpl {
  dataSender : bool;
  closeSender : bool;
  pingSender : bool;
  pongSender : bool
}.

(** [Senders::Impl::create]. *)
Definition create : Impl :=
  {| dataSender := true; closeSender := true; pingSender := true; pongSender := true |}.

(** [Senders::Impl::close]: empties the four function objects. *)
Definition close (i : Impl) : Impl :=
  {| dataSender := false; closeSender := false; pingSender := false; pongSender := false |}.

(** [Senders]: the shared pointer [d], null when default-constructed. *)
Definition t := option Impl.

End Senders.

(** ** The session *)

Inductive CloseHandshake :=
| eNone
| eServerInitiated
| eClientInitiated
| eComplete.

Record Fragmented := mkFragmented {
  dataOpCode : Receivers.DataOpCode;
  fragPayload : bytes
}.

(** The state of a [WebSocket] object.  [socketOk] abstracts the socket:
    [true] when every [::send] writes the whole buffer, [false] when it
    fails with a fatal error.  [wire], [received] and [closeCallbackCalls]
    log the effects. *)
Record WebSocket := mkWebSocket {
  connectionID : ConnectionID;
  socketOk : bool;
  closeHandshake : CloseHandshake;
  closeSentTimePoint : Z;
  senders : Senders.Impl;
  fragmented : option Fragmented;
  wire : list Frame;
  received : list Receivers.Call;
  closeCallbackCalls : list ConnectionID
}.

Definition set_closeHandshake (s : WebSocket) (c : CloseHandshake) : WebSocket :=
  mkWebSocket (connectionID s) (socketOk s) c (closeSentTimePoint s) (senders s)
              (fragmented s) (wire s) (received s) (closeCallbackCalls s).
Definition set_closeSentTimePoint (s : WebSocket) (t : Z) : WebSocket :=
  mkWebSocket (connectionID s) (socketOk s) (closeHandshake s) t (senders s)
              (fragmented s) (wire s) (received s) (closeCallbackCalls s).
Definition set_senders (s : WebSocket) (i : Senders.Impl) : WebSocket :=
  mkWebSocket (connectionID s) (socketOk s) (closeHandshake s) (closeSentTimePoint s) i
              (fragmented s) (wire s) (received s) (closeCallbackCalls s).
Definition set_fragmented (s : WebSocket) (f : option Fragmented) : WebSocket :=
  mkWebSocket (connectionID s) (socketOk s) (closeHandshake s) (closeSentTimePoint s)
              (senders s) f (wire s) (received s) (closeCallbackCalls s).
Definition put_wire (s : WebSocket) (f : Frame) : WebSocket :=
  mkWebSocket (connectionID s) (socketOk s) (closeHandshake s) (closeSentTimePoint s)
              (senders s) (fragmented s) (wire s ++ [f]) (received s) (closeCallbackCalls s).
Definition deliver (s : WebSocket) (c : Receivers.Call) : WebSocket :=
  mkWebSocket (connectionID s) (socketOk s) (closeHandshake s) (closeSentTimePoint s)
              (senders s) (fragmented s) (wire s) (received s ++ [c]) (closeCallbackCalls s).

(** [closeCallback( connectionID )]. *)
Definition closeCallback (s : WebSocket) : WebSocket :=
  mkWebSocket (connectionID s) (socketOk s) (closeHandshake s) (closeSentTimePoint s)
              (senders s) (fragmented s) (wire s) (received s)
              (closeCallbackCalls s ++ [connectionID s]).

(** A freshly constructed session. *)
Definition newWebSocket (id : ConnectionID) (ok : bool) : WebSocket :=
  mkWebSocket id ok eNone 0 Senders.create None [] [] [].

(** [WebSocket::canClose], with [now] the reading of the steady clock in
    milliseconds.  The count of milliseconds is signed and the time-out is
    a [size_t], so the comparison is made on [size_t]. *)
Definition closeTimeoutMilliseconds : Z := 2000.

Definition canClose (s : WebSocket) (now : Z) : bool :=
  match closeHandshake s with
  | eNone => false
  | eServerInitiated =>
      let diffMilliSeconds := now - closeSentTimePoint s in
      if wrap diffMilliSeconds >? closeTimeoutMilliseconds then false else true
  | eClientInitiated => true
  | eComplete => true
  end.

(** [WebSocket::sendFrame]: header and [header.payloadSize] bytes of
    [framePayload] go out in one buffer.  (Reading past the end of
    [framePayload] is undefined in C++; no caller does it, and the model
    copies what is there.) *)
Definition sendFrame (s : WebSocket) (hd : Header.t) (framePayload : bytes)
  : WebSocket * SendResult :=
  if socketOk s
  then (put_wire s (mkFrame hd (firstn (Z.to_nat (Header.payloadSize hd)) framePayload)),
        eSuccess)
  else (s, eFailure).

(** [WebSocket::closeConnection]. *)
Definition closeConnection (s : WebSocket) (statusCode : closestatus.ProtocolCode)
    (reason : bytes) : WebSocket :=
  match closeHandshake s with
  | eNone =>
      let hd := Header.set_opCode Header.default Header.eConnectionClose in
      let payload :=
        closestatus.encodePayloadCode (closestatus.toPayload statusCode) [x00; x00]
          ++ reason in
      let hd := Header.set_payloadSize hd (string_size payload) in
      let s := set_closeHandshake s eServerInitiated in
      let s := fst (sendFrame s hd payload) in
      closeCallback s
  | _ => s
  end.

Definition reason (s : string) : bytes := list_byte_of_string s.

(** [WebSocket::parseFrame], on the frames the decoder has produced from
    the received chunk.  The result is the value returned to the poller:
    [false] asks for the socket to be removed from the poll set. *)
Fixpoint parseFrame (s : WebSocket) (frames : list Frame) : WebSocket * bool :=
  match frames with
  | [] => (s, true)
  | frame :: rest =>
    if negb (Header.isMasked (header frame))
    then (closeConnection s closestatus.eProtocolError [], false)
    else
      match Header.opCode (header frame) with
      | Header.eText =>
          match fragmented s with
          | Some _ =>
              (closeConnection s closestatus.eProtocolError
                 (reason "Unexpected text frame received, expected continuation."),
               false)
          | None =>
              if Header.fin (header frame)
              then parseFrame
                     (deliver s (Receivers.receiveData (connectionID s) Receivers.eText
                                                        (payload frame)))
                     rest
              else parseFrame
                     (set_fragmented s (Some (mkFragmented Receivers.eText (payload frame))))
                     rest
          end
      | Header.eBinary =>
          match fragmented s with
          | Some _ =>
              (closeConnection s closestatus.eProtocolError
                 (reason "Unexpected binary frame received, expected continuation."),
               false)
          | None =>
              if Header.fin (header frame)
              then parseFrame
                     (deliver s (Receivers.receiveData (connectionID s) Receivers.eBinary
                                                        (payload frame)))
                     rest
              else parseFrame
                     (set_fragmented s (Some (mkFragmented Receivers.eBinary (payload frame))))
                     rest
          end
      | Header.eContinuation =>
          match fragmented s with
          | None =>
              (closeConnection s closestatus.eProtocolError
                 (reason "Unexpected continuation frame received."),
               false)
          | Some fr =>
              if Header.fin (header frame)
              then parseFrame
                     (set_fragmented
                        (deliver s (Receivers.receiveData (connectionID s) (dataOpCode fr)
                                                           (fragPayload fr)))
                        None)
                     rest
              else parseFrame
                     (set_fragmented s (Some (mkFragmented Receivers.eText (payload frame))))
                     rest
          end
      | Header.eConnectionClose =>
          let s := deliver s (Receivers.receiveControl (connectionID s) Receivers.eClose
                                                        (payload frame)) in
          let s :=
            match closeHandshake s with
            | eNone =>
                let s := set_closeHandshake s eClientInitiated in
                let hd := Header.set_opCode Header.default Header.eConnectionClose in
                let hd := Header.set_payloadSize hd (string_size (payload frame)) in
                let s := fst (sendFrame s hd (payload frame)) in
                set_senders s (Senders.close (senders s))
            | eServerInitiated => set_closeHandshake s eComplete
            | eClientInitiated => s
            | eComplete => s
            end in
          (closeCallback s, false)
      | Header.ePing =>
          let s := deliver s (Receivers.receiveControl (connectionID s) Receivers.ePing
                                                        (payload frame)) in
          let hd := Header.set_opCode Header.default Header.ePong in
          let hd := Header.set_payloadSize hd (string_size (payload frame)) in
          parseFrame (fst (sendFrame s hd (payload frame))) rest
      | Header.ePong =>
          parseFrame
            (deliver s (Receivers.receiveControl (connectionID s) Receivers.eClose
                                                  (payload frame)))
            rest
      end
  end.

(** The loop of [WebSocket::sendMessage]:
    [while ( numPayloadBytesRemaining + encodedHeaderSize > maxFrameSize )].
    [fuel] bounds the number of iterations of the model; [None] means the
    bound was reached. *)
Fixpoint sendMessage_loop (fuel : nat) (s : WebSocket)
    (maxFrameSize encodedHeaderSize : Z) (hd : Header.t) (sentFirstFrame : bool)
    (numPayloadBytesRemaining : Z) (p : bytes)
  : option (WebSocket * Header.t * Z * bytes) :=
  if wrap (numPayloadBytesRemaining + encodedHeaderSize) >? maxFrameSize
  then
    match fuel with
    | O => None
    | S fuel' =>
        let hd := if sentFirstFrame then Header.set_opCode hd Header.eContinuation else hd in
        let hd := Header.set_payloadSize hd (wrap (maxFrameSize - encodedHeaderSize)) in
        let s := fst (sendFrame s hd p) in
        sendMessage_loop fuel' s maxFrameSize encodedHeaderSize hd true
          (wrap (numPayloadBytesRemaining - Header.payloadSize hd))
          (skipn (Z.to_nat (Header.payloadSize hd)) p)
    end
  else Some (s, hd, numPayloadBytesRemaining, p).

(** [WebSocket::sendMessage].  Every turn of the loop sends at least one
    byte of payload, so as many turns as there are bytes are enough. *)
Definition sendMessage (s : WebSocket) (payload : bytes) (maxFrameSize : Z)
  : option (WebSocket * SendResult) :=
  match closeHandshake s with
  | eNone =>
      let encodedHeaderSize := Header.encodedSizeInBytes (string_size payload) false in
      if negb (maxFrameSize =? 0) && (maxFrameSize <=? encodedHeaderSize)
      then Some (s, eFailure)
      else
        let numPayloadBytesRemaining := string_size payload in
        let hd := Header.set_opCode Header.default Header.eText in
        let looped :=
          if maxFrameSize >? 0
          then
            let encodedHeaderSize :=
              Header.encodedSizeInBytes numPayloadBytesRemaining false in
            sendMessage_loop (length payload) s maxFrameSize encodedHeaderSize hd false
                             numPayloadBytesRemaining payload
          else Some (s, hd, numPayloadBytesRemaining, payload) in
        match looped with
        | None => None
        | Some (s, hd, numPayloadBytesRemaining, p) =>
            let hd := Header.set_fin hd true in
            let hd := Header.set_payloadSize hd numPayloadBytesRemaining in
            let s := fst (sendFrame s hd p) in
            Some (s, eSuccess)
        end
  | _ => Some (s, eClosed)
  end.

(** [WebSocket::sendClose], with [now] the reading of the steady clock. *)
Definition sendClose (s : WebSocket) (code : Z) (why : bytes) (now : Z)
  : WebSocket * SendResult :=
  match closeHandshake s with
  | eNone =>
      let hd := Header.set_opCode Header.default Header.eConnectionClose in
      let payload := closestatus.encodePayloadCode code [x00; x00] ++ why in
      let hd := Header.set_payloadSize hd (string_size payload) in
      let s := set_closeHandshake s eServerInitiated in
      let s := set_closeSentTimePoint s now in
      let s := fst (sendFrame s hd payload) in
      let s := closeCallback s in
      (s, eSuccess)
  | _ => (s, eClosed)
  end.

(** [WebSocket::sendPing]. *)
Definition sendPing (s : WebSocket) (payload : bytes) : WebSocket * SendResult :=
  match closeHandshake s with
  | eNone =>
      let hd := Header.set_opCode Header.default Header.ePing in
      let hd := Header.set_payloadSize hd (string_size payload) in
      let s := fst (sendFrame s hd payload) in
      (s, eFailure)
  | _ => (s, eClosed)
  end.

(** [WebSocket::sendPong]. *)
Definition sendPong (s : WebSocket) (payload : bytes) : WebSocket * SendResult :=
  match closeHandshake s with
  | eNone =>
      let hd := Header.set_opCode Header.default Header.ePong in
      let hd := Header.set_payloadSize hd (string_size payload) in
      let s := fst (sendFrame s hd payload) in
      (s, eFailure)
  | _ => (s, eClosed)
  end.

(** ** Calls through the sender handle ([ws/SendersImpl.h], [ws/Senders.cpp])

    [Senders::Impl::sendX] calls the function object when it is not empty
    and answers [eClosed] otherwise; [Senders::sendX] answers
    [eNoImplementation] on a null [d].  The session reached through the
    function objects is an explicit argument. *)

Definition Impl_sendData (i : Senders.Impl) (s : WebSocket) (message : bytes)
    (maxFrameSize : Z) : option (WebSocket * SendResult) :=
  if Senders.dataSender i then sendMessage s message maxFrameSize else Some (s, eClosed).

Definition Impl_sendClose (i : Senders.Impl) (s : WebSocket) (code : Z) (why : bytes)
    (now : Z) : WebSocket * SendResult :=
  if Senders.closeSender i then sendClose s code why now else (s, eClosed).

Definition Impl_sendPing (i : Senders.Impl) (s : WebSocket) (payload : bytes)
  : WebSocket * SendResult :=
  if Senders.pingSender i then sendPing s payload else (s, eClosed).

Definition Impl_sendPong (i : Senders.Impl) (s : WebSocket) (payload : bytes)
  : WebSocket * SendResult :=
  if Senders.pongSender i then sendPong s payload else (s, eClosed).

Definition Senders_sendData (d : Senders.t) (s : WebSocket) (message : bytes)
    (maxFrameSize : Z) : option (WebSocket * SendResult) :=
  match d with
  | Some i => Impl_sendData i s message maxFrameSize
  | None => Some (s, eNoImplementation)
  end.

Definition Senders_sendClose (d : Senders.t) (s : WebSocket) (code : Z) (why : bytes)
    (now : Z) : WebSocket * SendResult :=
  match d with
  | Some i => Impl_sendClose i s code why now
  | None => (s, eNoImplementation)
  end.

Definition Senders_sendPing (d : Senders.t) (s : WebSocket) (payload : bytes)
  : WebSocket * SendResult :=
  match d with
  | Some i => Impl_sendPing i s payload
  | None => (s, eNoImplementation)
  end.

Definition Senders_sendPong (d : Senders.t) (s : WebSocket) (payload : bytes)
  : WebSocket * SendResult :=
  match d with
  | Some i => Impl_sendPong i s payload
  | None => (s, eNoImplementation)
  end.

(** ** The upgrade gate ([Server.cpp]) *)

Module Server.

Inductive Method := eInvalid | eGet | eHead | ePost | ePut | eDelete.

Record Version := mkVersion { major : Z; minor : Z }.

(** [Server::Headers], a [std::unordered_map< std::string, std::string >]. *)
Abbreviation Headers := (gmap string string).

(** The header names of [microhttpd.h]. *)
Definition MHD_HTTP_HEADER_HOST : string := "Host".
Definition MHD_HTTP_HEADER_UPGRADE : string := "Upgrade".
Definition MHD_HTTP_HEADER_SEC_WEBSOCKET_KEY : string := "Sec-WebSocket-Key".
Definition MHD_HTTP_HEADER_SEC_WEBSOCKET_ACCEPT : string := "Sec-WebSocket-Accept".

(** [Server::Private::isHeaderSet]: [headers.count( header ) > 0]. *)
Definition isHeaderSet (headers : Headers) (name : string) : bool :=
  match headers !! name with
  | Some _ => true
  | None => false
  end.

(** [Server::Private::isHeaderSetTo]:
    [( I != headers.end() ) && ( I->second == value )]. *)
Definition isHeaderSetTo (headers : Headers) (name value : string) : bool :=
  match headers !! name with
  | Some v => String.eqb v value
  | None => false
  end.

(** The response under construction: the headers added to it. *)
Definition MHD_Response := list (string * string).

Section Gate.

(** [encoding::sha1::encode] and [encoding::base64::encode] of
    liblbEncoding. *)
Variables sha1_encode base64_encode : string -> string.

(** [Server::Private::maybeCreateWebSocketResponse].  [webSocketHandler]
    is the optional handler, given by its [isHandled]; [None] stands
    for [nullptr]. *)
Definition maybeCreateWebSocketResponse
    (webSocketHandler : option (string -> bool)) (headers : Headers)
    (url : string) (method : Method) (version : Version)
  : option MHD_Response :=
  match webSocketHandler with
  | None => None
  | Some isHandled =>
    if negb (isHandled url) then None
    else if negb (match method with eGet => true | _ => false end) then None
    else if negb (isHeaderSet headers MHD_HTTP_HEADER_HOST) then None
    else if negb (isHeaderSetTo headers MHD_HTTP_HEADER_UPGRADE "websocket") then None
    else if negb (isHeaderSetTo headers "Connection" "Upgrade") then None
    else if negb (isHeaderSet headers "Sec-WebSocket-Version") then None
    else if negb (isHeaderSet headers MHD_HTTP_HEADER_SEC_WEBSOCKET_KEY) then None
    else if (major version <? 1)
            || ((major version =? 1) && (minor version <? 1)) then None
    else
      let acceptResponse :=
        default EmptyString (headers !! MHD_HTTP_HEADER_SEC_WEBSOCKET_KEY) in
      let acceptResponse :=
        (acceptResponse ++ "258EAFA5-E914-47DA-95CA-C5AB0DC85B11")%string in
      let acceptResponse := sha1_encode acceptResponse in
      let acceptResponse := base64_encode acceptResponse in
      Some [ (MHD_HTTP_HEADER_UPGRADE, "websocket"%string);
             (MHD_HTTP_HEADER_SEC_WEBSOCKET_ACCEPT, acceptResponse) ]
  end.

End Gate.

(** *** The matching the specification asks of the gate

    Header names compared without regard to case; the value of [Upgrade]
    and [Connection] read as a comma-separated list of tokens, one of
    which equals the wanted token without regard to case. *)

Definition ascii_lower (c : ascii) : ascii :=
  let n := nat_of_ascii c in
  if ((65 <=? n)%nat && (n <=? 90)%nat)%bool then ascii_of_nat (n + 32) else c.

Fixpoint string_lower (s : string) : string :=
  match s with
  | EmptyString => EmptyString
  | String c r => String (ascii_lower c) (string_lower r)
  end.

Definition is_blank (c : ascii) : bool :=
  (Ascii.eqb c " " || Ascii.eqb c "009")%bool.

Fixpoint drop_blanks (s : list ascii) : list ascii :=
  match s with
  | c :: r => if is_blank c then drop_blanks r else s
  | [] => []
  end.

Definition trim (s : list ascii) : list ascii :=
  rev (drop_blanks (rev (drop_blanks s))).

(** Splits at commas; [cur] is the token being read, reversed. *)
Fixpoint split_commas (cur : list ascii) (s : list ascii) : list (list ascii) :=
  match s with
  | [] => [rev cur]
  | c :: r =>
      if Ascii.eqb c "," then rev cur :: split_commas [] r
      else split_commas (c :: cur) r
  end.

Definition tokens (value : string) : list string :=
  map (fun t => string_of_list_ascii (trim t))
      (split_commas [] (list_ascii_of_string value)).

Definition spec_hasToken (value token : string) : bool :=
  existsb (fun t => String.eqb (string_lower t) (string_lower token)) (tokens value).

Definition spec_isHeaderSet (headers : Headers) (name : string) : bool :=
  existsb (fun kv => String.eqb (string_lower (fst kv)) (string_lower name))
          (map_to_list headers).

Definition spec_isHeaderSetTo (headers : Headers) (name token : string) : bool :=
  existsb (fun kv => String.eqb (string_lower (fst kv)) (string_lower name)
                     && spec_hasToken (snd kv) token)%bool
          (map_to_list headers).

(** The gate as the specification words it. *)
Definition spec_upgradeGate (webSocketHandler : option (string -> bool))
    (headers : Headers) (url : string) (method : Method) (version : Version) : bool :=
  match webSocketHandler with
  | None => false
  | Some isHandled =>
      (isHandled url
       && match method with eGet => true | _ => false end
       && spec_isHeaderSet headers "Host"
       && spec_isHeaderSetTo headers "Upgrade" "websocket"
       && spec_isHeaderSetTo headers "Connection" "Upgrade"
       && spec_isHeaderSet headers "Sec-WebSocket-Version"
       && spec_isHeaderSet headers "Sec-WebSocket-Key"
       && negb ((major version <? 1) || ((major version =? 1) && (minor version <? 1))))%bool
  end.

(** *** The session scheduler *)

(** The members of [Server::Private] the scheduler works on.
    [closedWebSockets] is the [std::unordered_set]; [cerr] collects what
    the loop writes to [std::cerr]; [pollerCalls] counts the calls of
    [poller( 500 )]. *)
Record Private := mkPrivate {
  webSockets : gmap ConnectionID WebSocket;
  closedWebSockets : gset ConnectionID;
  webSocketRunning : bool;
  cerr : list string;
  pollerCalls : nat
}.

Definition set_webSockets (st : Private) (w : gmap ConnectionID WebSocket) : Private :=
  mkPrivate w (closedWebSockets st) (webSocketRunning st) (cerr st) (pollerCalls st).
Definition set_closedWebSockets (st : Private) (c : gset ConnectionID) : Private :=
  mkPrivate (webSockets st) c (webSocketRunning st) (cerr st) (pollerCalls st).
Definition write_cerr (st : Private) (msg : string) : Private :=
  mkPrivate (webSockets st) (closedWebSockets st) (webSocketRunning st)
            (cerr st ++ [msg]) (pollerCalls st).
Definition count_poll (st : Private) : Private :=
  mkPrivate (webSockets st) (closedWebSockets st) (webSocketRunning st)
            (cerr st) (S (pollerCalls st)).

(** [Server::Private::webSocketClosed]. *)
Definition webSocketClosed (id : ConnectionID) (st : Private) : Private :=
  set_closedWebSockets st ({[ id ]} ∪ closedWebSockets st).

(** An operation of the session [id] run inside the server.  The close
    callback of every session is bound to [webSocketClosed], so the calls
    the operation adds to the log of the session are played on the
    server. *)
Definition onWebSocket {R : Type} (id : ConnectionID)
    (op : WebSocket -> WebSocket * R) (st : Private) : option (Private * R) :=
  match webSockets st !! id with
  | None => None
  | Some ws =>
      let '(ws', r) := op ws in
      let calls := skipn (length (closeCallbackCalls ws)) (closeCallbackCalls ws') in
      Some (fold_left (fun st id => webSocketClosed id st) calls
                      (set_webSockets st (<[ id := ws' ]> (webSockets st))),
            r)
  end.

(** The [for] loop of [webSocketLoop] over the closed set, in the order
    the set is traversed.  [false] stands for the [return] inside it. *)
Fixpoint drainClosed (ids : list ConnectionID) (st : Private) : Private * bool :=
  match ids with
  | [] => (st, true)
  | connectionID :: rest =>
      match webSockets st !! connectionID with
      | None => (write_cerr st "Unknown WebSocket closed!", false)
      | Some _ => drainClosed rest (set_webSockets st (delete connectionID (webSockets st)))
      end
  end.

Inductive LoopEnd :=
| Stopped      (** [webSocketRunning] was found false *)
| Returned     (** the [return] inside the loop over the closed set *)
| StillRunning (** the loop is still running after the cycles observed *).

Section Loop.

(** One call [poller( 500 )]: it runs the read callbacks of the ready
    sockets, which may change sessions and fill the closed set, and
    returns the result of [poll]. *)
Variable poller : Private -> Private * Z.

(** [Server::Private::webSocketLoop], observed for [cycles] turns of
    its [while]. *)
Fixpoint webSocketLoop (cycles : nat) (st : Private) : Private * LoopEnd :=
  match cycles with
  | O => (st, StillRunning)
  | S cycles' =>
      if negb (webSocketRunning st) then (st, Stopped)
      else
        let '(st, pollResult) := poller (count_poll st) in
        if pollResult <? 0
        then webSocketLoop cycles' (write_cerr st "Error while polling")
        else
          match drainClosed (elements (closedWebSockets st)) st with
          | (st, false) => (st, Returned)
          | (st, true) => webSocketLoop cycles' (set_closedWebSockets st ∅)
          end
  end.

End Loop.

(** A poll that times out with no socket ready. *)
Definition idlePoller (st : Private) : Private * Z := (st, 0).

End Server.

(** ** Inputs and notions used in the statements *)

Definition b (s : string) : bytes := list_byte_of_string s.

(** The three kinds of frame of a fragmented message, as a client sends
    them (masked). *)
Definition initialFrame (op : Header.OpCode) (p : bytes) : Frame :=
  mkFrame (Header.mk false op true (string_size p)) p.
Definition middleFrame (p : bytes) : Frame :=
  mkFrame (Header.mk false Header.eContinuation true (string_size p)) p.
Definition finalFrame (p : bytes) : Frame :=
  mkFrame (Header.mk true Header.eContinuation true (string_size p)) p.

Definition dataOpCode_of (binary : bool) : Receivers.DataOpCode :=
  if binary then Receivers.eBinary else Receivers.eText.
Definition opCode_of (binary : bool) : Header.OpCode :=
  if binary then Header.eBinary else Header.eText.

(** What a run of Continuation frames without FIN leaves in the
    fragmentation buffer. *)
Definition overwrite (fr : Fragmented) (mids : list bytes) : Fragmented :=
  fold_left (fun _ m => mkFragmented Receivers.eText m) mids fr.

(** A running server with the open session [1] registered and, in
    [closed], the ids reported closed so far. *)
Definition serverWithSession (closed : gset ConnectionID) : Server.Private :=
  Server.mkPrivate {[ 1 := newWebSocket 1 true ]} closed true [] 0.

(** The user calls [sendClose] on the session [id] at time [now]. *)
Definition userSendClose (id : ConnectionID) (code : Z) (why : bytes) (now : Z)
    (st : Server.Private) : option (Server.Private * SendResult) :=
  Server.onWebSocket id (fun ws => sendClose ws code why now) st.

(** Upgrade requests.  [exactHeaders] spells every name and value as the
    gate compares them; [lowerCaseNameHeaders] differs in the case of one
    header name; [tokenListHeaders] carries [Upgrade] as one token of the
    [Connection] value. *)
Definition exactHeaders : Server.Headers :=
  <[ "Host" := "localhost:2345" ]>
  (<[ "Upgrade" := "websocket" ]>
  (<[ "Connection" := "Upgrade" ]>
  (<[ "Sec-WebSocket-Version" := "13" ]>
  (<[ "Sec-WebSocket-Key" := "dGhlIHNhbXBsZSBub25jZQ==" ]> ∅))))%string.

Definition lowerCaseNameHeaders : Server.Headers :=
  <[ "host" := "localhost:2345" ]> (delete "Host" exactHeaders)%string.

Definition tokenListHeaders : Server.Headers :=
  <[ "Connection" := "keep-alive, Upgrade" ]> exactHeaders%string.

Definition anyUrl : option (string -> bool) := Some (fun _ => true).
Definition http11 : Server.Version := Server.mkVersion 1 1.

(** The session after the frames [frames] have gone out, in order. *)
Definition put_wires (s : WebSocket) (frames : list Frame) : WebSocket :=
  fold_left put_wire frames s.

Definition opCodes (frames : list Frame) : list Header.OpCode :=
  map (fun f => Header.opCode (header f)) frames.

(** The op codes of the frames sent inside the loop of [sendMessage]:
    [first], then continuations. *)
Definition loopOpCodes (first : Header.OpCode) (k : nat) : list Header.OpCode :=
  match k with
  | O => []
  | S k' => first :: repeat Header.eContinuation k'
  end.

(** The number of frames the specification gives for [n] bytes of payload
    in frames of at most [maxFrameSize] bytes with a header of
    [headerSize] bytes: the quotient rounded up. *)
Definition ceilFrames (n maxFrameSize headerSize : Z) : Z :=
  (n + (maxFrameSize - headerSize) - 1) / (maxFrameSize - headerSize).

(** The frames of the loop all carry [maxFrameSize - encodedHeaderSize]
    bytes. *)
Definition loopFrame (hd : Header.t) (chunk : Z) (f : Frame) : Prop :=
  string_size (payload f) = chunk
  /\ Header.payloadSize (header f) = chunk
  /\ Header.fin (header f) = Header.fin hd
  /\ Header.isMasked (header f) = Header.isMasked hd.


(** One test of the gate: when [b] is false the gate has refused. *)
Ltac refused_unless b :=
  destruct b; cbn [negb andb];
  [ | split; [intros [? ?]; discriminate | discriminate] ].

(** ** Reading from the socket ([WebSocket::receive]) *)

(** What one [recv] on the socket gives: an error (negative result), the
    end of the stream (zero), or a chunk, given by the frames the decoder
    completes with it. *)
Inductive RecvResult :=
| recvError
| recvEnd
| recvChunk (frames : list Frame).

(** [WebSocket::receive].  The result is the value returned to the poller. *)
Definition receive (s : WebSocket) (r : RecvResult) : WebSocket * bool :=
  match r with
  | recvError => (s, true)
  | recvEnd => (s, false)
  | recvChunk frames => parseFrame s frames
  end.

(** An unfragmented data message as a client sends it: masked, FIN set. *)
Definition dataFrame (m : bool * bytes) : Frame :=
  mkFrame (Header.mk true (opCode_of (fst m)) true (string_size (snd m))) (snd m).

(** The [receiveData] call such a message gives rise to. *)
Definition dataCall (id : ConnectionID) (m : bool * bytes) : Receivers.Call :=
  Receivers.receiveData id (dataOpCode_of (fst m)) (snd m).

(** The Close frame [closeConnection] and [sendClose] build for a code and
    a reason. *)
Definition closeFrame (code : Z) (why : bytes) : Frame :=
  let payload := closestatus.encodePayloadCode code [x00; x00] ++ why in
  mkFrame (Header.set_payloadSize
             (Header.set_opCode Header.default Header.eConnectionClose)
             (string_size payload))
          payload.

(** The fields of a session that handling frames can only carry along:
    its id, its socket, the state of the close handshake and the sender
    handle. *)
Definition same_session (s s' : WebSocket) : Prop :=
  connectionID s' = connectionID s
  /\ socketOk s' = socketOk s
  /\ closeHandshake s' = closeHandshake s
  /\ senders s' = senders s
  /\ closeCallbackCalls s' = closeCallbackCalls s.

(** ** The poll set ([Poller.h]) *)

Module Poller.

Definition POLLIN : Z := 1.

(** [struct pollfd]. *)
Record pollfd := mkPollfd {
fd : Z;
events : Z;
revents : Z
}.

(** A slot that is not in use: [fd = -1], no events. *)
Definition freeSlot : pollfd := mkPollfd (-1) 0 0.

Section WithWorld.

(** What the callbacks act on. *)
Variable W : Type.

(** [Poller::Callback], a [std::function< bool() >]; [None] is the empty
function object. *)
Definition Callback := option (W -> W * bool).

(** The members of [Poller].  [pendingAdds] lists the entries of the
[std::unordered_map] in the order in which the map is traversed. *)
Record t := mk {
pendingAdds : list (Z * Callback);
pendingRemovals : list Z;
pollFDs : list pollfd;
nextAvailable : nat;
pollCallbacks : list Callback
}.

Definition empty : t := mk [] [] [] 0 [].

(** [Poller::add]: [pendingAdds.emplace( fd, inCallback )], which does
nothing when [fd] is already a key. *)
Definition add (newFd : Z) (inCallback : Callback) (p : t) : t :=
if existsb (fun kv => fst kv =? newFd) (pendingAdds p) then p
else mk (pendingAdds p ++ [(newFd, inCallback)]) (pendingRemovals p) (pollFDs p)
      (nextAvailable p) (pollCallbacks p).

(** [Poller::remove]. *)
Definition remove (oldFd : Z) (p : t) : t :=
mk (pendingAdds p) (pendingRemovals p ++ [oldFd]) (pollFDs p) (nextAvailable p)
 (pollCallbacks p).

(** One turn of the outer loop of [processPendingRemovalsNoLock]: the first
slot that holds [oldFd] is freed. *)
Definition removeOne (p : t) (oldFd : Z) : t :=
match list_find (fun q => fd q = oldFd) (pollFDs p) with
| Some (i, _) =>
  mk (pendingAdds p) (pendingRemovals p)
     (<[ i := freeSlot ]> (pollFDs p))
     (if (i <? nextAvailable p)%nat then i else nextAvailable p)
     (<[ i := None ]> (pollCallbacks p))
| None => p
end.

(** [Poller::processPendingRemovalsNoLock]. *)
Definition processPendingRemovalsNoLock (p : t) : t :=
let p' := fold_left removeOne (pendingRemovals p) p in
mk (pendingAdds p') [] (pollFDs p') (nextAvailable p') (pollCallbacks p').

(** [Poller::processPendingRemovals]. *)
Definition processPendingRemovals (p : t) : t := processPendingRemovalsNoLock p.

(** [Poller::bulkRemoval]. *)
Definition bulkRemoval (extraRemovals : list Z) (p : t) : t :=
processPendingRemovalsNoLock
(mk (pendingAdds p) (pendingRemovals p ++ extraRemovals) (pollFDs p)
    (nextAvailable p) (pollCallbacks p)).

(** How far the [do ... while] of [processPendingAdds] moves on from the
slot it starts at: over the slots whose [fd] is negative. *)
Fixpoint advance (slots : list pollfd) : nat :=
match slots with
| q :: rest => if fd q <? 0 then S (advance rest) else O
| [] => O
end.

(** One turn of the loop of [processPendingAdds].  (With [nextAvailable]
beyond the end of the vector the C++ would index out of range; the
list update then does nothing.) *)
Definition addOne (p : t) (kv : Z * Callback) : t :=
let grow := (nextAvailable p =? length (pollFDs p))%nat in
let fds := if grow then pollFDs p ++ [mkPollfd 0 0 0] else pollFDs p in
let cbs := if grow then pollCallbacks p ++ [None] else pollCallbacks p in
let n := nextAvailable p in
let fds :=
match fds !! n with
| Some q => <[ n := mkPollfd (fst kv) POLLIN (revents q) ]> fds
| None => fds
end in
let cbs := <[ n := snd kv ]> cbs in
mk (pendingAdds p) (pendingRemovals p) fds
 (S n + advance (drop (S n) fds)) cbs.

(** [Poller::processPendingAdds]. *)
Definition processPendingAdds (p : t) : t :=
let p' := fold_left addOne (pendingAdds p) p in
mk [] (pendingRemovals p') (pollFDs p') (nextAvailable p') (pollCallbacks p').

(** The loop of [operator()] over the slots, with their callbacks.
[toRemove] collects the descriptors whose callback returned [false];
the loop stops once [pollResult] ready slots have been served.  [None]
stands for the [std::bad_function_call] that an empty callback
throws. *)
Fixpoint runCallbacks (slots : list (pollfd * Callback)) (pollResult : Z)
(numFDsProcessed : Z) (w : W) (toRemove : list Z) : option (W * list Z) :=
match slots with
| [] => Some (w, toRemove)
| (q, callback) :: rest =>
  if (fd q >? -1) && negb (Z.land (revents q) POLLIN =? 0)
  then
    match callback with
    | None => None
    | Some f =>
        let '(w, keep) := f w in
        let toRemove := if keep then toRemove else toRemove ++ [fd q] in
        let numFDsProcessed := numFDsProcessed + 1 in
        if numFDsProcessed =? pollResult then Some (w, toRemove)
        else runCallbacks rest pollResult numFDsProcessed w toRemove
    end
  else runCallbacks rest pollResult numFDsProcessed w toRemove
end.

(** What the system call [poll] reports: its result and the [revents] it
writes into each slot. *)
Record PollOutcome := mkPollOutcome {
pollResult : Z;
reported : nat -> Z
}.

Definition writeRevents (o : PollOutcome) (fds : list pollfd) : list pollfd :=
imap (fun i q => mkPollfd (fd q) (events q) (reported o i)) fds.

(** [Poller::operator()].  The result carries the poller, the world the
callbacks have acted on, and the value returned. *)
Definition poll (o : PollOutcome) (p : t) (w : W) : option (t * W * Z) :=
let p := processPendingRemovals p in
let p := processPendingAdds p in
if pollResult o <? 0 then Some (p, w, pollResult o)
else
let p := mk (pendingAdds p) (pendingRemovals p) (writeRevents o (pollFDs p))
            (nextAvailable p) (pollCallbacks p) in
if pollResult o >? 0
then
  match runCallbacks (zip (pollFDs p) (pollCallbacks p)) (pollResult o) 0 w [] with
  | None => None
  | Some (w, toRemove) => Some (bulkRemoval toRemove p, w, pollResult o)
  end
else Some (p, w, pollResult o).

(** The descriptors being polled. *)
Definition polled (p : t) : list Z :=
filter (fun x => 0 <= x) (map fd (pollFDs p)).

(** The two vectors have one length and [nextAvailable] is an index into
them or their length. *)
Definition wf (p : t) : Prop :=
length (pollCallbacks p) = length (pollFDs p)
/\ (nextAvailable p <= length (pollFDs p))%nat.

End WithWorld.

End Poller.

Arguments Poller.mk {W}.
Arguments Poller.pendingAdds {W}.
Arguments Poller.pendingRemovals {W}.
Arguments Poller.pollFDs {W}.
Arguments Poller.nextAvailable {W}.
Arguments Poller.pollCallbacks {W}.
Arguments Poller.empty {W}.
Arguments Poller.add {W}.
Arguments Poller.remove {W}.
Arguments Poller.removeOne {W}.
Arguments Poller.processPendingRemovalsNoLock {W}.
Arguments Poller.processPendingRemovals {W}.
Arguments Poller.bulkRemoval {W}.
Arguments Poller.addOne {W}.
Arguments Poller.processPendingAdds {W}.
Arguments Poller.runCallbacks {W}.
Arguments Poller.poll {W}.
Arguments Poller.polled {W}.
Arguments Poller.wf {W}.

(** The descriptors in use among [slots]. *)
Definition liveFds (slots : list Poller.pollfd) : list Z :=
  filter (fun x => 0 <= x) (map Poller.fd slots).

(** The slot [processPendingAdds] writes for a pending entry. *)
Definition newSlot {W : Type} (kv : Z * Poller.Callback W) : Poller.pollfd :=
  Poller.mkPollfd (fst kv) Poller.POLLIN 0.

(** Small pollers for the examples: the callbacks log the descriptor they
    serve in a world that is a list of descriptors; [keeps] answers [true],
    [drops] answers [false]. *)
Definition keeps (x : Z) : Poller.Callback (list Z) := Some (fun w => (w ++ [x], true)).
Definition drops (x : Z) : Poller.Callback (list Z) := Some (fun w => (w ++ [x], false)).

Definition twoPolled : Poller.t (list Z) :=
  Poller.processPendingAdds (Poller.add 12 (keeps 12) (Poller.add 11 (drops 11) Poller.empty)).

Definition allReadable : Poller.PollOutcome :=
  Poller.mkPollOutcome 2 (fun _ => Poller.POLLIN).

(** ** Serving HTTP requests ([Server.cpp]) *)

(** [parseMethod]: a chain of [strcmp]. *)
Definition parseMethod (methodStr : string) : Server.Method :=
  if String.eqb methodStr "GET" then Server.eGet
  else if String.eqb methodStr "HEAD" then Server.eHead
  else if String.eqb methodStr "POST" then Server.ePost
  else if String.eqb methodStr "PUT" then Server.ePut
  else if String.eqb methodStr "DELETE" then Server.eDelete
  else Server.eInvalid.

(** [parseVersion]. *)
Definition parseVersion (versionStr : string) : Server.Version :=
  if String.eqb versionStr "HTTP/0.9" then Server.mkVersion 0 9
  else if String.eqb versionStr "HTTP/1.0" then Server.mkVersion 1 0
  else if String.eqb versionStr "HTTP/1.1" then Server.mkVersion 1 1
  else if String.eqb versionStr "HTTP/2.0" then Server.mkVersion 2 0
  else Server.mkVersion (-1) (-1).

(** [Server::Response]. *)
Record Response := mkResponse {
  code : Z;
  content : string
}.

(** The two maps of [Server::Private] that requests fill: [headers] and
    [postKeyValues]. *)
Record Maps := mkMaps {
  headers : gmap string string;
  postKeyValues : gmap string string
}.

Definition noMaps : Maps := mkMaps ∅ ∅.

(** [Server::Private::keyValueIterator]: [server->headers[ key ] = value]. *)
Definition keyValueIterator (st : Maps) (kv : string * string) : Maps :=
  mkMaps (<[ fst kv := snd kv ]> (headers st)) (postKeyValues st).

(** [Server::Private::postDataIterator]: the data is appended to the value
    of a key that is there, and a new key starts with the data. *)
Definition postDataIterator (st : Maps) (kd : string * string) : Maps :=
  match postKeyValues st !! fst kd with
  | Some v => mkMaps (headers st) (<[ fst kd := (v ++ snd kd)%string ]> (postKeyValues st))
  | None => mkMaps (headers st) (<[ fst kd := snd kd ]> (postKeyValues st))
  end.

(** [ConnectionContext]; [pp] tells whether a post processor was asked
    for. *)
Record ConnectionContext := mkConnectionContext {
  ccUrl : string;
  pp : bool
}.

(** What one call of [accessHandlerCallback] does for the connection. *)
Inductive Action :=
| Refused                                   (** [return MHD_NO] *)
| ContextCreated                            (** first call: [return MHD_YES] *)
| SwitchingProtocols (r : Server.MHD_Response)  (** the upgrade response queued with 101 *)
| PostProcessed                             (** upload data given to the post processor *)
| Responded (r : Response)                  (** the handler's response queued *).

Definition isPost (m : Server.Method) : bool :=
  match m with Server.ePost => true | _ => false end.

Section Requests.

Variables sha1_encode base64_encode : string -> string.

(** The optional WebSocket handler, by its [isHandled], and the request
  handler. *)
Variable webSocketHandler : option (string -> bool).
Variable requestHandler :
string -> Server.Method -> Server.Version -> gmap string string -> string ->
gmap string string -> Response.

(** [Server::Private::invokeRequestHandler]: the two maps are swapped out
  of the server and handed to the handler. *)
Definition invokeRequestHandler (st : Maps) (url : string) (method : Server.Method)
  (version : Server.Version) (payload : string) : Maps * Response :=
(noMaps, requestHandler url method version (headers st) payload (postKeyValues st)).

(** [Server::Private::accessHandlerCallback].  [requestHeaders] are the
  header lines [MHD_get_connection_values] walks through, [uploadData]
  the [*uploadDataSize] bytes of upload data, [parsed] the key and data
  pairs that [MHD_post_process] hands to [postDataIterator] for them, and
  [cc] the connection context, [None] for the null pointer. *)
Definition accessHandlerCallback (st : Maps) (requestHeaders : list (string * string))
  (url methodStr versionStr uploadData : string) (parsed : list (string * string))
  (cc : option ConnectionContext) : Maps * option ConnectionContext * Action :=
let method := parseMethod methodStr in
match method with
| Server.eInvalid => (st, cc, Refused)
| _ =>
  let version := parseVersion versionStr in
  if Server.major version <? 0 then (st, cc, Refused)
  else
    let st := fold_left keyValueIterator requestHeaders st in
    match cc with
    | None => (st, Some (mkConnectionContext url (isPost method)), ContextCreated)
    | Some c =>
      match Server.maybeCreateWebSocketResponse sha1_encode base64_encode
              webSocketHandler (headers st) url method version with
      | Some mhdResponse => (st, cc, SwitchingProtocols mhdResponse)
      | None =>
        if isPost method && negb (String.eqb uploadData "")
        then (fold_left postDataIterator parsed st, cc, PostProcessed)
        else
          let '(st, response) := invokeRequestHandler st url method version uploadData in
          (st, None, Responded response)
      end
    end
end.

End Requests.

(** All the data [parsed] carries for the key [k], in order. *)
Fixpoint dataFor (k : string) (parsed : list (string * string)) : string :=
  match parsed with
  | [] => ""
  | kd :: rest =>
      if String.eqb (fst kd) k then (snd kd ++ dataFor k rest)%string else dataFor k rest
  end.

(** The value of the last line of [lines] whose name is [k]. *)
Fixpoint lastValue (k : string) (lines : list (string * string)) : option string :=
  match lines with
  | [] => None
  | kv :: rest =>
      match lastValue k rest with
      | Some v => Some v
      | None => if String.eqb (fst kv) k then Some (snd kv) else None
      end
  end.

Definition versionNames : list string :=
  ["HTTP/0.9"; "HTTP/1.0"; "HTTP/1.1"; "HTTP/2.0"]%string.

(** ** The scheduler and the poll set together ([Server.cpp]) *)

(** What the read callbacks of the poll set act on: the members of the
    server, or [None] once a callback has run on a session that has been
    destroyed.  (A callback is bound to the address of its session; to
    call it after the session has been erased is undefined in C++.) *)
Definition Sessions := option Server.Private.

Section Daemon.

(** What the next [recv] on the socket of each session gives. *)
Variable recv : ConnectionID -> RecvResult.

(** [WebSocket::receive] on the session [id] of the server. *)
Definition receiveOn (id : ConnectionID) (w : Sessions) : Sessions * bool :=
match w with
| None => (None, true)
| Some st =>
    match Server.onWebSocket id (fun s => receive s (recv id)) st with
    | Some (st', keep) => (Some st', keep)
    | None => (None, true)
    end
end.

(** [std::bind( &WebSocket::receive, &webSocket )]. *)
Definition receiveCallback (id : ConnectionID) : Poller.Callback Sessions :=
Some (receiveOn id).

(** The server with its poll set and the counter [globalConnectionID]. *)
Record Daemon := mkDaemon {
server : Server.Private;
poller : Poller.t Sessions;
globalConnectionID : ConnectionID
}.

(** [Server::Private::upgradeHandler], for the connection context [cc]
  ([None] for the null pointer) and the socket handed over, which works
  or not as [ok] tells.  The receivers that the handler of the user
  returns are the log [received] of the session.

  Modelled from the spec: a [ConnectionID] is an integer, and
  [globalConnectionID++] adds one to it (the header that declares the
  type is not among the sources). *)
Definition upgradeHandler (cc : option ConnectionContext) (socket : Z) (ok : bool)
  (d : Daemon) : Daemon :=
match cc with
| None =>
    mkDaemon (Server.write_cerr (server d) "Missing connection context in upgrade handler")
             (poller d) (globalConnectionID d)
| Some c =>
    let connectionID := globalConnectionID d in
    match Server.webSockets (server d) !! connectionID with
    | Some _ =>
        mkDaemon (Server.write_cerr (server d)
                    ("Failed to create WebSocket for " ++ ccUrl c)%string)
                 (poller d) (connectionID + 1)
    | None =>
        mkDaemon (Server.set_webSockets (server d)
                    (<[ connectionID := newWebSocket connectionID ok ]>
                       (Server.webSockets (server d))))
                 (Poller.add socket (receiveCallback connectionID) (poller d))
                 (connectionID + 1)
    end
end.

(** The call [poller( 500 )] of the scheduler, when [poll] reports [o].
  [None]: a callback was empty or ran on a destroyed session. *)
Definition pollerCall (o : Poller.PollOutcome) (p : Poller.t Sessions)
  (st : Server.Private) : option (Poller.t Sessions * Server.Private * Z) :=
match Poller.poll o p (Some st) with
| Some (p', Some st', r) => Some (p', st', r)
| _ => None
end.

(** One turn of the [while] of [Server::Private::webSocketLoop] on the
  server and its poll set. *)
Definition webSocketCycle (o : Poller.PollOutcome) (d : Daemon)
  : option (Daemon * Server.LoopEnd) :=
if negb (Server.webSocketRunning (server d)) then Some (d, Server.Stopped)
else
  match pollerCall o (poller d) (Server.count_poll (server d)) with
  | None => None
  | Some (p', _, _) =>
      let '(st', e) :=
        Server.webSocketLoop
          (fun st => match pollerCall o (poller d) st with
                     | Some (_, st', r) => (st', r)
                     | None => (st, -1)
                     end)
          1 (server d) in
      Some (mkDaemon st' p' (globalConnectionID d), e)
  end.

(** The slot [i] of the poll set of [d] holds [socket], with the read
  callback of the session [id]; nothing is pending. *)
Definition serves (d : Daemon) (i : nat) (socket : Z) (id : ConnectionID) : Prop :=
Poller.pendingAdds (poller d) = []
/\ Poller.pendingRemovals (poller d) = []
/\ 0 <= socket
/\ Poller.fd <$> (Poller.pollFDs (poller d) !! i) = Some socket
/\ Poller.pollCallbacks (poller d) !! i = Some (receiveCallback id)
/\ NoDup (Poller.polled (poller d)).

End Daemon.

(** [poll] reports the slot [i] readable, and no other. *)
Definition onlyReady (o : Poller.PollOutcome) (i : nat) : Prop :=
  0 < Poller.pollResult o
  /\ Z.land (Poller.reported o i) Poller.POLLIN <> 0
  /\ forall j, j <> i -> Z.land (Poller.reported o j) Poller.POLLIN = 0.

(** Every session is registered under its own id, below the counter. *)
Definition idsInUse (d : Daemon) : Prop :=
  forall id s,
    Server.webSockets (server d) !! id = Some s ->
    connectionID s = id /\ id < globalConnectionID d.

(** A server that is running, without sessions. *)
Definition freshServer : Server.Private := Server.mkPrivate ∅ ∅ true [] 0.

Definition freshDaemon : Daemon := mkDaemon freshServer Poller.empty 0.

(** The daemon once a first connection, on the socket 5, has been
    upgraded and a turn of the loop has gone by with nothing to read. *)
Definition established (recv : ConnectionID -> RecvResult) : option Daemon :=
  fst <$> webSocketCycle (Poller.mkPollOutcome 0 (fun _ => 0))
            (upgradeHandler recv (Some (mkConnectionContext "/chat" false)) 5 true
                            freshDaemon).

(** What that daemon is: the session 0 registered, its socket in the first
    slot of the poll set. *)
Definition oneSession (recv : ConnectionID -> RecvResult) : Daemon :=
  mkDaemon (Server.mkPrivate {[ 0 := newWebSocket 0 true ]} ∅ true [] 1)
           (Poller.mk [] [] [Poller.mkPollfd 5 Poller.POLLIN 0] 1 [receiveCallback recv 0])
           1.

(** [poll] reports that nothing is readable, and that the first slot is. *)
Definition noneReadable : Poller.PollOutcome := Poller.mkPollOutcome 0 (fun _ => 0).
Definition firstReadable : Poller.PollOutcome :=
  Poller.mkPollOutcome 1 (fun i => match i with O => Poller.POLLIN | _ => 0 end).

(** ** The receiver handle ([ws/Receivers.cpp], [ws/ReceiversImpl.h]) *)

Module ReceiversImpl.

Section WithUser.

(** What the receivers of the user act on. *)
Variable U : Type.

(** [Receivers::DataReceiver] and [Receivers::ControlReceiver]; [None] is
the empty function object. *)
Definition DataReceiver :=
option (ConnectionID -> Receivers.DataOpCode -> bytes -> U -> U).
Definition ControlReceiver :=
option (ConnectionID -> Receivers.ControlOpCode -> bytes -> U -> U).

(** [Receivers::Impl]. *)
Record Impl := mkImpl {
dataReceiver : DataReceiver;
controlReceiver : ControlReceiver
}.

(** [Impl::receiveData]. *)
Definition Impl_receiveData (i : Impl) (id : ConnectionID) (dataOpCode : Receivers.DataOpCode)
(message : bytes) (u : U) : U :=
match dataReceiver i with
| Some f => f id dataOpCode message u
| None => u
end.

(** [Impl::receiveControl]. *)
Definition Impl_receiveControl (i : Impl) (id : ConnectionID)
(controlOpCode : Receivers.ControlOpCode) (message : bytes) (u : U) : U :=
match controlReceiver i with
| Some f => f id controlOpCode message u
| None => u
end.

(** [Impl::close]. *)
Definition Impl_close (i : Impl) : Impl := mkImpl None None.

(** The [Impl] objects that the handles share, by address, and the state
of the user. *)
Record Store := mkStore {
impls : gmap nat Impl;
user : U
}.

(** A [Receivers] handle: its [std::shared_ptr<Impl> d], [None] when it is
null.  A copy of a handle is the same address. *)
Definition t := option nat.

(** [Receivers::Receivers( dr, cr )]: [std::make_shared<Impl>]. *)
Definition create (dr : DataReceiver) (cr : ControlReceiver) (st : Store) : t * Store :=
let l := fresh (dom (impls st)) in
(Some l, mkStore (<[ l := mkImpl dr cr ]> (impls st)) (user st)).

(** [Receivers::receiveData].  (A shared pointer that is not null points
to an object that is there; the store is looked up all the same.) *)
Definition receiveData (d : t) (id : ConnectionID) (dataOpCode : Receivers.DataOpCode)
(message : bytes) (st : Store) : Store * bool :=
match d with
| Some l =>
  (match impls st !! l with
   | Some i => mkStore (impls st) (Impl_receiveData i id dataOpCode message (user st))
   | None => st
   end, true)
| None => (st, false)
end.

(** [Receivers::receiveControl]. *)
Definition receiveControl (d : t) (id : ConnectionID) (opCode : Receivers.ControlOpCode)
(payload : bytes) (st : Store) : Store * bool :=
match d with
| Some l =>
  (match impls st !! l with
   | Some i => mkStore (impls st) (Impl_receiveControl i id opCode payload (user st))
   | None => st
   end, true)
| None => (st, false)
end.

(** [Receivers::stopReceiving]. *)
Definition stopReceiving (d : t) (st : Store) : Store :=
match d with
| Some l =>
  match impls st !! l with
  | Some i => mkStore (<[ l := Impl_close i ]> (impls st)) (user st)
  | None => st
  end
| None => st
end.

End WithUser.

End ReceiversImpl.

Arguments ReceiversImpl.mkImpl {U}.
Arguments ReceiversImpl.mkStore {U}.
Arguments ReceiversImpl.impls {U}.
Arguments ReceiversImpl.user {U}.
Arguments ReceiversImpl.create {U}.
Arguments ReceiversImpl.receiveData {U}.
Arguments ReceiversImpl.receiveControl {U}.
Arguments ReceiversImpl.stopReceiving {U}.

(** A user whose receivers log the calls they get. *)
Definition logData : ReceiversImpl.DataReceiver (list Receivers.Call) :=
  Some (fun id op message u => u ++ [Receivers.receiveData id op message]).
Definition logControl : ReceiversImpl.ControlReceiver (list Receivers.Call) :=
  Some (fun id op payload u => u ++ [Receivers.receiveControl id op payload]).

(** ** Taking the server down ([Server::Private::~Private]) *)

(** One turn of the loop of the destructor over the registry:
    [ws.closeConnection( CloseStatusCode::eGoingAway )]. *)
Definition goAway (st : Server.Private) (id : ConnectionID) : Server.Private :=
  match Server.onWebSocket id
          (fun ws => (closeConnection ws closestatus.eGoingAway [], tt)) st with
  | Some (st', _) => st'
  | None => st
  end.

(** The destructor once the scheduler thread has been joined: every
    session is sent a Close with the code for going away, in the order in
    which the registry is traversed, and the registry is cleared.  The
    result gives the server, and the sessions as they are when they are
    destroyed. *)
Definition destroyPrivate (st : Server.Private)
    : Server.Private * gmap ConnectionID WebSocket :=
  let st := Server.mkPrivate (Server.webSockets st) (Server.closedWebSockets st) false
                             (Server.cerr st) (Server.pollerCalls st) in
  let st := fold_left goAway (map fst (map_to_list (Server.webSockets st))) st in
  (Server.set_webSockets st ∅, Server.webSockets st).

(** * Properties *)

(** ** Small facts about the effect log *)

Lemma sendFrame_ok (s : WebSocket) (hd : Header.t) (p : bytes) :
  socketOk s = true ->
  sendFrame s hd p
  = (put_wire s (mkFrame hd (firstn (Z.to_nat (Header.payloadSize hd)) p)), eSuccess).
Proof. intros Hok. unfold sendFrame. now rewrite Hok. Qed.

Lemma sendFrame_closeHandshake (s : WebSocket) (hd : Header.t) (p : bytes) :
  closeHandshake (fst (sendFrame s hd p)) = closeHandshake s.
Proof. unfold sendFrame. now destruct (socketOk s). Qed.

Lemma firstn_string_size (p : bytes) : firstn (Z.to_nat (string_size p)) p = p.
Proof. unfold string_size. rewrite Nat2Z.id. apply firstn_all. Qed.

(** ** Reassembly of fragmented messages *)



Lemma last_nonempty {A : Type} (l : list A) :
  forall (x d d' : A), List.last (x :: l) d = List.last (x :: l) d'.
Proof.
  induction l as [|y l IH]; intros x d d'; [reflexivity|].
  exact (IH y d d').
Qed.

Lemma overwrite_last (mids : list bytes) :
  forall (fr : Fragmented),
    overwrite fr mids
    = match mids with
      | [] => fr
      | _ => mkFragmented Receivers.eText (List.last mids (fragPayload fr))
      end.
Proof.
  unfold overwrite.
  induction mids as [|m mids IH]; intros fr; [reflexivity|].
  cbn [fold_left]. rewrite IH. destruct mids as [|m' mids]; [reflexivity|].
  f_equal. apply (last_nonempty mids m').
Qed.

Lemma parseFrame_middles (mids : list bytes) (rest : list Frame) :
  forall (s : WebSocket) (fr : Fragmented),
    parseFrame (set_fragmented s (Some fr)) (map middleFrame mids ++ rest)
    = parseFrame (set_fragmented s (Some (overwrite fr mids))) rest.
Proof.
  induction mids as [|m mids IH]; intros s fr; [reflexivity|].
  cbn [map app]. unfold overwrite. cbn [fold_left]. fold (overwrite (mkFragmented Receivers.eText m) mids).
  rewrite <- IH. reflexivity.
Qed.

(** The final continuation frame delivers the buffer as it stands; its
    own payload is not appended. *)
Lemma parseFrame_final (s : WebSocket) (fr : Fragmented) (p : bytes) :
  parseFrame (set_fragmented s (Some fr)) [finalFrame p]
  = (deliver (set_fragmented s None)
       (Receivers.receiveData (connectionID s) (dataOpCode fr) (fragPayload fr)),
     true).
Proof. reflexivity. Qed.


(** C1 (defect of [parseFrame]).  On Text-or-Binary(FIN=0), then
    Continuation(FIN=0) frames, then Continuation(FIN=1), all masked and
    with no fragmentation buffer before, the session makes exactly one
    [receiveData] call, but its payload is the payload of the last frame
    before the final one alone (never the concatenation: the final payload
    is always missing), and its op code is text as soon as there is a
    middle frame. *)
Theorem reassembly_keeps_one_fragment (s : WebSocket) (binary : bool)
    (p0 : bytes) (mids : list bytes) (pN : bytes) :
  parseFrame (set_fragmented s None)
             (initialFrame (opCode_of binary) p0 :: map middleFrame mids ++ [finalFrame pN])
  = (deliver (set_fragmented s None)
       (Receivers.receiveData (connectionID s)
          (match mids with [] => dataOpCode_of binary | _ => Receivers.eText end)
          (List.last mids p0)),
     true).
Proof.
  transitivity
    (parseFrame (set_fragmented s (Some (mkFragmented (dataOpCode_of binary) p0)))
                (map middleFrame mids ++ [finalFrame pN])).
  { destruct binary; reflexivity. }
  rewrite parseFrame_middles, parseFrame_final, overwrite_last.
  destruct mids; reflexivity.
Qed.


(** The message "ab" + "cd" + "ef" arrives as "cd". *)
Example reassembly_abcdef :
  received (fst (parseFrame (newWebSocket 1 true)
                            [initialFrame Header.eText (b "ab");
                             middleFrame (b "cd"); finalFrame (b "ef")]))
  = [Receivers.receiveData 1 Receivers.eText (b "cd")].
Proof. reflexivity. Qed.

(** ** Pong *)

(** C2 (defect of [parseFrame]).  A masked Pong frame is handed to
    [receiveControl] with the control op code Close, not Pong, in every
    state of the session. *)
Theorem pong_reported_as_close (s : WebSocket) (fin : bool) (n : Z) (p : bytes)
    (rest : list Frame) :
  parseFrame s (mkFrame (Header.mk fin Header.ePong true n) p :: rest)
  = parseFrame (deliver s (Receivers.receiveControl (connectionID s) Receivers.eClose p))
               rest.
Proof. reflexivity. Qed.

(** ** Ping and pong sent by the server *)

(** C4 (defect of [sendPing] and [sendPong]).  In no state does either
    return [eSuccess]: on an open session whose socket accepts the write,
    both put their frame on the wire and then return [eFailure]. *)
Theorem sendPing_sendPong_never_succeed (s : WebSocket) (p : bytes) :
  snd (sendPing s p) <> eSuccess
  /\ snd (sendPong s p) <> eSuccess
  /\ (closeHandshake s = eNone -> socketOk s = true ->
      sendPing s p
      = (put_wire s (mkFrame (Header.mk false Header.ePing false (string_size p)) p),
         eFailure)
      /\ sendPong s p
         = (put_wire s (mkFrame (Header.mk false Header.ePong false (string_size p)) p),
            eFailure)).
Proof.
  split; [unfold sendPing; destruct (closeHandshake s); discriminate|].
  split; [unfold sendPong; destruct (closeHandshake s); discriminate|].
  intros Hopen Hok. unfold sendPing, sendPong. rewrite Hopen.
  rewrite !sendFrame_ok by exact Hok.
  cbn [fst Header.set_payloadSize Header.set_opCode Header.default Header.payloadSize
       Header.fin Header.isMasked Header.opCode].
  rewrite firstn_string_size. split; reflexivity.
Qed.

Lemma sendPing_sendPong_never_succeed_witness :
  let s := newWebSocket 1 true in
  (closeHandshake s = eNone /\ socketOk s = true)
  /\ sendPing s (b "hi")
     = (put_wire s (mkFrame (Header.mk false Header.ePing false 2) (b "hi")), eFailure)
  /\ sendPong s (b "hi")
     = (put_wire s (mkFrame (Header.mk false Header.ePong false 2) (b "hi")), eFailure).
Proof.
  cbv zeta. split; [split; reflexivity|].
  exact (proj2 (proj2 (sendPing_sendPong_never_succeed (newWebSocket 1 true) (b "hi")))
           eq_refl eq_refl).
Defined.

(** ** Unmasked frames *)

(** C10.  A frame with the mask bit clear, met by [parseFrame] on an open
    session whose socket accepts the write: one Close frame goes out whose
    payload is the two bytes of 1002 in network order, the close handshake
    leaves [eNone], the close callback is called once with the id of the
    session, and [parseFrame] returns [false] without looking at the frames
    behind it. *)
Theorem unmasked_frame_closes_1002 (s : WebSocket) (frame : Frame) (rest : list Frame) :
  Header.isMasked (header frame) = false ->
  closeHandshake s = eNone ->
  socketOk s = true ->
  let r := parseFrame s (frame :: rest) in
  snd r = false
  /\ (exists close hi lo more,
        wire (fst r) = wire s ++ [close]
        /\ Header.opCode (header close) = Header.eConnectionClose
        /\ Header.isMasked (header close) = false
        /\ payload close = hi :: lo :: more
        /\ Z.of_N (Byte.to_N hi) * 256 + Z.of_N (Byte.to_N lo) = 1002)
  /\ closeHandshake (fst r) <> eNone
  /\ closeCallbackCalls (fst r) = closeCallbackCalls s ++ [connectionID s]
  /\ received (fst r) = received s.
Proof.
  intros Hmask Hopen Hok r. subst r.
  cbn [parseFrame]. rewrite Hmask. cbn [negb fst snd].
  unfold closeConnection. rewrite Hopen.
  rewrite sendFrame_ok by exact Hok.
  cbn.
  split; [reflexivity|].
  split; [|split; [discriminate|split; reflexivity]].
  exists (mkFrame (Header.mk false Header.eConnectionClose false 2) [x03; xea]), x03, xea, [].
  repeat split; reflexivity.
Qed.

Lemma unmasked_frame_closes_1002_witness :
  let s := newWebSocket 4 true in
  let frame := mkFrame (Header.mk true Header.eText false 2) (b "hi") in
  let r := parseFrame s [frame] in
  (Header.isMasked (header frame) = false
   /\ closeHandshake s = eNone
   /\ socketOk s = true)
  /\ snd r = false
  /\ (exists close hi lo more,
        wire (fst r) = wire s ++ [close]
        /\ Header.opCode (header close) = Header.eConnectionClose
        /\ Header.isMasked (header close) = false
        /\ payload close = hi :: lo :: more
        /\ Z.of_N (Byte.to_N hi) * 256 + Z.of_N (Byte.to_N lo) = 1002)
  /\ closeHandshake (fst r) <> eNone
  /\ closeCallbackCalls (fst r) = closeCallbackCalls s ++ [connectionID s]
  /\ received (fst r) = received s.
Proof.
  split; [repeat split|].
  exact (unmasked_frame_closes_1002 (newWebSocket 4 true)
           (mkFrame (Header.mk true Header.eText false 2) (b "hi")) []
           eq_refl eq_refl eq_refl).
Defined.

(** ** Sends after the close handshake has begun *)

Lemma closeConnection_closed (s : WebSocket) (c : closestatus.ProtocolCode) (why : bytes) :
  closeHandshake s <> eNone -> closeConnection s c why = s.
Proof. unfold closeConnection. destruct (closeHandshake s); [congruence | reflexivity ..]. Qed.

(** Once the close handshake has left [eNone], no frame received brings it
    back. *)
Lemma parseFrame_stays_closed (frames : list Frame) :
  forall s : WebSocket,
    closeHandshake s <> eNone -> closeHandshake (fst (parseFrame s frames)) <> eNone.
Proof.
  induction frames as [|frame rest IH]; intros s Hs; [exact Hs|].
  cbn [parseFrame].
  destruct (negb (Header.isMasked (header frame))).
  { cbn [fst]. now rewrite closeConnection_closed. }
  destruct (Header.opCode (header frame)).
  - destruct (fragmented s).
    + destruct (Header.fin (header frame)); apply IH; exact Hs.
    + cbn [fst]. now rewrite closeConnection_closed.
  - destruct (fragmented s).
    + cbn [fst]. now rewrite closeConnection_closed.
    + destruct (Header.fin (header frame)); apply IH; exact Hs.
  - destruct (fragmented s).
    + cbn [fst]. now rewrite closeConnection_closed.
    + destruct (Header.fin (header frame)); apply IH; exact Hs.
  - cbn [fst]. cbn [deliver closeHandshake].
    destruct (closeHandshake s) eqn:E; [congruence | cbn; try rewrite E; discriminate ..].
  - apply IH. rewrite sendFrame_closeHandshake. exact Hs.
  - apply IH. exact Hs.
Qed.

(** C9.  Once the close handshake of a session has left [eNone], each of
    the four send operations answers [eClosed] and leaves the session, and
    so the wire, as it was: called on the session (its own guard), called
    through any non-null sender handle, and, whatever the state of the
    session, called through a handle that has been closed.  Frames that
    arrive later do not reopen the session. *)
Theorem sends_closed_after_close (s : WebSocket) (i : Senders.Impl)
    (p why : bytes) (maxFrameSize code now : Z) :
  closeHandshake s <> eNone ->
  (sendMessage s p maxFrameSize = Some (s, eClosed)
   /\ sendClose s code why now = (s, eClosed)
   /\ sendPing s p = (s, eClosed)
   /\ sendPong s p = (s, eClosed))
  /\ (Senders_sendData (Some i) s p maxFrameSize = Some (s, eClosed)
      /\ Senders_sendClose (Some i) s code why now = (s, eClosed)
      /\ Senders_sendPing (Some i) s p = (s, eClosed)
      /\ Senders_sendPong (Some i) s p = (s, eClosed))
  /\ (forall s' : WebSocket,
        Senders_sendData (Some (Senders.close i)) s' p maxFrameSize = Some (s', eClosed)
        /\ Senders_sendClose (Some (Senders.close i)) s' code why now = (s', eClosed)
        /\ Senders_sendPing (Some (Senders.close i)) s' p = (s', eClosed)
        /\ Senders_sendPong (Some (Senders.close i)) s' p = (s', eClosed))
  /\ (forall frames : list Frame, closeHandshake (fst (parseFrame s frames)) <> eNone).
Proof.
  intros Hs.
  assert (Hguard : sendMessage s p maxFrameSize = Some (s, eClosed)
                   /\ sendClose s code why now = (s, eClosed)
                   /\ sendPing s p = (s, eClosed)
                   /\ sendPong s p = (s, eClosed)).
  { unfold sendMessage, sendClose, sendPing, sendPong.
    destruct (closeHandshake s); [congruence | repeat split ..]. }
  destruct Hguard as (Hd & Hc & Hpi & Hpo).
  split; [now repeat split|].
  split.
  { unfold Senders_sendData, Senders_sendClose, Senders_sendPing, Senders_sendPong,
      Impl_sendData, Impl_sendClose, Impl_sendPing, Impl_sendPong.
    rewrite Hd, Hc, Hpi, Hpo.
    destruct (Senders.dataSender i), (Senders.closeSender i),
      (Senders.pingSender i), (Senders.pongSender i); repeat split. }
  split; [intros s'; repeat split|].
  intros frames. now apply parseFrame_stays_closed.
Qed.

Lemma sends_closed_after_close_witness :
  let s := fst (sendClose (newWebSocket 2 true) 1000 [] 0) in
  closeHandshake s <> eNone
  /\ sendMessage s (b "late") 0 = Some (s, eClosed)
  /\ sendClose s 1000 [] 5 = (s, eClosed)
  /\ Senders_sendPing (Some (senders s)) s (b "late") = (s, eClosed)
  /\ Senders_sendPong (Some (Senders.close (senders s))) (newWebSocket 3 true) (b "late")
     = (newWebSocket 3 true, eClosed).
Proof.
  pose proof (sends_closed_after_close
                (fst (sendClose (newWebSocket 2 true) 1000 [] 0))
                (senders (fst (sendClose (newWebSocket 2 true) 1000 [] 0)))
                (b "late") [] 0 1000 5 ltac:(discriminate)) as (Hg & Hh & Hr & _).
  cbv zeta. split; [discriminate|].
  split; [apply Hg|]. split; [apply Hg|]. split; [apply Hh|].
  apply (Hr (newWebSocket 3 true)).
Defined.

(** ** A maximum frame size that leaves no room for payload *)

(** C5, as stated, fails: with an empty payload and a maximum frame size
    of one byte [sendMessage] does not answer [eFrameSizeTooSmall]. *)
Lemma frame_size_too_small_counterexample :
  let s := newWebSocket 1 true in
  closeHandshake s = eNone
  /\ 0 < 1 <= Header.encodedSizeInBytes (string_size []) false
  /\ sendMessage s [] 1 <> Some (s, eFrameSizeTooSmall).
Proof.
  cbv zeta. split; [reflexivity|].
  split; [unfold Header.encodedSizeInBytes, string_size; simpl; lia | discriminate].
Qed.

(** C5, amended.  For every payload and every maximum frame size between 1
    and the encoded header size, [sendMessage] on an open session answers
    [eFailure] and sends no frame: the session is left as it was. *)
Theorem frame_size_too_small_fails (s : WebSocket) (p : bytes) (maxFrameSize : Z) :
  closeHandshake s = eNone ->
  0 < maxFrameSize <= Header.encodedSizeInBytes (string_size p) false ->
  sendMessage s p maxFrameSize = Some (s, eFailure).
Proof.
  intros Hopen [Hpos Hle]. unfold sendMessage. rewrite Hopen.
  replace (maxFrameSize =? 0) with false by (symmetry; apply Z.eqb_neq; lia).
  replace (maxFrameSize <=? _) with true by (symmetry; apply Z.leb_le; exact Hle).
  reflexivity.
Qed.

Lemma frame_size_too_small_fails_witness :
  closeHandshake (newWebSocket 1 true) = eNone
  /\ 0 < 2 <= Header.encodedSizeInBytes (string_size (b "hello")) false
  /\ sendMessage (newWebSocket 1 true) (b "hello") 2
     = Some (newWebSocket 1 true, eFailure).
Proof.
  assert (H : 0 < 2 <= Header.encodedSizeInBytes (string_size (b "hello")) false)
    by (unfold Header.encodedSizeInBytes, string_size; simpl; lia).
  split; [reflexivity|]. split; [exact H|].
  exact (frame_size_too_small_fails (newWebSocket 1 true) (b "hello") 2 eq_refl H).
Defined.

(** ** The scheduler and the closed set *)

Lemma drainClosed_unknown (ids : list ConnectionID) :
  forall (st : Server.Private) (id : ConnectionID),
    In id ids -> Server.webSockets st !! id = None ->
    snd (Server.drainClosed ids st) = false.
Proof.
  induction ids as [|i ids IH]; intros st id Hin Hno; [destruct Hin|].
  cbn [Server.drainClosed].
  destruct (Server.webSockets st !! i) eqn:Hi; [|reflexivity].
  destruct Hin as [->|Hin]; [congruence|].
  apply (IH _ id Hin). cbn.
  apply lookup_delete_None. now right.
Qed.

(** C3 (defect of [webSocketLoop]).  When, after a poll that did not fail,
    the closed set holds an id that the registry does not know, the loop
    does not go on to the next poll: it leaves through its [return],
    however many cycles one waits for.  The scheduler thread is over and no
    session is polled again. *)
Theorem unknown_closed_id_ends_loop (poller : Server.Private -> Server.Private * Z)
    (cycles : nat) (st st1 : Server.Private) (pollResult : Z) (id : ConnectionID) :
  Server.webSocketRunning st = true ->
  poller (Server.count_poll st) = (st1, pollResult) ->
  0 <= pollResult ->
  id ∈ Server.closedWebSockets st1 ->
  Server.webSockets st1 !! id = None ->
  snd (Server.webSocketLoop poller (S cycles) st) = Server.Returned.
Proof.
  intros Hrun Hpoll Hres Hin Hno.
  cbn [Server.webSocketLoop]. rewrite Hrun, Hpoll. cbn [negb].
  replace (pollResult <? 0) with false by (symmetry; apply Z.ltb_ge; exact Hres).
  pose proof (drainClosed_unknown (elements (Server.closedWebSockets st1)) st1 id) as Hd.
  destruct (Server.drainClosed (elements (Server.closedWebSockets st1)) st1) as [st2 [|]].
  - cbn [snd] in Hd. discriminate Hd; [|exact Hno].
    apply list_elem_of_In, elem_of_elements. exact Hin.
  - reflexivity.
Qed.

Lemma unknown_closed_id_ends_loop_witness :
  let st := serverWithSession {[ 7 ]} in
  let r := Server.webSocketLoop Server.idlePoller 5 st in
  (Server.webSocketRunning st = true
   /\ Server.idlePoller (Server.count_poll st) = (Server.count_poll st, 0)
   /\ 0 <= 0
   /\ 7 ∈ Server.closedWebSockets (Server.count_poll st)
   /\ Server.webSockets (Server.count_poll st) !! 7 = None)
  /\ snd r = Server.Returned
  /\ Server.pollerCalls (fst r) = 1%nat
  /\ Server.cerr (fst r) = ["Unknown WebSocket closed!"%string]
  /\ is_Some (Server.webSockets (fst r) !! 1).
Proof.
  cbv zeta.
  assert (Hin : 7 ∈ Server.closedWebSockets (Server.count_poll (serverWithSession {[ 7 ]})))
    by (cbn; set_solver).
  split;
    [split; [reflexivity | split; [reflexivity | split; [lia | split; [exact Hin | reflexivity]]]]|].
  split.
  - exact (unknown_closed_id_ends_loop Server.idlePoller 4 (serverWithSession {[ 7 ]})
             (Server.count_poll (serverWithSession {[ 7 ]})) 0 7
             eq_refl eq_refl ltac:(lia) Hin eq_refl).
  - split; [vm_compute; reflexivity|]. split; [vm_compute; reflexivity|].
    vm_compute. eexists. reflexivity.
Defined.

(** With a known id in the closed set the same loop keeps polling. *)
Example known_closed_id_keeps_polling :
  let r := Server.webSocketLoop Server.idlePoller 5 (serverWithSession {[ 1 ]}) in
  snd r = Server.StillRunning /\ Server.pollerCalls (fst r) = 5%nat.
Proof. vm_compute. split; reflexivity. Qed.

(** ** The close time-out *)

(** [canClose] reports the time-out of a server-initiated close exactly
    when more than 2000 ms have passed since the Close frame was sent (the
    steady clock does not run backwards). *)
Lemma canClose_serverInitiated (s : WebSocket) (now : Z) :
  closeHandshake s = eServerInitiated ->
  0 <= now - closeSentTimePoint s < size_t_modulus ->
  (canClose s now = false <-> now - closeSentTimePoint s > 2000).
Proof.
  intros Hs Hdiff. unfold canClose, closeTimeoutMilliseconds. rewrite Hs.
  unfold wrap. rewrite Z.mod_small by exact Hdiff.
  destruct (Z.gtb_spec (now - closeSentTimePoint s) 2000); split;
    intros; try reflexivity; try lia; try discriminate.
Qed.

(** C7 (defect: [webSocketLoop] never consults [canClose]).  The user
    sends Close at time [sentAt]; the peer stays silent.  [sendClose] calls
    the close callback at once, and the first poll cycle that follows, even
    one that merely times out, erases the session from the registry, while
    [canClose] still reports no time-out at any time up to 2000 ms after
    [sentAt]. *)
Theorem close_not_awaited (code : Z) (why : bytes) (sentAt : Z) :
  exists st1 ws1,
    userSendClose 1 code why sentAt (serverWithSession ∅) = Some (st1, eSuccess)
    /\ Server.webSockets st1 !! 1 = Some ws1
    /\ closeHandshake ws1 = eServerInitiated
    /\ closeSentTimePoint ws1 = sentAt
    /\ Server.closedWebSockets st1 = {[ 1 ]}
    /\ (forall now, 0 <= now - sentAt <= 2000 -> canClose ws1 now = true)
    /\ Server.webSockets (fst (Server.webSocketLoop Server.idlePoller 1 st1)) !! 1 = None.
Proof.
  eexists. eexists.
  split; [reflexivity|].
  split; [reflexivity|].
  split; [reflexivity|].
  split; [reflexivity|].
  split; [cbn; set_solver|].
  split.
  - intros now Hnow. unfold canClose, closeTimeoutMilliseconds. cbn.
    unfold wrap. rewrite Z.mod_small by (change size_t_modulus with (2 ^ 64); lia).
    destruct (Z.gtb_spec (now - sentAt) 2000); [lia | reflexivity].
  - vm_compute. reflexivity.
Qed.

Lemma close_not_awaited_witness :
  exists st1 ws1,
    userSendClose 1 1000 [] 0 (serverWithSession ∅) = Some (st1, eSuccess)
    /\ Server.webSockets st1 !! 1 = Some ws1
    /\ 0 <= 500 - 0 <= 2000
    /\ canClose ws1 500 = true
    /\ Server.webSockets (fst (Server.webSocketLoop Server.idlePoller 1 st1)) !! 1 = None.
Proof.
  destruct (close_not_awaited 1000 [] 0)
    as (st1 & ws1 & Hsend & Hws & _ & _ & _ & Hcan & Hgone).
  exists st1, ws1.
  split; [exact Hsend|]. split; [exact Hws|].
  assert (Hnow : 0 <= 500 - 0 <= 2000) by lia.
  split; [exact Hnow|]. split; [exact (Hcan 500 Hnow) | exact Hgone].
Defined.

(** ** The upgrade gate *)

Lemma isHeaderSet_true (headers : Server.Headers) (name : string) :
  Server.isHeaderSet headers name = true <-> is_Some (headers !! name).
Proof.
  unfold Server.isHeaderSet. destruct (headers !! name); split; intros H.
  - now eexists.
  - reflexivity.
  - discriminate.
  - destruct H; discriminate.
Qed.

Lemma isHeaderSetTo_true (headers : Server.Headers) (name value : string) :
  Server.isHeaderSetTo headers name value = true <-> headers !! name = Some value.
Proof.
  unfold Server.isHeaderSetTo. destruct (headers !! name) as [v|]; split; intros H.
  - apply String.eqb_eq in H. now subst.
  - injection H as ->. apply String.eqb_refl.
  - discriminate.
  - discriminate.
Qed.

Lemma spec_isHeaderSet_exact (headers : Server.Headers) (name v : string) :
  headers !! name = Some v -> Server.spec_isHeaderSet headers name = true.
Proof.
  intros H. unfold Server.spec_isHeaderSet. apply existsb_exists.
  exists (name, v). split; [|apply String.eqb_refl].
  apply list_elem_of_In, elem_of_map_to_list. exact H.
Qed.

Lemma spec_isHeaderSetTo_exact (headers : Server.Headers) (name v token : string) :
  headers !! name = Some v -> Server.spec_hasToken v token = true ->
  Server.spec_isHeaderSetTo headers name token = true.
Proof.
  intros H Ht. unfold Server.spec_isHeaderSetTo. apply existsb_exists.
  exists (name, v). split.
  - apply list_elem_of_In, elem_of_map_to_list. exact H.
  - cbn [fst snd]. now rewrite String.eqb_refl, Ht.
Qed.

(** The gate as one boolean test. *)
Lemma gate_as_test (sha1_encode base64_encode : string -> string)
    (isHandled : string -> bool) (headers : Server.Headers) (url : string)
    (method : Server.Method) (version : Server.Version) :
  is_Some (Server.maybeCreateWebSocketResponse sha1_encode base64_encode
             (Some isHandled) headers url method version)
  <-> (isHandled url
       && match method with Server.eGet => true | _ => false end
       && Server.isHeaderSet headers "Host"
       && Server.isHeaderSetTo headers "Upgrade" "websocket"
       && Server.isHeaderSetTo headers "Connection" "Upgrade"
       && Server.isHeaderSet headers "Sec-WebSocket-Version"
       && Server.isHeaderSet headers "Sec-WebSocket-Key"
       && negb ((Server.major version <? 1)
                || ((Server.major version =? 1) && (Server.minor version <? 1))))%bool
      = true.
Proof.
  unfold Server.maybeCreateWebSocketResponse, Server.MHD_HTTP_HEADER_HOST,
    Server.MHD_HTTP_HEADER_UPGRADE, Server.MHD_HTTP_HEADER_SEC_WEBSOCKET_KEY.
  refused_unless (isHandled url).
  refused_unless (match method with Server.eGet => true | _ => false end).
  refused_unless (Server.isHeaderSet headers "Host").
  refused_unless (Server.isHeaderSetTo headers "Upgrade" "websocket").
  refused_unless (Server.isHeaderSetTo headers "Connection" "Upgrade").
  refused_unless (Server.isHeaderSet headers "Sec-WebSocket-Version").
  refused_unless (Server.isHeaderSet headers "Sec-WebSocket-Key").
  destruct ((Server.major version <? 1)
            || ((Server.major version =? 1) && (Server.minor version <? 1)))%bool;
    cbn [negb]; split; try discriminate; try (intros [? ?]; discriminate).
  - intros _. reflexivity.
  - intros _. eexists. reflexivity.
Qed.

(** C6, as stated, fails.  A request that differs from an accepted one only
    in the case of a header name, and a request whose [Connection] value
    lists [Upgrade] as one token among others, both pass the gate as the
    specification words it and are both refused by
    [maybeCreateWebSocketResponse]. *)
Lemma gate_case_insensitive_counterexample :
  (Server.spec_upgradeGate anyUrl lowerCaseNameHeaders "/chat" Server.eGet http11 = true
   /\ Server.maybeCreateWebSocketResponse id id anyUrl lowerCaseNameHeaders "/chat"
        Server.eGet http11 = None)
  /\ (Server.spec_upgradeGate anyUrl tokenListHeaders "/chat" Server.eGet http11 = true
      /\ Server.maybeCreateWebSocketResponse id id anyUrl tokenListHeaders "/chat"
           Server.eGet http11 = None)
  /\ is_Some (Server.maybeCreateWebSocketResponse id id anyUrl exactHeaders "/chat"
                Server.eGet http11).
Proof.
  split; [split; vm_compute; reflexivity|].
  split; [split; vm_compute; reflexivity|].
  vm_compute. eexists. reflexivity.
Qed.

(** C6, amended.  The gate matches header names byte for byte and accepts
    only the exact values [websocket] for [Upgrade] and [Upgrade] for
    [Connection]: it answers with a response exactly when the handler is set
    and handles the URL, the method is GET, the headers map has the keys
    [Host], [Sec-WebSocket-Version] and [Sec-WebSocket-Key], maps [Upgrade]
    to [websocket] and [Connection] to [Upgrade], and the version is at
    least 1.1.  Every request it accepts also passes the case-insensitive
    gate of the specification. *)
Theorem gate_matches_exactly (sha1_encode base64_encode : string -> string)
    (webSocketHandler : option (string -> bool)) (headers : Server.Headers)
    (url : string) (method : Server.Method) (version : Server.Version) :
  (is_Some (Server.maybeCreateWebSocketResponse sha1_encode base64_encode
              webSocketHandler headers url method version)
   <-> ((exists isHandled, webSocketHandler = Some isHandled /\ isHandled url = true)
        /\ method = Server.eGet
        /\ is_Some (headers !! "Host"%string)
        /\ headers !! "Upgrade"%string = Some "websocket"%string
        /\ headers !! "Connection"%string = Some "Upgrade"%string
        /\ is_Some (headers !! "Sec-WebSocket-Version"%string)
        /\ is_Some (headers !! "Sec-WebSocket-Key"%string)
        /\ (1 < Server.major version
            \/ (Server.major version = 1 /\ 1 <= Server.minor version))))
  /\ (is_Some (Server.maybeCreateWebSocketResponse sha1_encode base64_encode
                 webSocketHandler headers url method version)
      -> Server.spec_upgradeGate webSocketHandler headers url method version = true).
Proof.
  assert (Hver : negb ((Server.major version <? 1)
                       || ((Server.major version =? 1) && (Server.minor version <? 1)))%bool
                 = true
                 <-> (1 < Server.major version
                      \/ (Server.major version = 1 /\ 1 <= Server.minor version))).
  { destruct (Z.ltb_spec (Server.major version) 1),
      (Z.eqb_spec (Server.major version) 1),
      (Z.ltb_spec (Server.minor version) 1); cbn; split; intros; try lia;
      try discriminate; try reflexivity. }
  assert (Hget : match method with Server.eGet => true | _ => false end = true
                 <-> method = Server.eGet).
  { destruct method; split; intros; try discriminate; reflexivity. }
  destruct webSocketHandler as [isHandled|].
  2:{ split; [split|].
      - intros [? H]; discriminate H.
      - intros [[? [H _]] _]; discriminate H.
      - intros [? H]; discriminate H. }
  rewrite gate_as_test.
  rewrite !andb_true_iff, !isHeaderSet_true, !isHeaderSetTo_true, Hver, Hget.
  split.
  - split.
    + intros [[[[[[[H1 H2] H3] H4] H5] H6] H7] H8].
      repeat split; try assumption. now exists isHandled.
    + intros [[f [Hf H1]] [H2 [H3 [H4 [H5 [H6 [H7 H8]]]]]]].
      injection Hf as <-. repeat split; assumption.
  - intros [[[[[[[H1 H2] H3] H4] H5] H6] H7] H8].
    unfold Server.spec_upgradeGate.
    destruct H3 as [v3 H3], H6 as [v6 H6], H7 as [v7 H7].
    rewrite H1, (proj2 Hget H2), (spec_isHeaderSet_exact _ _ _ H3),
      (spec_isHeaderSetTo_exact _ _ _ "websocket" H4 eq_refl),
      (spec_isHeaderSetTo_exact _ _ _ "Upgrade" H5 eq_refl),
      (spec_isHeaderSet_exact _ _ _ H6), (spec_isHeaderSet_exact _ _ _ H7),
      (proj2 Hver H8).
    reflexivity.
Qed.

(** ** Splitting a message into frames *)

Lemma wrap_small (z : Z) : 0 <= z < size_t_modulus -> wrap z = z.
Proof. intros H. unfold wrap. now apply Z.mod_small. Qed.

Lemma encodedSizeInBytes_bounds (n : Z) : 2 <= Header.encodedSizeInBytes n false <= 10.
Proof.
  unfold Header.encodedSizeInBytes.
  destruct (n <? 126), (n <? 65536); lia.
Qed.

Lemma encodedSizeInBytes_mono (a c : Z) (m : bool) :
  a <= c -> Header.encodedSizeInBytes a m <= Header.encodedSizeInBytes c m.
Proof.
  intros H. unfold Header.encodedSizeInBytes.
  destruct (Z.ltb_spec a 126), (Z.ltb_spec a 65536), (Z.ltb_spec c 126),
    (Z.ltb_spec c 65536), m; lia.
Qed.

Lemma string_size_nonneg (p : bytes) : 0 <= string_size p.
Proof. unfold string_size. lia. Qed.

Lemma string_size_app (p q : bytes) : string_size (p ++ q) = string_size p + string_size q.
Proof. unfold string_size. rewrite length_app. lia. Qed.

Lemma string_size_skipn (n : Z) (p : bytes) :
  0 <= n <= string_size p ->
  string_size (skipn (Z.to_nat n) p) = string_size p - n.
Proof. unfold string_size. intros H. rewrite length_skipn. lia. Qed.

Lemma string_size_firstn (n : Z) (p : bytes) :
  0 <= n <= string_size p ->
  string_size (firstn (Z.to_nat n) p) = n.
Proof. unfold string_size. intros H. rewrite length_firstn. lia. Qed.

Lemma put_wires_socketOk (frames : list Frame) :
  forall s : WebSocket, socketOk (put_wires s frames) = socketOk s.
Proof.
  unfold put_wires.
  induction frames as [|f frames IH]; intros s; [reflexivity|].
  cbn [fold_left]. now rewrite IH.
Qed.

Lemma put_wires_snoc (s : WebSocket) (frames : list Frame) (f : Frame) :
  put_wire (put_wires s frames) f = put_wires s (frames ++ [f]).
Proof. unfold put_wires. now rewrite fold_left_app. Qed.

Lemma put_wires_wire (frames : list Frame) :
  forall s : WebSocket, wire (put_wires s frames) = wire s ++ frames.
Proof.
  unfold put_wires.
  induction frames as [|f frames IH]; intros s; cbn [fold_left].
  - now rewrite app_nil_r.
  - rewrite IH. cbn. now rewrite <- app_assoc.
Qed.

Lemma last_cons_default {A : Type} (l : list A) :
  forall (x d : A), List.last (x :: l) d = List.last l x.
Proof.
  induction l as [|y l IH]; intros x d; [reflexivity|].
  change (List.last (x :: y :: l) d) with (List.last (y :: l) d).
  rewrite (IH y d). symmetry. apply (IH y x).
Qed.

Lemma loopOpCodes_continuation (k : nat) :
  loopOpCodes Header.eContinuation k = repeat Header.eContinuation k.
Proof. destruct k; reflexivity. Qed.

Lemma loopFrames_size (chunk : Z) (hd : Header.t) (frames : list Frame) :
  Forall (loopFrame hd chunk) frames ->
  string_size (concat (map payload frames)) = Z.of_nat (length frames) * chunk.
Proof.
  induction 1 as [|f frames Hf _ IH]; [reflexivity|].
  cbn [map concat length]. rewrite string_size_app, IH.
  destruct Hf as [-> _]. lia.
Qed.

Section SendMessageLoop.

Variables maxFrameSize encodedHeaderSize : Z.
Hypothesis header_nonneg : 0 <= encodedHeaderSize.
Hypothesis room : encodedHeaderSize < maxFrameSize.
Hypothesis is_size_t : maxFrameSize < size_t_modulus.

Let chunk : Z := maxFrameSize - encodedHeaderSize.

(** What the loop does: it sends [frames], each with [chunk] bytes taken
    from the front of [p], and stops with [p'], no longer than a chunk,
    left for the final frame.  The header it leaves has the op code of
    the last frame sent. *)
Lemma sendMessage_loop_spec (fuel : nat) :
  forall (s : WebSocket) (hd : Header.t) (sentFirstFrame : bool) (p : bytes),
    socketOk s = true ->
    string_size p + encodedHeaderSize < size_t_modulus ->
    (length p <= fuel)%nat ->
    exists (frames : list Frame) (hd' : Header.t) (p' : bytes),
      sendMessage_loop fuel s maxFrameSize encodedHeaderSize hd sentFirstFrame
                       (string_size p) p
      = Some (put_wires s frames, hd', string_size p', p')
      /\ p = concat (map payload frames) ++ p'
      /\ string_size p' <= chunk
      /\ (p <> [] -> p' <> [])
      /\ Forall (loopFrame hd chunk) frames
      /\ opCodes frames
         = loopOpCodes (if sentFirstFrame then Header.eContinuation else Header.opCode hd)
                       (length frames)
      /\ Header.fin hd' = Header.fin hd
      /\ Header.isMasked hd' = Header.isMasked hd
      /\ Header.opCode hd' = List.last (opCodes frames) (Header.opCode hd)
      /\ (frames <> [] -> chunk < string_size p).
Proof.
  induction fuel as [|fuel IH]; intros s hd sent p Hok Hfit Hfuel.
  - assert (p = []) as -> by (destruct p; [reflexivity | cbn in Hfuel; lia]).
    exists [], hd, [].
    cbn [sendMessage_loop]. change (string_size []) with 0.
    change (string_size []) with 0 in Hfit.
    rewrite wrap_small by lia.
    destruct (Z.gtb_spec (0 + encodedHeaderSize) maxFrameSize) as [Hgt|Hle]; [lia|].
    subst chunk. repeat split; try reflexivity; try (cbn; lia); try congruence.
    constructor.
  - cbn [sendMessage_loop].
    pose proof (string_size_nonneg p) as Hp0.
    rewrite (wrap_small (string_size p + encodedHeaderSize)) by lia.
    destruct (Z.gtb_spec (string_size p + encodedHeaderSize) maxFrameSize) as [Hgt|Hle].
    + rewrite (wrap_small (maxFrameSize - encodedHeaderSize)) by lia.
      fold chunk.
      set (hd1 := Header.set_payloadSize
                    (if sent then Header.set_opCode hd Header.eContinuation else hd) chunk).
      assert (Hps : Header.payloadSize hd1 = chunk) by reflexivity.
      assert (Hchunk : 0 < chunk < string_size p) by (subst chunk; lia).
      rewrite Hps.
      rewrite sendFrame_ok by exact Hok. cbn [fst]. rewrite Hps.
      rewrite (wrap_small (string_size p - chunk)) by lia.
      rewrite <- (string_size_skipn chunk p) by lia.
      set (f1 := mkFrame hd1 (firstn (Z.to_nat chunk) p)).
      destruct (IH (put_wire s f1) hd1 true (skipn (Z.to_nat chunk) p))
        as (frames & hd' & p' & Hrun & Hcat & Hlast & Hne & Hall & Hops & Hfin & Hmask
            & Hop & Hlong).
      { exact Hok. }
      { rewrite string_size_skipn by lia. lia. }
      { rewrite length_skipn. unfold string_size in Hchunk. lia. }
      exists (f1 :: frames), hd', p'.
      assert (Hfin1 : Header.fin hd1 = Header.fin hd) by (subst hd1; now destruct sent).
      assert (Hmask1 : Header.isMasked hd1 = Header.isMasked hd)
        by (subst hd1; now destruct sent).
      assert (Hop1 : Header.opCode hd1
                     = if sent then Header.eContinuation else Header.opCode hd)
        by (subst hd1; now destruct sent).
      split; [exact Hrun|].
      split.
      { cbn [map concat]. rewrite <- app_assoc, <- Hcat. subst f1. cbn [payload].
        symmetry. apply firstn_skipn. }
      split; [exact Hlast|].
      split.
      { intros _. apply Hne. intros Hnil.
        apply (f_equal string_size) in Hnil.
        rewrite string_size_skipn in Hnil by lia.
        change (string_size []) with 0 in Hnil. lia. }
      split.
      { constructor.
        - subst f1. unfold loopFrame. cbn [payload header].
          split; [apply string_size_firstn; lia|].
          split; [exact Hps|]. split; [exact Hfin1 | exact Hmask1].
        - eapply Forall_impl; [exact Hall|].
          intros f (H1 & H2 & H3 & H4). unfold loopFrame.
          repeat split; congruence. }
      split.
      { cbn [opCodes map length loopOpCodes]. fold (opCodes frames).
        rewrite Hops, loopOpCodes_continuation. subst f1. cbn [header].
        now rewrite Hop1. }
      split; [now rewrite Hfin, Hfin1|].
      split; [now rewrite Hmask, Hmask1|].
      split.
      { cbn [opCodes map]. fold (opCodes frames). rewrite last_cons_default.
        subst f1. cbn [header]. exact Hop. }
      intros _. lia.
    + exists [], hd, p.
      subst chunk. repeat split; try reflexivity; try lia; try congruence.
      constructor.
Qed.

End SendMessageLoop.

Lemma last_repeat {A : Type} (c x d : A) (n : nat) :
  List.last (x :: repeat c (S n)) d = c.
Proof.
  rewrite last_cons_default. clear d.
  revert x. induction n as [|n IH]; intros x; [reflexivity|].
  change (repeat c (S (S n))) with (c :: repeat c (S n)).
  rewrite last_cons_default. apply IH.
Qed.

Lemma nth_error_loopOpCodes (first op : Header.OpCode) (k i : nat) :
  nth_error (loopOpCodes first k) i = Some op ->
  (i = 0%nat -> op = first) /\ ((0 < i)%nat -> op = Header.eContinuation).
Proof.
  destruct k as [|k]; [destruct i; discriminate|].
  destruct i as [|i]; cbn [loopOpCodes nth_error]; intros H.
  - injection H as <-. split; [reflexivity | lia].
  - split; [discriminate|]. intros _.
    apply nth_error_In in H. now apply repeat_spec in H.
Qed.

Lemma ceilFrames_exact (n maxFrameSize headerSize k r : Z) :
  headerSize < maxFrameSize ->
  0 <= k -> 1 <= r <= maxFrameSize - headerSize ->
  n = k * (maxFrameSize - headerSize) + r ->
  ceilFrames n maxFrameSize headerSize = k + 1.
Proof.
  intros Hroom Hk Hr ->. unfold ceilFrames. symmetry.
  apply (Z.div_unique_pos _ _ (k + 1) (r - 1)); lia.
Qed.

(** C8, as stated, fails.  For the empty payload the rounded-up quotient
    is zero, and [sendMessage] still sends one frame. *)
Lemma fragment_count_counterexample :
  Header.encodedSizeInBytes (string_size []) false < 3
  /\ ceilFrames (string_size []) 3 (Header.encodedSizeInBytes (string_size []) false) = 0
  /\ (exists s', sendMessage (newWebSocket 1 true) [] 3 = Some (s', eSuccess)
                 /\ wire s' = [mkFrame (Header.mk true Header.eText false 0) []]).
Proof.
  split; [vm_compute; reflexivity|]. split; [vm_compute; reflexivity|].
  eexists. split; reflexivity.
Qed.

(** The slip in the loop of [sendMessage]: the op code becomes
    Continuation at the start of the second turn only, so a message split
    in exactly two frames ends with a Text frame. *)
Example two_frames_end_with_text :
  exists s', sendMessage (newWebSocket 1 true) (b "abcd") 5 = Some (s', eSuccess)
             /\ wire s' = [mkFrame (Header.mk false Header.eText false 3) (b "abc");
                           mkFrame (Header.mk true Header.eText false 1) (b "d")].
Proof. eexists. split; reflexivity. Qed.

(** C8, amended.  For a payload of [N] bytes (at most [max_size]) and a
    maximum frame size [F] above the encoded header size [h] of the whole
    payload, [sendMessage] on an open session whose socket accepts the
    writes answers [eSuccess] and puts on the wire, after what was there,
    the larger of one and [N / (F - h)] rounded up frames.  Their payloads
    are the message, in order; no frame is masked; each takes at most [F]
    bytes; only the last has FIN set; the first is Text; every frame after
    the first and before the last is Continuation, and so is the last when
    there are three frames or more.  (The op code of the last of exactly
    two frames is not part of this statement.) *)
Theorem sendMessage_fragments (s : WebSocket) (p : bytes) (maxFrameSize : Z) :
  closeHandshake s = eNone ->
  socketOk s = true ->
  string_size p <= max_size ->
  Header.encodedSizeInBytes (string_size p) false < maxFrameSize < size_t_modulus ->
  exists (s' : WebSocket) (frames : list Frame),
    sendMessage s p maxFrameSize = Some (s', eSuccess)
    /\ wire s' = wire s ++ frames
    /\ Z.of_nat (length frames)
       = Z.max 1 (ceilFrames (string_size p) maxFrameSize
                             (Header.encodedSizeInBytes (string_size p) false))
    /\ concat (map payload frames) = p
    /\ forall (i : nat) (f : Frame),
         nth_error frames i = Some f ->
         Header.isMasked (header f) = false
         /\ Header.payloadSize (header f) = string_size (payload f)
         /\ frameSize f <= maxFrameSize
         /\ Header.fin (header f) = Nat.eqb (S i) (length frames)
         /\ (i = 0%nat -> Header.opCode (header f) = Header.eText)
         /\ ((0 < i)%nat ->
             (S i < length frames)%nat \/ (3 <= length frames)%nat ->
             Header.opCode (header f) = Header.eContinuation).
Proof.
  intros Hopen Hok Hmax [Hroom Hsz].
  pose proof (encodedSizeInBytes_bounds (string_size p)) as Hh.
  pose proof (string_size_nonneg p) as Hp0.
  set (h := Header.encodedSizeInBytes (string_size p) false) in *.
  assert (Hmod : size_t_modulus = 2 ^ 64) by reflexivity.
  assert (Hms : max_size = 2 ^ 63 - 1) by reflexivity.
  destruct (sendMessage_loop_spec maxFrameSize h ltac:(lia) Hroom Hsz (length p) s
              (Header.set_opCode Header.default Header.eText) false p Hok
              ltac:(lia) ltac:(lia))
    as (frames & hd' & p' & Hrun & Hcat & Hlast & Hne & Hall & Hops & Hfin & Hmask
        & Hop & Hlong).
  cbn [Header.set_opCode Header.default Header.fin Header.isMasked Header.opCode] in *.
  set (final := mkFrame (Header.set_payloadSize (Header.set_fin hd' true) (string_size p')) p').
  exists (put_wires s (frames ++ [final])), (frames ++ [final]).
  pose proof (loopFrames_size _ _ _ Hall) as Hlen.
  assert (HN : string_size p
               = Z.of_nat (length frames) * (maxFrameSize - h) + string_size p').
  { rewrite Hcat at 1. rewrite string_size_app, Hlen. reflexivity. }
  pose proof (string_size_nonneg p') as Hp'0.
  split.
  { unfold sendMessage. rewrite Hopen. fold h.
    replace (negb (maxFrameSize =? 0) && (maxFrameSize <=? h))%bool with false
      by (symmetry; apply andb_false_iff; right; apply Z.leb_gt; lia).
    replace (maxFrameSize >? 0) with true
      by (symmetry; apply Z.gtb_lt; lia).
    rewrite Hrun.
    rewrite sendFrame_ok by (rewrite put_wires_socketOk; exact Hok).
    cbn [fst Header.set_payloadSize Header.payloadSize].
    rewrite firstn_string_size, put_wires_snoc. reflexivity. }
  split; [apply put_wires_wire|].
  split.
  { rewrite length_app. cbn [length].
    destruct (Z.eq_dec (string_size p) 0) as [Hz|Hnz].
    - assert (length frames = 0%nat) as -> by nia.
      rewrite Hz. unfold ceilFrames. rewrite Z.div_small by lia. reflexivity.
    - assert (Hp'ne : p' <> []).
      { apply Hne. intros ->. apply Hnz. reflexivity. }
      assert (1 <= string_size p').
      { destruct p'; [congruence|]. unfold string_size. cbn [length]. lia. }
      rewrite (ceilFrames_exact _ _ _ (Z.of_nat (length frames)) (string_size p'));
        try lia. }
  split.
  { rewrite map_app, concat_app. cbn [map concat payload final].
    rewrite app_nil_r. symmetry. exact Hcat. }
  intros i f Hi.
  rewrite length_app. cbn [length].
  destruct (Nat.lt_ge_cases i (length frames)) as [Hlt|Hge].
  - (* a frame sent inside the loop *)
    rewrite nth_error_app1 in Hi by exact Hlt.
    pose proof (proj1 (List.Forall_forall _ _) Hall f (nth_error_In _ _ Hi))
      as (H1 & H2 & H3 & H4).
    assert (Hopi : nth_error (opCodes frames) i = Some (Header.opCode (header f))).
    { exact (map_nth_error (fun f => Header.opCode (header f)) i frames Hi). }
    cbn in H3, H4.
    rewrite Hops in Hopi. apply nth_error_loopOpCodes in Hopi.
    assert (Hchunk : maxFrameSize - h < string_size p).
    { apply Hlong. intros ->. cbn in Hlt. lia. }
    split; [congruence|]. split; [congruence|].
    split.
    { unfold frameSize, Header.encodedSize. rewrite H1, H2, H4.
      pose proof (encodedSizeInBytes_mono (maxFrameSize - h) (string_size p) false
                    ltac:(lia)).
      fold h in H. lia. }
    split.
    { rewrite H3. symmetry. apply Nat.eqb_neq. lia. }
    split; [apply Hopi|].
    intros Hpos _. now apply Hopi.
  - (* the final frame *)
    rewrite nth_error_app2 in Hi by exact Hge.
    destruct (i - length frames)%nat as [|d] eqn:Hd;
      [|cbn in Hi; destruct d; discriminate].
    assert (i = length frames) as -> by lia.
    injection Hi as <-.
    subst final. cbn [header payload Header.set_payloadSize Header.set_fin
                      Header.isMasked Header.payloadSize Header.fin Header.opCode].
    split; [exact Hmask|]. split; [reflexivity|].
    split.
    { unfold frameSize, Header.encodedSize.
      cbn [header payload Header.set_payloadSize Header.set_fin Header.isMasked
           Header.payloadSize].
      rewrite Hmask.
      pose proof (encodedSizeInBytes_mono (string_size p') (string_size p) false
                    ltac:(nia)).
      fold h in H. lia. }
    split.
    { symmetry. apply Nat.eqb_eq. lia. }
    split.
    { intros Hz. rewrite Hop.
      destruct frames; [reflexivity | discriminate]. }
    intros Hpos [Hlt|H3]; [lia|].
    rewrite Hop, Hops.
    destruct (length frames) as [|[|k]] eqn:Hk; [lia | lia |].
    cbn [loopOpCodes]. apply last_repeat.
Qed.

Lemma sendMessage_fragments_witness :
  (closeHandshake (newWebSocket 1 true) = eNone
   /\ socketOk (newWebSocket 1 true) = true
   /\ string_size (b "abcdefghij") <= max_size
   /\ Header.encodedSizeInBytes (string_size (b "abcdefghij")) false < 5 < size_t_modulus)
  /\ exists (s' : WebSocket) (frames : list Frame),
       sendMessage (newWebSocket 1 true) (b "abcdefghij") 5 = Some (s', eSuccess)
       /\ wire s' = wire (newWebSocket 1 true) ++ frames
       /\ Z.of_nat (length frames) = 4
       /\ concat (map payload frames) = b "abcdefghij".
Proof.
  assert (Hmax : string_size (b "abcdefghij") <= max_size)
    by (vm_compute; discriminate).
  assert (Hroom : Header.encodedSizeInBytes (string_size (b "abcdefghij")) false < 5
                  < size_t_modulus)
    by (split; vm_compute; reflexivity).
  split; [split; [reflexivity | split; [reflexivity | split; [exact Hmax | exact Hroom]]]|].
  destruct (sendMessage_fragments (newWebSocket 1 true) (b "abcdefghij") 5
              eq_refl eq_refl Hmax Hroom)
    as (s' & frames & H1 & H2 & H3 & H4 & _).
  exists s', frames. repeat split; assumption.
Defined.

(** * Further properties of the session *)

(** X1.  Frames handled in one call of [parseFrame] are handled as in two
    calls, one after the other, as long as the first does not ask for the
    socket to be dropped; once it does, the frames behind are ignored. *)
Theorem parseFrame_app (l1 : list Frame) :
  forall (s : WebSocket) (l2 : list Frame),
    parseFrame s (l1 ++ l2)
    = (if snd (parseFrame s l1) then parseFrame (fst (parseFrame s l1)) l2
       else parseFrame s l1).
Proof.
  induction l1 as [|frame l1 IH]; intros s l2; [reflexivity|].
  cbn [app parseFrame].
  destruct (negb (Header.isMasked (header frame))); [reflexivity|].
  destruct (Header.opCode (header frame)); try apply IH; try reflexivity;
    destruct (fragmented s); try reflexivity;
    destruct (Header.fin (header frame)); apply IH.
Qed.

Lemma closeConnection_open (s : WebSocket) (c : closestatus.ProtocolCode) (why : bytes) :
  closeHandshake s = eNone -> socketOk s = true ->
  closeConnection s c why
  = closeCallback (put_wire (set_closeHandshake s eServerInitiated)
                            (closeFrame (closestatus.toPayload c) why)).
Proof.
  intros Hopen Hok. unfold closeConnection. rewrite Hopen.
  rewrite sendFrame_ok by exact Hok. cbn [fst Header.set_payloadSize Header.payloadSize].
  rewrite firstn_string_size. reflexivity.
Qed.

(** X2.  [closeConnection] sends at most one Close frame in the life of a
    session: a second call, with whatever code and reason, changes
    nothing. *)
Theorem closeConnection_once (s : WebSocket) (c c' : closestatus.ProtocolCode)
    (why why' : bytes) :
  closeConnection (closeConnection s c why) c' why' = closeConnection s c why.
Proof.
  destruct (closeHandshake s) eqn:Hs.
  - apply closeConnection_closed. unfold closeConnection. rewrite Hs.
    unfold sendFrame. destruct (socketOk _); discriminate.
  - rewrite (closeConnection_closed s c why) by congruence.
    apply closeConnection_closed. congruence.
  - rewrite (closeConnection_closed s c why) by congruence.
    apply closeConnection_closed. congruence.
  - rewrite (closeConnection_closed s c why) by congruence.
    apply closeConnection_closed. congruence.
Qed.

(** X3.  A masked Ping frame is answered, in every state of the close
    handshake, by one unmasked Pong frame with the same payload, after the
    payload has been handed to [receiveControl] as a Ping; the frames
    behind it are then handled. *)
Theorem ping_answered_by_pong (s : WebSocket) (fin : bool) (n : Z) (p : bytes)
    (rest : list Frame) :
  socketOk s = true ->
  parseFrame s (mkFrame (Header.mk fin Header.ePing true n) p :: rest)
  = parseFrame
      (put_wire (deliver s (Receivers.receiveControl (connectionID s) Receivers.ePing p))
                (mkFrame (Header.set_payloadSize
                            (Header.set_opCode Header.default Header.ePong)
                            (string_size p)) p))
      rest.
Proof.
  intros Hok.
  cbn [parseFrame header payload Header.isMasked Header.opCode negb].
  rewrite sendFrame_ok by exact Hok.
  cbn [fst Header.set_payloadSize Header.payloadSize].
  now rewrite firstn_string_size.
Qed.

Lemma ping_answered_by_pong_witness :
  socketOk (newWebSocket 1 true) = true
  /\ wire (fst (parseFrame (newWebSocket 1 true)
                           [mkFrame (Header.mk true Header.ePing true 3) (b "xyz")]))
     = [mkFrame (Header.mk false Header.ePong false 3) (b "xyz")].
Proof.
  split; [reflexivity|].
  rewrite (ping_answered_by_pong (newWebSocket 1 true) true 3 (b "xyz") [] eq_refl).
  reflexivity.
Defined.



(** X5.  A masked Close frame on a session whose close handshake has
    already begun is not echoed: nothing goes on the wire and the sender
    handle is left alone; a server-initiated handshake becomes complete,
    the other states stay; the close callback is called and [parseFrame]
    returns [false]. *)
Theorem peer_close_not_echoed_twice (s : WebSocket) (fin : bool) (n : Z) (p : bytes)
    (rest : list Frame) :
  closeHandshake s <> eNone ->
  let r := parseFrame s (mkFrame (Header.mk fin Header.eConnectionClose true n) p :: rest) in
  snd r = false
  /\ wire (fst r) = wire s
  /\ senders (fst r) = senders s
  /\ closeHandshake (fst r)
     = match closeHandshake s with
       | eServerInitiated => eComplete
       | other => other
       end
  /\ closeCallbackCalls (fst r) = closeCallbackCalls s ++ [connectionID s].
Proof.
  intros Hs r. subst r.
  cbn [parseFrame header payload Header.isMasked Header.opCode negb deliver closeHandshake].
  destruct (closeHandshake s) eqn:E; [congruence | ..]; cbn; rewrite ?E; repeat split.
Qed.

Lemma peer_close_not_echoed_twice_witness :
  let s := fst (sendClose (newWebSocket 1 true) 1000 [] 0) in
  let r := parseFrame s [mkFrame (Header.mk true Header.eConnectionClose true 2)
                                 [x03; xe8]] in
  closeHandshake s <> eNone
  /\ snd r = false
  /\ wire (fst r) = wire s
  /\ closeHandshake (fst r) = eComplete
  /\ closeCallbackCalls (fst r) = [1; 1].
Proof.
  cbv zeta.
  assert (Hs : closeHandshake (fst (sendClose (newWebSocket 1 true) 1000 [] 0)) <> eNone)
    by discriminate.
  split; [exact Hs|].
  destruct (peer_close_not_echoed_twice _ true 2 [x03; xe8] [] Hs)
    as (H1 & H2 & _ & H4 & H5).
  split; [exact H1|]. split; [exact H2|]. split; [exact H4 | exact H5].
Defined.

(** X6.  Fragmentation misuse on an open session whose socket accepts the
    write.  A masked Text or Binary frame that arrives while a fragmented
    message is under way, and a masked Continuation frame that arrives
    while none is, each make the session send one Close frame with code
    1002 and the reason text, call the close callback and return [false];
    nothing is handed to the receiver and the buffer is left as it was. *)
Theorem fragmentation_misuse_closes (s : WebSocket) (fin : bool) (n : Z) (p : bytes)
    (rest : list Frame) :
  closeHandshake s = eNone -> socketOk s = true ->
  (forall fr, fragmented s = Some fr ->
     parseFrame s (mkFrame (Header.mk fin Header.eText true n) p :: rest)
     = (closeCallback
          (put_wire (set_closeHandshake s eServerInitiated)
             (closeFrame 1002
                (reason "Unexpected text frame received, expected continuation."))),
        false)
     /\ parseFrame s (mkFrame (Header.mk fin Header.eBinary true n) p :: rest)
        = (closeCallback
             (put_wire (set_closeHandshake s eServerInitiated)
                (closeFrame 1002
                   (reason "Unexpected binary frame received, expected continuation."))),
           false))
  /\ (fragmented s = None ->
      parseFrame s (mkFrame (Header.mk fin Header.eContinuation true n) p :: rest)
      = (closeCallback
           (put_wire (set_closeHandshake s eServerInitiated)
              (closeFrame 1002 (reason "Unexpected continuation frame received."))),
         false)).
Proof.
  intros Hopen Hok. split.
  - intros fr Hfr.
    cbn [parseFrame header payload Header.isMasked Header.opCode negb].
    rewrite Hfr, !closeConnection_open by assumption. split; reflexivity.
  - intros Hfr.
    cbn [parseFrame header payload Header.isMasked Header.opCode negb].
    rewrite Hfr, closeConnection_open by assumption. reflexivity.
Qed.

Lemma fragmentation_misuse_closes_witness :
  let s := newWebSocket 1 true in
  (closeHandshake s = eNone /\ socketOk s = true /\ fragmented s = None)
  /\ parseFrame s [mkFrame (Header.mk true Header.eContinuation true 1) (b "x")]
     = (closeCallback
          (put_wire (set_closeHandshake s eServerInitiated)
             (closeFrame 1002 (reason "Unexpected continuation frame received."))),
        false).
Proof.
  cbv zeta. split; [repeat split|].
  exact (proj2 (fragmentation_misuse_closes (newWebSocket 1 true) true 1 (b "x") []
                  eq_refl eq_refl) eq_refl).
Defined.

Lemma parseFrame_dataFrames (msgs : list (bool * bytes)) :
  forall s : WebSocket,
    fragmented s = None ->
    parseFrame s (map dataFrame msgs)
    = (fold_left deliver (map (dataCall (connectionID s)) msgs) s, true).
Proof.
  induction msgs as [|[binary p] msgs IH]; intros s Hfr; [reflexivity|].
  cbn [map fold_left]. unfold dataFrame at 1. cbn [fst snd].
  destruct binary;
    cbn [parseFrame header payload Header.isMasked Header.opCode Header.fin negb opCode_of];
    rewrite Hfr; rewrite IH by exact Hfr; reflexivity.
Qed.

Lemma fold_left_deliver (calls : list Receivers.Call) :
  forall s : WebSocket,
    received (fold_left deliver calls s) = received s ++ calls
    /\ wire (fold_left deliver calls s) = wire s
    /\ fragmented (fold_left deliver calls s) = fragmented s
    /\ same_session s (fold_left deliver calls s).
Proof.
  induction calls as [|c calls IH]; intros s; cbn [fold_left].
  - rewrite app_nil_r. repeat split.
  - destruct (IH (deliver s c)) as (H1 & H2 & H3 & H4 & H5 & H6 & H7 & H8).
    rewrite H1, H2, H3. cbn [deliver received wire fragmented].
    rewrite <- app_assoc. repeat split; assumption.
Qed.

(** X7.  Unfragmented messages are delivered one call per message, in the
    order of arrival, with the op code and the payload of their frame: a
    chunk of masked Text and Binary frames with FIN set, met with no
    fragmented message under way, adds exactly these [receiveData] calls,
    sends nothing and leaves the rest of the session as it was. *)
Theorem unfragmented_delivered_in_order (s : WebSocket) (msgs : list (bool * bytes)) :
  fragmented s = None ->
  let r := parseFrame s (map dataFrame msgs) in
  snd r = true
  /\ received (fst r) = received s ++ map (dataCall (connectionID s)) msgs
  /\ wire (fst r) = wire s
  /\ fragmented (fst r) = None
  /\ same_session s (fst r).
Proof.
  intros Hfr r. subst r. rewrite parseFrame_dataFrames by exact Hfr. cbn [fst snd].
  destruct (fold_left_deliver (map (dataCall (connectionID s)) msgs) s)
    as (H1 & H2 & H3 & H4).
  split; [reflexivity|]. split; [exact H1|]. split; [exact H2|].
  split; [now rewrite H3 | exact H4].
Qed.

Lemma unfragmented_delivered_in_order_witness :
  let s := newWebSocket 1 true in
  fragmented s = None
  /\ received (fst (parseFrame s (map dataFrame [(false, b "hello"); (true, b "world")])))
     = [Receivers.receiveData 1 Receivers.eText (b "hello");
        Receivers.receiveData 1 Receivers.eBinary (b "world")].
Proof.
  cbv zeta. split; [reflexivity|].
  exact (proj1 (proj2 (unfragmented_delivered_in_order (newWebSocket 1 true)
                         [(false, b "hello"); (true, b "world")] eq_refl))).
Defined.






(** X9.  With [maxFrameSize] zero, [sendMessage] on an open session whose
    socket accepts the write sends the whole payload, whatever its length,
    in one unmasked Text frame with FIN set, and answers [eSuccess]. *)
Theorem sendMessage_unlimited (s : WebSocket) (p : bytes) :
  closeHandshake s = eNone -> socketOk s = true ->
  sendMessage s p 0
  = Some (put_wire s (mkFrame (Header.mk true Header.eText false (string_size p)) p),
          eSuccess).
Proof.
  intros Hopen Hok. unfold sendMessage. rewrite Hopen.
  cbn [Z.eqb negb andb Z.gtb Z.compare].
  rewrite sendFrame_ok by exact Hok.
  cbn [fst Header.set_payloadSize Header.set_fin Header.set_opCode Header.default
       Header.payloadSize Header.fin Header.opCode Header.isMasked].
  now rewrite firstn_string_size.
Qed.

Lemma sendMessage_unlimited_witness :
  (closeHandshake (newWebSocket 1 true) = eNone /\ socketOk (newWebSocket 1 true) = true)
  /\ sendMessage (newWebSocket 1 true) (b "hello") 0
     = Some (put_wire (newWebSocket 1 true)
                      (mkFrame (Header.mk true Header.eText false 5) (b "hello")),
             eSuccess).
Proof.
  split; [split; reflexivity|].
  exact (sendMessage_unlimited (newWebSocket 1 true) (b "hello") eq_refl eq_refl).
Defined.

Lemma sendFrame_failed (s : WebSocket) (hd : Header.t) (p : bytes) :
  socketOk s = false -> sendFrame s hd p = (s, eFailure).
Proof. intros H. unfold sendFrame. now rewrite H. Qed.

Lemma sendMessage_loop_failed (maxFrameSize encodedHeaderSize : Z) (fuel : nat) :
  0 <= encodedHeaderSize ->
  encodedHeaderSize < maxFrameSize ->
  maxFrameSize < size_t_modulus ->
  forall (s : WebSocket) (hd : Header.t) (sentFirstFrame : bool) (p : bytes),
    socketOk s = false ->
    string_size p + encodedHeaderSize < size_t_modulus ->
    (length p <= fuel)%nat ->
    exists (hd' : Header.t) (p' : bytes),
      sendMessage_loop fuel s maxFrameSize encodedHeaderSize hd sentFirstFrame
                       (string_size p) p
      = Some (s, hd', string_size p', p').
Proof.
  intros Hh Hroom Hsz.
  induction fuel as [|fuel IH]; intros s hd sent p Hbad Hfit Hfuel;
    pose proof (string_size_nonneg p) as Hp0;
    cbn [sendMessage_loop];
    rewrite (wrap_small (string_size p + encodedHeaderSize)) by lia;
    destruct (Z.gtb_spec (string_size p + encodedHeaderSize) maxFrameSize) as [Hgt|Hle];
    try (exists hd, p; reflexivity).
  - unfold string_size in Hgt. destruct p; cbn in Hfuel, Hgt; lia.
  - rewrite (wrap_small (maxFrameSize - encodedHeaderSize)) by lia.
    rewrite sendFrame_failed by exact Hbad.
    cbn [fst Header.set_payloadSize Header.payloadSize].
    rewrite (wrap_small (string_size p - (maxFrameSize - encodedHeaderSize))) by lia.
    rewrite <- (string_size_skipn (maxFrameSize - encodedHeaderSize) p) by lia.
    apply IH; [exact Hbad | rewrite string_size_skipn by lia; lia |].
    rewrite length_skipn. unfold string_size in *. lia.
Qed.

(** X10.  The send operations do not report a failed socket write: on an
    open session whose socket refuses every write, [sendMessage] (with no
    frame limit, or with a limit above the header size) and [sendClose]
    answer [eSuccess] although nothing has gone on the wire; [sendMessage]
    leaves the session as it was, and [sendClose] still moves the close
    handshake to server-initiated and calls the close callback. *)
Theorem socket_failure_not_reported (s : WebSocket) (p why : bytes)
    (maxFrameSize code now : Z) :
  closeHandshake s = eNone -> socketOk s = false ->
  string_size p <= max_size ->
  maxFrameSize = 0
  \/ Header.encodedSizeInBytes (string_size p) false < maxFrameSize < size_t_modulus ->
  sendMessage s p maxFrameSize = Some (s, eSuccess)
  /\ sendClose s code why now
     = (closeCallback (set_closeSentTimePoint (set_closeHandshake s eServerInitiated) now),
        eSuccess).
Proof.
  intros Hopen Hbad Hmax HF. split.
  - unfold sendMessage. rewrite Hopen.
    pose proof (encodedSizeInBytes_bounds (string_size p)) as Hh.
    pose proof (string_size_nonneg p) as Hp0.
    assert (Hmod : size_t_modulus = 2 ^ 64) by reflexivity.
    assert (Hms : max_size = 2 ^ 63 - 1) by reflexivity.
    destruct HF as [->|[Hroom Hsz]].
    + cbn [Z.eqb negb andb Z.gtb Z.compare].
      now rewrite sendFrame_failed by exact Hbad.
    + replace (negb (maxFrameSize =? 0) && (maxFrameSize <=? _))%bool with false
        by (symmetry; apply andb_false_iff; right; apply Z.leb_gt; lia).
      replace (maxFrameSize >? 0) with true by (symmetry; apply Z.gtb_lt; lia).
      destruct (sendMessage_loop_failed maxFrameSize
                  (Header.encodedSizeInBytes (string_size p) false) (length p)
                  ltac:(lia) Hroom Hsz s
                  (Header.set_opCode Header.default Header.eText) false p Hbad
                  ltac:(lia) ltac:(lia)) as (hd' & p' & Hrun).
      rewrite Hrun. now rewrite sendFrame_failed by exact Hbad.
  - unfold sendClose. rewrite Hopen.
    now rewrite sendFrame_failed by exact Hbad.
Qed.

Lemma socket_failure_not_reported_witness :
  let s := newWebSocket 1 false in
  (closeHandshake s = eNone /\ socketOk s = false
   /\ string_size (b "abcdefghij") <= max_size
   /\ Header.encodedSizeInBytes (string_size (b "abcdefghij")) false < 5 < size_t_modulus)
  /\ sendMessage s (b "abcdefghij") 5 = Some (s, eSuccess)
  /\ wire (fst (sendClose s 1000 [] 7)) = [].
Proof.
  cbv zeta.
  assert (Hmax : string_size (b "abcdefghij") <= max_size) by (vm_compute; discriminate).
  assert (Hroom : Header.encodedSizeInBytes (string_size (b "abcdefghij")) false < 5
                  < size_t_modulus) by (split; vm_compute; reflexivity).
  split; [split; [reflexivity | split; [reflexivity | split; [exact Hmax | exact Hroom]]]|].
  destruct (socket_failure_not_reported (newWebSocket 1 false) (b "abcdefghij") [] 5 1000 7
              eq_refl eq_refl Hmax (or_intror Hroom)) as [H1 H2].
  split; [exact H1|]. rewrite H2. reflexivity.
Defined.



(** * Properties of the poll set *)

Lemma advance_le (slots : list Poller.pollfd) :
  (Poller.advance slots <= length slots)%nat.
Proof.
  induction slots as [|q rest IH]; cbn [Poller.advance length]; [lia|].
  destruct (Poller.fd q <? 0); lia.
Qed.

Lemma removeOne_wf {W : Type} (p : Poller.t W) (x : Z) : Poller.wf p -> Poller.wf (Poller.removeOne p x).
Proof.
  intros [Hlen Hnext]. unfold Poller.removeOne.
  destruct (list_find _ _) as [[i q]|] eqn:Hfind; [|split; assumption].
  apply list_find_Some in Hfind as (Hi & _ & _).
  apply lookup_lt_Some in Hi.
  split; cbn [Poller.pollCallbacks Poller.pollFDs Poller.nextAvailable];
    rewrite !length_insert; [exact Hlen|].
  destruct (Nat.ltb_spec i (Poller.nextAvailable p)); lia.
Qed.

Lemma addOne_wf {W : Type} (p : Poller.t W) (kv : Z * Poller.Callback W) :
  Poller.wf p -> Poller.wf (Poller.addOne p kv).
Proof.
  intros [Hlen Hnext]. unfold Poller.addOne.
  set (fds0 := if (Poller.nextAvailable p =? length (Poller.pollFDs p))%nat
               then Poller.pollFDs p ++ [Poller.mkPollfd 0 0 0] else Poller.pollFDs p).
  set (cbs0 := if (Poller.nextAvailable p =? length (Poller.pollFDs p))%nat
               then Poller.pollCallbacks p ++ [None] else Poller.pollCallbacks p).
  assert (Hlen0 : length cbs0 = length fds0).
  { subst fds0 cbs0. destruct (_ =? _)%nat; rewrite ?length_app; cbn; lia. }
  assert (Hn : (Poller.nextAvailable p < length fds0)%nat).
  { subst fds0. destruct (Nat.eqb_spec (Poller.nextAvailable p) (length (Poller.pollFDs p)));
      rewrite ?length_app; cbn; lia. }
  set (fds1 := match fds0 !! Poller.nextAvailable p with
               | Some q => <[Poller.nextAvailable p :=
                              Poller.mkPollfd (fst kv) Poller.POLLIN (Poller.revents q)]> fds0
               | None => fds0
               end).
  assert (Hlen1 : length fds1 = length fds0).
  { subst fds1. destruct (fds0 !! _); rewrite ?length_insert; reflexivity. }
  split; cbn [Poller.pollCallbacks Poller.pollFDs Poller.nextAvailable];
    fold fds0 cbs0 fds1; rewrite ?length_insert; [congruence|].
  pose proof (advance_le (drop (S (Poller.nextAvailable p)) fds1)) as Ha.
  rewrite length_drop in Ha. lia.
Qed.

Lemma fold_left_wf {W A : Type} (f : Poller.t W -> A -> Poller.t W) (l : list A) :
  (forall p a, Poller.wf p -> Poller.wf (f p a)) ->
  forall p, Poller.wf p -> Poller.wf (fold_left f l p).
Proof.
  intros Hf. induction l as [|a l IH]; intros p Hp; [exact Hp|].
  cbn [fold_left]. apply IH, Hf, Hp.
Qed.

Lemma processPendingRemovalsNoLock_wf {W : Type} (p : Poller.t W) :
  Poller.wf p -> Poller.wf (Poller.processPendingRemovalsNoLock p).
Proof.
  intros Hp. unfold Poller.processPendingRemovalsNoLock.
  exact (fold_left_wf Poller.removeOne (Poller.pendingRemovals p) removeOne_wf p Hp).
Qed.

Lemma processPendingAdds_wf {W : Type} (p : Poller.t W) :
  Poller.wf p -> Poller.wf (Poller.processPendingAdds p).
Proof.
  intros Hp. unfold Poller.processPendingAdds.
  exact (fold_left_wf Poller.addOne (Poller.pendingAdds p) addOne_wf p Hp).
Qed.

Lemma fold_left_addOne_pendingRemovals {W : Type} (adds : list (Z * Poller.Callback W)) :
  forall p : Poller.t W,
    Poller.pendingRemovals (fold_left Poller.addOne adds p) = Poller.pendingRemovals p.
Proof.
  induction adds as [|kv adds IH]; intros p; [reflexivity|].
  cbn [fold_left]. now rewrite IH.
Qed.

Lemma processed_queues_empty {W : Type} (p : Poller.t W) :
  Poller.pendingRemovals (Poller.processPendingAdds (Poller.processPendingRemovals p)) = []
  /\ Poller.pendingAdds (Poller.processPendingAdds (Poller.processPendingRemovals p)) = [].
Proof.
  split; [|reflexivity].
  unfold Poller.processPendingAdds. cbn [Poller.pendingRemovals].
  now rewrite fold_left_addOne_pendingRemovals.
Qed.

(** X12.  The poll set keeps its two vectors at one length and
    [nextAvailable] within them (so that no vector is indexed out of
    range): the empty poller has this shape, and registering, removing,
    working through the pending queues and one whole call of [operator()]
    preserve it; after such a call both pending queues are empty. *)
Theorem poller_shape_kept {W : Type} (p : Poller.t W) :
  Poller.wf (@Poller.empty W)
  /\ (Poller.wf p ->
      (forall x cb, Poller.wf (Poller.add x cb p))
      /\ (forall x, Poller.wf (Poller.remove x p))
      /\ Poller.wf (Poller.processPendingRemovals p)
      /\ Poller.wf (Poller.processPendingAdds p)
      /\ (forall o w p' w' r,
            Poller.poll o p w = Some (p', w', r) ->
            Poller.wf p' /\ Poller.pendingAdds p' = [] /\ Poller.pendingRemovals p' = [])).
Proof.
  split; [split; cbn; lia|].
  intros Hp.
  split.
  { intros x cb. unfold Poller.add. destruct (existsb _ _); exact Hp. }
  split; [intros x; exact Hp|].
  split; [now apply processPendingRemovalsNoLock_wf|].
  split; [now apply processPendingAdds_wf|].
  intros o w p' w' r Hpoll. unfold Poller.poll in Hpoll.
  set (pm := Poller.processPendingAdds (Poller.processPendingRemovals p)) in *.
  assert (Hpm : Poller.wf pm)
    by (apply processPendingAdds_wf, processPendingRemovalsNoLock_wf, Hp).
  assert (Hpm' : Poller.wf
                   (Poller.mk (Poller.pendingAdds pm) (Poller.pendingRemovals pm)
                      (Poller.writeRevents o (Poller.pollFDs pm))
                      (Poller.nextAvailable pm) (Poller.pollCallbacks pm))).
  { destruct Hpm as [H1 H2]. unfold Poller.writeRevents.
    split; cbn; rewrite length_imap; assumption. }
  destruct (processed_queues_empty p) as [Hr Ha]. fold pm in Hr, Ha.
  destruct (Poller.pollResult o <? 0).
  { injection Hpoll as <- _ _. split; [exact Hpm|]. split; assumption. }
  destruct (Poller.pollResult o >? 0).
  - destruct (Poller.runCallbacks _ _ _ _ _) as [[w1 toRemove]|]; [|discriminate].
    injection Hpoll as <- _ _.
    split; [|split; [|reflexivity]].
    + apply processPendingRemovalsNoLock_wf. exact Hpm'.
    + unfold Poller.bulkRemoval, Poller.processPendingRemovalsNoLock.
      cbn [Poller.pendingAdds Poller.pendingRemovals].
      generalize (Poller.pendingRemovals pm ++ toRemove).
      intros l.
      assert (Hfold : forall (l : list Z) (q : Poller.t W),
                 Poller.pendingAdds (fold_left Poller.removeOne l q) = Poller.pendingAdds q).
      { clear. induction l as [|x l IH]; intros q; [reflexivity|].
        cbn [fold_left]. rewrite IH. unfold Poller.removeOne.
        destruct (list_find _ _) as [[i q']|]; reflexivity. }
      rewrite Hfold. exact Ha.
  - injection Hpoll as <- _ _. split; [exact Hpm'|]. split; assumption.
Qed.

Lemma filter_ne_absent (x : Z) (l : list Z) :
  x ∉ l -> filter (fun y => y <> x) l = l.
Proof.
  induction l as [|y l IH]; intros Hx; [reflexivity|].
  apply not_elem_of_cons in Hx as [Hne Hx].
  rewrite filter_cons_True; [|congruence]. now rewrite IH.
Qed.

Lemma filter_ne_middle (x : Z) (l1 l2 : list Z) :
  x ∉ l1 -> x ∉ l2 -> filter (fun y => y <> x) (l1 ++ x :: l2) = l1 ++ l2.
Proof.
  intros H1 H2. rewrite filter_app, filter_cons.
  destruct (decide (x <> x)) as [Hxx|_]; [now contradict Hxx|].
  now rewrite !filter_ne_absent.
Qed.

Lemma liveFds_app (l1 l2 : list Poller.pollfd) :
  liveFds (l1 ++ l2) = liveFds l1 ++ liveFds l2.
Proof. unfold liveFds. now rewrite map_app, filter_app. Qed.

Lemma liveFds_nonneg (slots : list Poller.pollfd) (x : Z) : x ∈ liveFds slots -> 0 <= x.
Proof. unfold liveFds. intros H. now apply list_elem_of_filter in H as [H _]. Qed.

Lemma liveFds_elem_of (slots : list Poller.pollfd) (x : Z) :
  x ∈ liveFds slots <-> 0 <= x /\ exists q, q ∈ slots /\ Poller.fd q = x.
Proof.
  unfold liveFds. rewrite list_elem_of_filter.
  split; intros [H0 H]; (split; [exact H0|]).
  - apply list_elem_of_In, in_map_iff in H as (q & Hq & Hin).
    exists q. split; [now apply list_elem_of_In | exact Hq].
  - destruct H as (q & Hin & Hq). apply list_elem_of_In, in_map_iff.
    exists q. split; [exact Hq | now apply list_elem_of_In].
Qed.

Lemma liveFds_cons (q : Poller.pollfd) (l : list Poller.pollfd) :
  liveFds (q :: l)
  = if decide (0 <= Poller.fd q) then Poller.fd q :: liveFds l else liveFds l.
Proof. unfold liveFds. cbn [map]. apply filter_cons. Qed.

Lemma liveFds_free_middle (l1 l2 : list Poller.pollfd) (q : Poller.pollfd) :
  Poller.fd q ∉ liveFds l1 ->
  NoDup (liveFds (l1 ++ q :: l2)) ->
  liveFds (l1 ++ Poller.freeSlot :: l2)
  = filter (fun y => y <> Poller.fd q) (liveFds (l1 ++ q :: l2)).
Proof.
  intros Hx1 Hnd. rewrite !liveFds_app, !liveFds_cons in *.
  cbn [Poller.freeSlot Poller.fd]. rewrite decide_False by lia.
  destruct (decide (0 <= Poller.fd q)) as [H0|H0].
  - apply NoDup_app in Hnd as (_ & _ & Hnd).
    apply NoDup_cons in Hnd as [Hx2 _].
    now rewrite filter_ne_middle.
  - rewrite <- liveFds_app. symmetry. apply filter_ne_absent.
    intros Hin. apply liveFds_nonneg in Hin. lia.
Qed.

Lemma polled_removeOne {W : Type} (p : Poller.t W) (x : Z) :
  NoDup (Poller.polled p) ->
  Poller.polled (Poller.removeOne p x) = filter (fun y => y <> x) (Poller.polled p).
Proof.
  intros Hnd. unfold Poller.removeOne.
  destruct (list_find _ _) as [[i q]|] eqn:Hfind.
  - apply list_find_Some in Hfind as (Hi & Hq & Hfirst).
    change (liveFds (<[i:=Poller.freeSlot]> (Poller.pollFDs p))
            = filter (fun y => y <> x) (liveFds (Poller.pollFDs p))).
    change (NoDup (liveFds (Poller.pollFDs p))) in Hnd.
    assert (Hx1 : Poller.fd q ∉ liveFds (take i (Poller.pollFDs p))).
    { intros Hin. apply liveFds_elem_of in Hin as (_ & q' & Hin & Hq').
      apply list_elem_of_lookup in Hin as [j Hj].
      pose proof (lookup_lt_Some _ _ _ Hj) as Hlt. rewrite length_take in Hlt.
      rewrite lookup_take_lt in Hj by lia.
      apply (Hfirst j q' Hj); [lia | congruence]. }
    rewrite insert_take_drop by (now apply lookup_lt_Some in Hi).
    pose proof (take_drop_middle _ _ _ Hi) as Hmid.
    revert Hx1 Hmid.
    generalize (take i (Poller.pollFDs p)) (drop (S i) (Poller.pollFDs p)).
    intros l1 l2 Hx1 Hmid. rewrite <- Hmid in Hnd |- *. rewrite <- Hq.
    now apply liveFds_free_middle.
  - symmetry. apply filter_ne_absent.
    apply list_find_None in Hfind.
    intros Hin. apply liveFds_elem_of in Hin as (_ & q & Hin & Hq).
    rewrite Forall_forall in Hfind. exact (Hfind q Hin Hq).
Qed.

Lemma filter_not_in_nil (l : list Z) : filter (fun y => y ∉ @nil Z) l = l.
Proof.
  induction l as [|y l IH]; [reflexivity|].
  rewrite filter_cons_True; [|apply not_elem_of_nil]. now rewrite IH.
Qed.

Lemma polled_removals {W : Type} (removals : list Z) :
  forall p : Poller.t W,
    NoDup (Poller.polled p) ->
    Poller.polled (fold_left Poller.removeOne removals p)
    = filter (fun y => y ∉ removals) (Poller.polled p).
Proof.
  induction removals as [|x removals IH]; intros p Hnd; cbn [fold_left].
  - symmetry. apply filter_not_in_nil.
  - rewrite IH by (rewrite polled_removeOne by exact Hnd; now apply NoDup_filter).
    rewrite polled_removeOne by exact Hnd.
    rewrite list_filter_filter. apply list_filter_iff.
    intros y. rewrite not_elem_of_cons. tauto.
Qed.

Lemma removeOne_other_slots {W : Type} (p : Poller.t W) (x : Z) (i : nat)
    (q : Poller.pollfd) :
  Poller.pollFDs p !! i = Some q -> Poller.fd q <> x ->
  Poller.pollFDs (Poller.removeOne p x) !! i = Some q
  /\ Poller.pollCallbacks (Poller.removeOne p x) !! i = Poller.pollCallbacks p !! i.
Proof.
  intros Hi Hne. unfold Poller.removeOne.
  destruct (list_find _ _) as [[j q']|] eqn:Hfind; [|now split].
  apply list_find_Some in Hfind as (Hj & Hq' & _).
  assert (j <> i) by (intros ->; congruence).
  cbn [Poller.pollFDs Poller.pollCallbacks].
  now rewrite !list_lookup_insert_ne.
Qed.

(** X13.  Working through the pending removals frees exactly the slots of
    the descriptors asked for.  A slot whose descriptor was not asked for
    keeps its descriptor and its callback; and when the descriptors in use
    are pairwise different, those that remain in use are the ones that were
    not asked for, in the same order.  The queue of removals is empty
    afterwards. *)
Theorem removals_free_the_slots {W : Type} (p : Poller.t W) :
  Poller.pendingRemovals (Poller.processPendingRemovals p) = []
  /\ (forall i q,
        Poller.pollFDs p !! i = Some q ->
        Poller.fd q ∉ Poller.pendingRemovals p ->
        Poller.pollFDs (Poller.processPendingRemovals p) !! i = Some q
        /\ Poller.pollCallbacks (Poller.processPendingRemovals p) !! i
           = Poller.pollCallbacks p !! i)
  /\ (NoDup (Poller.polled p) ->
      Poller.polled (Poller.processPendingRemovals p)
      = filter (fun y => y ∉ Poller.pendingRemovals p) (Poller.polled p)).
Proof.
  split; [reflexivity|]. split.
  - unfold Poller.processPendingRemovals, Poller.processPendingRemovalsNoLock.
    cbn [Poller.pollFDs Poller.pollCallbacks].
    generalize (Poller.pendingRemovals p). intros removals. revert p.
    induction removals as [|x removals IH]; intros p i q Hi Hnot; [now split|].
    cbn [fold_left]. apply not_elem_of_cons in Hnot as [Hne Hnot].
    destruct (removeOne_other_slots p x i q Hi Hne) as [H1 H2].
    destruct (IH (Poller.removeOne p x) i q H1 Hnot) as [H3 H4].
    split; [exact H3 | congruence].
  - intros Hnd.
    exact (polled_removals (Poller.pendingRemovals p) p Hnd).
Qed.

Lemma addOne_at_end {W : Type} (p : Poller.t W) (kv : Z * Poller.Callback W) :
  Poller.wf p ->
  Poller.nextAvailable p = length (Poller.pollFDs p) ->
  Poller.pollFDs (Poller.addOne p kv) = Poller.pollFDs p ++ [newSlot kv]
  /\ Poller.pollCallbacks (Poller.addOne p kv) = Poller.pollCallbacks p ++ [snd kv]
  /\ Poller.nextAvailable (Poller.addOne p kv) = S (length (Poller.pollFDs p)).
Proof.
  intros [Hlen _] Hn. unfold Poller.addOne. rewrite Hn, Nat.eqb_refl.
  cbn [Poller.pollFDs Poller.pollCallbacks Poller.nextAvailable].
  rewrite list_lookup_middle by reflexivity.
  cbn [Poller.revents].
  rewrite (insert_app_r_alt (Poller.pollFDs p)) by lia.
  rewrite Nat.sub_diag. cbn [insert list_insert].
  rewrite <- Hlen at 1.
  rewrite (insert_app_r_alt (Poller.pollCallbacks p)) by lia.
  rewrite Nat.sub_diag. cbn [insert list_insert].
  split; [reflexivity|]. split; [reflexivity|].
  rewrite drop_ge by (rewrite length_app; cbn; lia). cbn. lia.
Qed.

Lemma adds_at_end {W : Type} (adds : list (Z * Poller.Callback W)) :
  forall p : Poller.t W,
    Poller.wf p ->
    Poller.nextAvailable p = length (Poller.pollFDs p) ->
    Poller.pollFDs (fold_left Poller.addOne adds p) = Poller.pollFDs p ++ map newSlot adds
    /\ Poller.pollCallbacks (fold_left Poller.addOne adds p)
       = Poller.pollCallbacks p ++ map snd adds
    /\ Poller.nextAvailable (fold_left Poller.addOne adds p)
       = length (Poller.pollFDs (fold_left Poller.addOne adds p)).
Proof.
  induction adds as [|kv adds IH]; intros p Hwf Hn; cbn [fold_left map].
  - rewrite !app_nil_r. repeat split. exact Hn.
  - destruct (addOne_at_end p kv Hwf Hn) as (H1 & H2 & H3).
    destruct (IH (Poller.addOne p kv) (addOne_wf p kv Hwf)) as (I1 & I2 & I3).
    { rewrite H3, H1, length_app. cbn. lia. }
    rewrite I1, I2, H1, H2, <- !app_assoc. repeat split.
    rewrite I3, I1, H1, <- app_assoc. reflexivity.
Qed.

(** X14.  As long as [nextAvailable] is the length of the vector (as it is
    in a poller from which nothing has been removed), working through the
    pending adds appends them, in the order in which the map is traversed,
    each with the event [POLLIN] and its callback; the slots that were
    there are untouched, [nextAvailable] is again the length, and the
    queue of adds is empty. *)
Theorem adds_append {W : Type} (p : Poller.t W) :
  Poller.wf p ->
  Poller.nextAvailable p = length (Poller.pollFDs p) ->
  let p' := Poller.processPendingAdds p in
  Poller.pollFDs p' = Poller.pollFDs p ++ map newSlot (Poller.pendingAdds p)
  /\ Poller.pollCallbacks p' = Poller.pollCallbacks p ++ map snd (Poller.pendingAdds p)
  /\ Poller.nextAvailable p' = length (Poller.pollFDs p')
  /\ Poller.pendingAdds p' = [].
Proof.
  intros Hwf Hn p'. subst p'. unfold Poller.processPendingAdds.
  cbn [Poller.pollFDs Poller.pollCallbacks Poller.nextAvailable Poller.pendingAdds].
  destruct (adds_at_end (Poller.pendingAdds p) p Hwf Hn) as (H1 & H2 & H3).
  repeat split; assumption.
Qed.

Lemma liveFds_unique (l : list Poller.pollfd) :
  NoDup (liveFds l) ->
  forall (i j : nat) (q q' : Poller.pollfd),
    l !! i = Some q -> l !! j = Some q' ->
    Poller.fd q = Poller.fd q' -> 0 <= Poller.fd q -> i = j.
Proof.
  induction l as [|h l IH]; intros Hnd i j q q' Hi Hj Heq Hpos; [discriminate|].
  rewrite liveFds_cons in Hnd.
  assert (Hhead : forall (k : nat) (r : Poller.pollfd),
             l !! k = Some r -> Poller.fd r = Poller.fd h -> 0 <= Poller.fd h -> False).
  { intros k r Hk Hr Hh. rewrite decide_True in Hnd by exact Hh.
    apply NoDup_cons in Hnd as [Hnot _]. apply Hnot.
    apply liveFds_elem_of. split; [exact Hh|].
    exists r. split; [|exact Hr]. apply list_elem_of_lookup. now exists k. }
  assert (Hnd' : NoDup (liveFds l)).
  { destruct (decide (0 <= Poller.fd h)); [now apply NoDup_cons in Hnd|exact Hnd]. }
  destruct i as [|i], j as [|j]; cbn in Hi, Hj.
  - reflexivity.
  - injection Hi as <-. exfalso. apply (Hhead j q' Hj); [congruence | exact Hpos].
  - injection Hj as <-. exfalso. apply (Hhead i q Hi); [congruence | lia].
  - f_equal. exact (IH Hnd' i j q q' Hi Hj Heq Hpos).
Qed.

(** X15.  When [nextAvailable] is a slot before the last and the slot
    after it is in use, two pending adds go into these two slots: the
    first into the slot at [nextAvailable], the second into the slot after
    it, whose descriptor and callback are replaced.  With the descriptors
    in use pairwise different, that descriptor is then no longer polled,
    although it was never removed. *)
Theorem second_add_takes_used_slot {W : Type} (p : Poller.t W) (n : nat)
    (q0 q1 : Poller.pollfd) (kv1 kv2 : Z * Poller.Callback W) :
  Poller.wf p ->
  Poller.nextAvailable p = n ->
  Poller.pollFDs p !! n = Some q0 ->
  Poller.pollFDs p !! S n = Some q1 ->
  0 <= Poller.fd q1 ->
  Poller.pendingAdds p = [kv1; kv2] ->
  let p' := Poller.processPendingAdds p in
  Poller.pollFDs p' !! n
  = Some (Poller.mkPollfd (fst kv1) Poller.POLLIN (Poller.revents q0))
  /\ Poller.pollFDs p' !! S n
     = Some (Poller.mkPollfd (fst kv2) Poller.POLLIN (Poller.revents q1))
  /\ Poller.pollCallbacks p' !! S n = Some (snd kv2)
  /\ (NoDup (Poller.polled p) -> Poller.fd q1 <> fst kv1 -> Poller.fd q1 <> fst kv2 ->
      Poller.fd q1 ∉ Poller.polled p').
Proof.
  intros [Hlen Hnext] Hn H0 H1 Hused Hadds p'. subst p'.
  pose proof (lookup_lt_Some _ _ _ H1) as Hlt.
  unfold Poller.processPendingAdds. rewrite Hadds. cbn [fold_left].
  (* the first add *)
  assert (Hfirst : Poller.pollFDs (Poller.addOne p kv1)
                   = <[n := Poller.mkPollfd (fst kv1) Poller.POLLIN (Poller.revents q0)]>
                       (Poller.pollFDs p)
                   /\ Poller.pollCallbacks (Poller.addOne p kv1)
                      = <[n := snd kv1]> (Poller.pollCallbacks p)
                   /\ Poller.nextAvailable (Poller.addOne p kv1) = S n).
  { unfold Poller.addOne. rewrite Hn.
    replace (n =? length (Poller.pollFDs p))%nat with false
      by (symmetry; apply Nat.eqb_neq; lia).
    rewrite H0. cbn [Poller.pollFDs Poller.pollCallbacks Poller.nextAvailable].
    split; [reflexivity|]. split; [reflexivity|].
    rewrite drop_insert_lt by lia.
    rewrite (drop_S _ _ _ H1). cbn [Poller.advance].
    replace (Poller.fd q1 <? 0) with false by (symmetry; apply Z.ltb_ge; exact Hused).
    lia. }
  destruct Hfirst as (F1 & F2 & F3).
  set (p1 := Poller.addOne p kv1) in *.
  (* the second add *)
  assert (H1' : Poller.pollFDs p1 !! S n = Some q1)
    by (rewrite F1, list_lookup_insert_ne by lia; exact H1).
  assert (Hsecond : Poller.pollFDs (Poller.addOne p1 kv2)
                    = <[S n := Poller.mkPollfd (fst kv2) Poller.POLLIN (Poller.revents q1)]>
                        (Poller.pollFDs p1)
                    /\ Poller.pollCallbacks (Poller.addOne p1 kv2)
                       = <[S n := snd kv2]> (Poller.pollCallbacks p1)).
  { unfold Poller.addOne. rewrite F3.
    replace (S n =? length (Poller.pollFDs p1))%nat with false
      by (symmetry; apply Nat.eqb_neq; rewrite F1, length_insert; lia).
    rewrite H1'. cbn [Poller.pollFDs Poller.pollCallbacks]. split; reflexivity. }
  destruct Hsecond as (S1 & S2).
  cbn [Poller.pollFDs Poller.pollCallbacks].
  assert (R0 : Poller.pollFDs (Poller.addOne p1 kv2) !! n
               = Some (Poller.mkPollfd (fst kv1) Poller.POLLIN (Poller.revents q0))).
  { rewrite S1, list_lookup_insert_ne by lia. rewrite F1.
    apply list_lookup_insert_eq. lia. }
  assert (R1 : Poller.pollFDs (Poller.addOne p1 kv2) !! S n
               = Some (Poller.mkPollfd (fst kv2) Poller.POLLIN (Poller.revents q1))).
  { rewrite S1. apply list_lookup_insert_eq. rewrite F1, length_insert. lia. }
  split; [exact R0|]. split; [exact R1|].
  split.
  { rewrite S2. apply list_lookup_insert_eq. rewrite F2, length_insert. lia. }
  intros Hnd Hne1 Hne2 Hin.
  unfold Poller.polled in Hin. cbn [Poller.pollFDs] in Hin.
  apply liveFds_elem_of in Hin as (_ & q & Hq & Hfd).
  apply list_elem_of_lookup in Hq as [j Hj].
  destruct (decide (j = n)) as [->|Hjn].
  { rewrite R0 in Hj. injection Hj as <-. cbn in Hfd. congruence. }
  destruct (decide (j = S n)) as [->|HjS].
  { rewrite R1 in Hj. injection Hj as <-. cbn in Hfd. congruence. }
  rewrite S1, list_lookup_insert_ne in Hj by lia.
  rewrite F1, list_lookup_insert_ne in Hj by lia.
  apply HjS.
  exact (liveFds_unique _ Hnd j (S n) q q1 Hj H1 Hfd ltac:(lia)).
Qed.

Lemma map_fd_imap (g : nat -> Z) (l : list Poller.pollfd) :
  map Poller.fd
      (imap (fun i q => Poller.mkPollfd (Poller.fd q) (Poller.events q) (g i)) l)
  = map Poller.fd l.
Proof.
  revert g. induction l as [|q l IH]; intros g; [reflexivity|].
  cbn [imap map Poller.fd]. f_equal. exact (IH (g ∘ S)).
Qed.

Lemma liveFds_writeRevents (o : Poller.PollOutcome) (l : list Poller.pollfd) :
  liveFds (Poller.writeRevents o l) = liveFds l.
Proof. unfold liveFds, Poller.writeRevents. now rewrite map_fd_imap. Qed.

Lemma runCallbacks_toRemove {W : Type} (slots : list (Poller.pollfd * Poller.Callback W)) :
  forall (pollResult n : Z) (w w' : W) (acc out : list Z),
    Poller.runCallbacks slots pollResult n w acc = Some (w', out) ->
    exists extra,
      out = acc ++ extra
      /\ forall x, x ∈ extra ->
           exists q cb, (q, cb) ∈ slots /\ Poller.fd q = x /\ 0 <= x
                        /\ Z.land (Poller.revents q) Poller.POLLIN <> 0.
Proof.
  induction slots as [|[q cb] slots IH]; intros r n w w' acc out Hrun;
    cbn [Poller.runCallbacks] in Hrun.
  - injection Hrun as _ <-. exists []. rewrite app_nil_r. split; [reflexivity|].
    intros x Hx. now apply elem_of_nil in Hx.
  - destruct ((Poller.fd q >? -1) && negb (Z.land (Poller.revents q) Poller.POLLIN =? 0))
      eqn:Hready.
    + apply andb_true_iff in Hready as [Hfd Hin].
      apply Z.gtb_lt in Hfd. apply negb_true_iff, Z.eqb_neq in Hin.
      destruct cb as [f|]; [|discriminate].
      destruct (f w) as [w1 keep].
      assert (Hhere : forall x, x ∈ (if keep then [] else [Poller.fd q]) ->
                 exists q0 cb0, (q0, cb0) ∈ (q, Some f) :: slots /\ Poller.fd q0 = x
                                /\ 0 <= x /\ Z.land (Poller.revents q0) Poller.POLLIN <> 0).
      { intros x Hx. destruct keep; [now apply elem_of_nil in Hx|].
        apply list_elem_of_singleton in Hx as ->.
        exists q, (Some f). split; [apply list_elem_of_here|].
        split; [reflexivity|]. split; [lia | exact Hin]. }
      destruct (n + 1 =? r).
      * injection Hrun as _ <-.
        exists (if keep then [] else [Poller.fd q]).
        split; [destruct keep; [now rewrite app_nil_r | reflexivity] | exact Hhere].
      * apply IH in Hrun as (extra & -> & Hextra).
        exists ((if keep then [] else [Poller.fd q]) ++ extra).
        split; [destruct keep; [reflexivity | now rewrite <- app_assoc]|].
        intros x Hx. apply elem_of_app in Hx as [Hx|Hx]; [now apply Hhere|].
        destruct (Hextra x Hx) as (q0 & cb0 & Hmem & Hrest).
        exists q0, cb0. split; [now apply list_elem_of_further | exact Hrest].
    + apply IH in Hrun as (extra & -> & Hextra).
      exists extra. split; [reflexivity|].
      intros x Hx. destruct (Hextra x Hx) as (q0 & cb0 & Hmem & Hrest).
      exists q0, cb0. split; [now apply list_elem_of_further | exact Hrest].
Qed.

(** X16.  One call of [operator()] that returns.  It returns the result of
    [poll].  With a result that is not positive no callback runs: the
    world and the descriptors polled are those left by the pending
    queues.  With a positive result, the descriptors collected by the loop
    over the ready slots (those whose callback returned [false]) are all
    descriptors that were polled and reported readable, and, the
    descriptors in use being pairwise different, they are exactly the ones
    no longer polled afterwards. *)
Theorem poll_drops_refused {W : Type} (o : Poller.PollOutcome) (p p' : Poller.t W)
    (w w' : W) (r : Z) :
  Poller.poll o p w = Some (p', w', r) ->
  let pm := Poller.processPendingAdds (Poller.processPendingRemovals p) in
  NoDup (Poller.polled pm) ->
  r = Poller.pollResult o
  /\ (Poller.pollResult o <= 0 -> w' = w /\ Poller.polled p' = Poller.polled pm)
  /\ (0 < Poller.pollResult o ->
      exists toRemove,
        Poller.runCallbacks
          (zip (Poller.writeRevents o (Poller.pollFDs pm)) (Poller.pollCallbacks pm))
          (Poller.pollResult o) 0 w [] = Some (w', toRemove)
        /\ (forall x, x ∈ toRemove ->
              x ∈ Poller.polled pm
              /\ exists i q, Poller.pollFDs pm !! i = Some q /\ Poller.fd q = x
                             /\ Z.land (Poller.reported o i) Poller.POLLIN <> 0)
        /\ Poller.polled p' = filter (fun y => y ∉ toRemove) (Poller.polled pm)).
Proof.
  intros Hpoll pm Hnd. unfold Poller.poll in Hpoll. fold pm in Hpoll.
  destruct (processed_queues_empty p) as [Hrem _]. fold pm in Hrem.
  clearbody pm.
  destruct (Z.ltb_spec (Poller.pollResult o) 0) as [Hneg|Hnn].
  { injection Hpoll as <- <- <-. split; [reflexivity|].
    split; [intros _; now split | lia]. }
  cbn [Poller.pollFDs Poller.pollCallbacks] in Hpoll.
  destruct (Z.gtb_spec (Poller.pollResult o) 0) as [Hpos|Hzero].
  - destruct (Poller.runCallbacks _ _ _ _ _) as [[w1 toRemove]|] eqn:Hrun; [|discriminate].
    injection Hpoll as <- <- <-.
    split; [reflexivity|]. split; [lia|]. intros _.
    exists toRemove. split; [reflexivity|].
    split.
    + intros x Hx.
      destruct (runCallbacks_toRemove _ _ _ _ _ _ _ Hrun) as (extra & Hout & Hextra).
      cbn [app] in Hout. subst extra.
      destruct (Hextra x Hx) as (q & cb & Hmem & Hfd & Hx0 & Hin).
      apply list_elem_of_lookup in Hmem as [i Hi].
      apply lookup_zip_Some in Hi as [Hq _].
      unfold Poller.writeRevents in Hq. rewrite list_lookup_imap in Hq.
      destruct (Poller.pollFDs pm !! i) as [q0|] eqn:Hq0; [|discriminate].
      cbn in Hq. injection Hq as <-. cbn [Poller.fd Poller.revents] in Hfd, Hin.
      split.
      * apply liveFds_elem_of. split; [exact Hx0|].
        exists q0. split; [|exact Hfd]. apply list_elem_of_lookup. now exists i.
      * exists i, q0. repeat split; assumption.
    + unfold Poller.bulkRemoval.
      cbn [Poller.pollFDs Poller.pendingRemovals Poller.pendingAdds
           Poller.nextAvailable Poller.pollCallbacks].
      rewrite Hrem. cbn [app].
      set (q := Poller.mk _ _ _ _ _).
      assert (Hq : Poller.polled q = Poller.polled pm).
      { change (liveFds (Poller.writeRevents o (Poller.pollFDs pm))
                = liveFds (Poller.pollFDs pm)).
        apply liveFds_writeRevents. }
      transitivity (filter (fun y => y ∉ toRemove) (Poller.polled q)).
      * apply (polled_removals toRemove q). rewrite Hq. exact Hnd.
      * now rewrite Hq.
  - injection Hpoll as <- <- <-. split; [reflexivity|].
    split; [|lia]. intros _. split; [reflexivity|].
    unfold Poller.polled. cbn [Poller.pollFDs].
    fold (liveFds (Poller.writeRevents o (Poller.pollFDs pm))).
    now rewrite liveFds_writeRevents.
Qed.

Lemma twoPolled_shape :
  Poller.wf twoPolled /\ Poller.polled twoPolled = [11; 12]
  /\ Poller.nextAvailable twoPolled = 2%nat.
Proof. split; [split; reflexivity|]. split; reflexivity. Qed.

Lemma NoDup_11_12 : NoDup [11; 12].
Proof.
  apply NoDup_cons. split; [|apply NoDup_singleton].
  intros H. apply list_elem_of_singleton in H. discriminate H.
Qed.

Lemma poller_shape_kept_witness :
  Poller.wf twoPolled
  /\ exists p' w',
       Poller.poll allReadable (Poller.remove 11 twoPolled) [] = Some (p', w', 2)
       /\ Poller.wf p' /\ Poller.pendingAdds p' = [] /\ Poller.pendingRemovals p' = [].
Proof.
  assert (Hwf : Poller.wf twoPolled) by apply twoPolled_shape.
  split; [exact Hwf|].
  destruct (poller_shape_kept (Poller.remove 11 twoPolled)) as [_ H].
  destruct (H Hwf) as (_ & _ & _ & _ & Hpoll).
  destruct (Poller.poll allReadable (Poller.remove 11 twoPolled) [])
    as [[[p' w'] r]|] eqn:Hrun; [|vm_compute in Hrun; discriminate].
  assert (r = 2) as -> by (vm_compute in Hrun; congruence).
  exists p', w'. split; [reflexivity|].
  exact (Hpoll _ _ _ _ _ Hrun).
Defined.

Lemma removals_free_the_slots_witness :
  NoDup (Poller.polled (Poller.remove 11 twoPolled))
  /\ Poller.polled (Poller.processPendingRemovals (Poller.remove 11 twoPolled)) = [12]
  /\ Poller.nextAvailable (Poller.processPendingRemovals (Poller.remove 11 twoPolled))
     = 0%nat.
Proof.
  assert (Hnd : NoDup (Poller.polled (Poller.remove 11 twoPolled))) by exact NoDup_11_12.
  split; [exact Hnd|]. split; [|reflexivity].
  rewrite (proj2 (proj2 (removals_free_the_slots (Poller.remove 11 twoPolled))) Hnd).
  reflexivity.
Defined.

Lemma adds_append_witness :
  let p := Poller.add 13 (keeps 13) twoPolled in
  (Poller.wf p /\ Poller.nextAvailable p = length (Poller.pollFDs p))
  /\ Poller.polled (Poller.processPendingAdds p) = [11; 12; 13].
Proof.
  cbv zeta.
  assert (Hwf : Poller.wf (Poller.add 13 (keeps 13) twoPolled)) by (split; reflexivity).
  split; [split; [exact Hwf | reflexivity]|].
  unfold Poller.polled.
  rewrite (proj1 (adds_append (Poller.add 13 (keeps 13) twoPolled) Hwf eq_refl)).
  reflexivity.
Defined.

Lemma second_add_takes_used_slot_witness :
  let p := Poller.add 14 (keeps 14)
             (Poller.add 13 (keeps 13)
                (Poller.processPendingRemovals (Poller.remove 11 twoPolled))) in
  (Poller.wf p /\ Poller.nextAvailable p = 0%nat
   /\ Poller.pollFDs p !! 0%nat = Some Poller.freeSlot
   /\ Poller.pollFDs p !! 1%nat = Some (Poller.mkPollfd 12 Poller.POLLIN 0)
   /\ Poller.pendingAdds p = [(13, keeps 13); (14, keeps 14)]
   /\ NoDup (Poller.polled p))
  /\ Poller.polled p = [12]
  /\ (12 ∉ Poller.polled (Poller.processPendingAdds p))
  /\ Poller.polled (Poller.processPendingAdds p) = [13; 14].
Proof.
  cbv zeta.
  set (p := Poller.add 14 (keeps 14)
              (Poller.add 13 (keeps 13)
                 (Poller.processPendingRemovals (Poller.remove 11 twoPolled)))).
  assert (Hwf : Poller.wf p) by (split; vm_compute; lia).
  assert (Hnd : NoDup (Poller.polled p)) by apply NoDup_singleton.
  split.
  { split; [exact Hwf|]. split; [reflexivity|]. split; [reflexivity|].
    split; [reflexivity|]. split; [reflexivity | exact Hnd]. }
  split; [reflexivity|]. split; [|reflexivity].
  exact (proj2 (proj2 (proj2
           (second_add_takes_used_slot p 0 Poller.freeSlot
              (Poller.mkPollfd 12 Poller.POLLIN 0) (13, keeps 13) (14, keeps 14)
              Hwf eq_refl eq_refl eq_refl ltac:(cbn; lia) eq_refl)))
           Hnd ltac:(cbn; lia) ltac:(cbn; lia)).
Defined.

Lemma poll_drops_refused_witness :
  exists p' w',
    Poller.poll allReadable twoPolled [] = Some (p', w', 2)
    /\ NoDup (Poller.polled
                (Poller.processPendingAdds (Poller.processPendingRemovals twoPolled)))
    /\ w' = [11; 12]
    /\ Poller.polled p' = [12].
Proof.
  destruct (Poller.poll allReadable twoPolled []) as [[[p' w'] r]|] eqn:Hrun;
    [|vm_compute in Hrun; discriminate].
  assert (Hres : r = 2 /\ w' = [11; 12]).
  { pose proof Hrun as H. vm_compute in H. injection H as _ H2 H3. now split. }
  destruct Hres as [-> ->].
  exists p', [11; 12].
  assert (Hnd : NoDup (Poller.polled
                         (Poller.processPendingAdds
                            (Poller.processPendingRemovals twoPolled))))
    by exact NoDup_11_12.
  split; [reflexivity|]. split; [exact Hnd|]. split; [reflexivity|].
  destruct (poll_drops_refused allReadable twoPolled p' [] [11; 12] 2 Hrun Hnd)
    as (_ & _ & Hpos).
  destruct (Hpos ltac:(cbn; lia)) as (toRemove & Hcb & _ & Hpolled).
  vm_compute in Hcb. injection Hcb as <-.
  rewrite Hpolled. vm_compute. reflexivity.
Defined.

(** * Properties of the HTTP side of the server *)


Lemma parseVersion_unknown (versionStr : string) :
  Server.major (parseVersion versionStr) < 0 <-> ~ In versionStr versionNames.
Proof.
  unfold parseVersion, versionNames. cbn [In].
  destruct (String.eqb_spec versionStr "HTTP/0.9"); [cbn; split; [lia | intros H; exfalso; apply H; subst; auto 10]|].
  destruct (String.eqb_spec versionStr "HTTP/1.0"); [cbn; split; [lia | intros H; exfalso; apply H; subst; auto 10]|].
  destruct (String.eqb_spec versionStr "HTTP/1.1"); [cbn; split; [lia | intros H; exfalso; apply H; subst; auto 10]|].
  destruct (String.eqb_spec versionStr "HTTP/2.0"); [cbn; split; [lia | intros H; exfalso; apply H; subst; auto 10]|].
  cbn. split; [|lia]. intros _ H. intuition congruence.
Qed.


Lemma append_assoc (a c d : string) : ((a ++ c) ++ d = a ++ (c ++ d))%string.
Proof.
  induction a as [|x a IH]; [reflexivity|].
  change (String x ((a ++ c) ++ d) = String x (a ++ (c ++ d)))%string.
  now rewrite IH.
Qed.

Lemma append_nil_r (a : string) : (a ++ "")%string = a.
Proof.
  induction a as [|x a IH]; [reflexivity|].
  change (String x (a ++ "") = String x a)%string.
  now rewrite IH.
Qed.

Lemma dataFor_absent (k : string) (parsed : list (string * string)) :
  existsb (fun kd => String.eqb (fst kd) k) parsed = false -> dataFor k parsed = ""%string.
Proof.
  induction parsed as [|kd rest IH]; [reflexivity|].
  cbn [existsb dataFor]. destruct (String.eqb (fst kd) k); [discriminate|]. exact IH.
Qed.

(** X18.  The post processor's pieces are joined per key: after
    [postDataIterator] has been called for a sequence of key and data
    pairs, the value of a key that occurs in the sequence is what the key
    held before (nothing, if it was not there) followed by all the data of
    its pairs in the order of the calls; a key that does not occur keeps
    its value, and the headers are not touched. *)
Theorem post_data_joined (parsed : list (string * string)) :
  forall (st : Maps) (k : string),
    postKeyValues (fold_left postDataIterator parsed st) !! k
    = (if existsb (fun kd => String.eqb (fst kd) k) parsed
       then Some (default ""%string (postKeyValues st !! k) ++ dataFor k parsed)%string
       else postKeyValues st !! k)
    /\ headers (fold_left postDataIterator parsed st) = headers st.
Proof.
  induction parsed as [|[k' d] rest IH]; intros st k; [split; reflexivity|].
  cbn [fold_left existsb dataFor fst snd].
  destruct (IH (postDataIterator st (k', d)) k) as [Hlook Hhead].
  split.
  2:{ rewrite Hhead. unfold postDataIterator. cbn [fst snd].
      destruct (postKeyValues st !! k'); reflexivity. }
  rewrite Hlook. clear Hlook Hhead IH.
  destruct (String.eqb_spec k' k) as [->|Hne]; cbn [orb].
  - assert (Hk : postKeyValues (postDataIterator st (k, d)) !! k
                 = Some (default ""%string (postKeyValues st !! k) ++ d)%string).
    { unfold postDataIterator. cbn [fst snd].
      destruct (postKeyValues st !! k) as [v|]; cbn [postKeyValues default];
        apply lookup_insert_eq. }
    rewrite Hk.
    change (default ""%string (Some ?x)) with x.
    destruct (existsb _ rest) eqn:Hrest.
    + now rewrite append_assoc.
    + now rewrite (dataFor_absent k rest Hrest), append_nil_r.
  - assert (Hk : postKeyValues (postDataIterator st (k', d)) !! k = postKeyValues st !! k).
    { unfold postDataIterator. cbn [fst snd].
      destruct (postKeyValues st !! k'); cbn [postKeyValues];
        now rewrite lookup_insert_ne. }
    now rewrite Hk.
Qed.

Lemma headers_recorded (lines : list (string * string)) :
  forall (st : Maps) (k : string),
    headers (fold_left keyValueIterator lines st) !! k
    = match lastValue k lines with
      | Some v => Some v
      | None => headers st !! k
      end
    /\ postKeyValues (fold_left keyValueIterator lines st) = postKeyValues st.
Proof.
  induction lines as [|[k' v] rest IH]; intros st k; [split; reflexivity|].
  cbn [fold_left lastValue fst snd].
  destruct (IH (keyValueIterator st (k', v)) k) as [Hlook Hpost].
  split; [|exact Hpost].
  rewrite Hlook. destruct (lastValue k rest); [reflexivity|].
  unfold keyValueIterator. cbn [headers fst snd].
  destruct (String.eqb_spec k' k) as [->|Hne].
  - apply lookup_insert_eq.
  - now apply lookup_insert_ne.
Qed.

Lemma lastValue_absent (k : string) (lines : list (string * string)) :
  ~ In k (map fst lines) -> lastValue k lines = None.
Proof.
  induction lines as [|[k' v] rest IH]; intros Hnot; [reflexivity|].
  cbn [lastValue map fst In] in *.
  rewrite IH by tauto.
  destruct (String.eqb_spec k' k); [tauto | reflexivity].
Qed.

Lemma lastValue_is_Some (k : string) (lines : list (string * string)) (st : Maps) :
  is_Some (headers st !! k) ->
  is_Some (headers (fold_left keyValueIterator lines st) !! k).
Proof.
  intros H. rewrite (proj1 (headers_recorded lines st k)).
  destruct (lastValue k lines); [now eexists | exact H].
Qed.

(** X19.  Recording the header lines of a request: the lines are written
    into the map of the server one after the other, so that of two lines
    with one name the later one stays; a name the request does not carry
    keeps the value an earlier request left for it. *)
Theorem later_header_line_stays (lines : list (string * string)) (st : Maps) (k : string) :
  headers (fold_left keyValueIterator lines st) !! k
  = match lastValue k lines with
    | Some v => Some v
    | None => headers st !! k
    end.
Proof. apply headers_recorded. Qed.

Lemma accessHandlerCallback_switching (sha1_encode base64_encode : string -> string)
    (webSocketHandler : option (string -> bool))
    (requestHandler : string -> Server.Method -> Server.Version -> gmap string string ->
                      string -> gmap string string -> Response)
    (st st1 : Maps) (requestHeaders : list (string * string))
    (url methodStr versionStr uploadData : string) (parsed : list (string * string))
    (cc cc1 : option ConnectionContext) (r : Server.MHD_Response) :
  accessHandlerCallback sha1_encode base64_encode webSocketHandler requestHandler
    st requestHeaders url methodStr versionStr uploadData parsed cc
  = (st1, cc1, SwitchingProtocols r) ->
  st1 = fold_left keyValueIterator requestHeaders st
  /\ Server.maybeCreateWebSocketResponse sha1_encode base64_encode webSocketHandler
       (headers st1) url (parseMethod methodStr) (parseVersion versionStr) = Some r.
Proof.
  unfold accessHandlerCallback. intros H.
  assert (Hrest :
            (if Server.major (parseVersion versionStr) <? 0 then (st, cc, Refused)
             else
               match cc with
               | None =>
                   (fold_left keyValueIterator requestHeaders st,
                    Some (mkConnectionContext url (isPost (parseMethod methodStr))),
                    ContextCreated)
               | Some _ =>
                   match Server.maybeCreateWebSocketResponse sha1_encode base64_encode
                           webSocketHandler
                           (headers (fold_left keyValueIterator requestHeaders st))
                           url (parseMethod methodStr) (parseVersion versionStr) with
                   | Some mhdResponse =>
                       (fold_left keyValueIterator requestHeaders st, cc,
                        SwitchingProtocols mhdResponse)
                   | None =>
                       if isPost (parseMethod methodStr) && negb (String.eqb uploadData "")
                       then (fold_left postDataIterator parsed
                               (fold_left keyValueIterator requestHeaders st),
                             cc, PostProcessed)
                       else
                         let '(st0, response) :=
                           invokeRequestHandler requestHandler
                             (fold_left keyValueIterator requestHeaders st) url
                             (parseMethod methodStr) (parseVersion versionStr) uploadData in
                         (st0, None, Responded response)
                   end
               end)
            = (st1, cc1, SwitchingProtocols r)).
  { destruct (parseMethod methodStr); try exact H. discriminate H. }
  clear H.
  destruct (Server.major (parseVersion versionStr) <? 0); [discriminate|].
  destruct cc as [c|]; [|discriminate].
  destruct (Server.maybeCreateWebSocketResponse _ _ _ _ _ _ _) as [r'|] eqn:Hgate.
  - injection Hrest as <- _ <-. split; [reflexivity | exact Hgate].
  - destruct (isPost _ && _); [discriminate|]. cbn in Hrest. discriminate.
Qed.

(** X20.  The headers of a request that was answered with the upgrade stay
    in the map of the server.  After such a request, a later GET request
    over HTTP/1.1 for a URL the handler takes, on a connection whose
    context exists, is answered with the upgrade as well, whatever headers
    it carries, as long as it carries no [Upgrade] and no [Connection]
    line of its own: it needs no header at all. *)
Theorem upgrade_headers_linger (sha1_encode base64_encode : string -> string)
    (isHandled : string -> bool)
    (requestHandler : string -> Server.Method -> Server.Version -> gmap string string ->
                      string -> gmap string string -> Response)
    (st st1 : Maps) (lines1 lines2 : list (string * string))
    (url1 methodStr1 versionStr1 uploadData1 url2 uploadData2 : string)
    (parsed1 parsed2 : list (string * string))
    (cc cc1 : option ConnectionContext) (c2 : ConnectionContext)
    (r1 : Server.MHD_Response) :
  accessHandlerCallback sha1_encode base64_encode (Some isHandled) requestHandler
    st lines1 url1 methodStr1 versionStr1 uploadData1 parsed1 cc
  = (st1, cc1, SwitchingProtocols r1) ->
  isHandled url2 = true ->
  ~ In "Upgrade"%string (map fst lines2) ->
  ~ In "Connection"%string (map fst lines2) ->
  exists r2,
    accessHandlerCallback sha1_encode base64_encode (Some isHandled) requestHandler
      st1 lines2 url2 "GET" "HTTP/1.1" uploadData2 parsed2 (Some c2)
    = (fold_left keyValueIterator lines2 st1, Some c2, SwitchingProtocols r2).
Proof.
  intros H1 Hurl HnoU HnoC.
  apply accessHandlerCallback_switching in H1 as [_ Hgate].
  assert (Hsome : is_Some (Server.maybeCreateWebSocketResponse sha1_encode base64_encode
                             (Some isHandled) (headers st1) url1 (parseMethod methodStr1)
                             (parseVersion versionStr1))) by (exists r1; exact Hgate).
  apply gate_as_test in Hsome.
  rewrite !andb_true_iff, !isHeaderSet_true, !isHeaderSetTo_true in Hsome.
  destruct Hsome as [[[[[[[_ _] Hhost] Hup] Hconn] Hver] Hkey] _].
  set (st2 := fold_left keyValueIterator lines2 st1).
  assert (Hgate2 : is_Some (Server.maybeCreateWebSocketResponse sha1_encode base64_encode
                              (Some isHandled) (headers st2) url2 Server.eGet
                              (Server.mkVersion 1 1))).
  { apply gate_as_test.
    rewrite !andb_true_iff, !isHeaderSet_true, !isHeaderSetTo_true.
    subst st2.
    repeat split; try reflexivity; try assumption; try (now apply lastValue_is_Some).
    - rewrite (proj1 (headers_recorded lines2 st1 "Upgrade")), lastValue_absent
        by exact HnoU.
      exact Hup.
    - rewrite (proj1 (headers_recorded lines2 st1 "Connection")), lastValue_absent
        by exact HnoC.
      exact Hconn. }
  destruct Hgate2 as [r2 Hr2]. exists r2.
  unfold accessHandlerCallback.
  change (parseMethod "GET") with Server.eGet.
  change (parseVersion "HTTP/1.1") with (Server.mkVersion 1 1).
  cbn [Server.major Z.ltb Z.compare]. fold st2. now rewrite Hr2.
Qed.

Lemma upgrade_headers_linger_witness :
  exists st1 r1 r2,
    accessHandlerCallback id id anyUrl (fun _ _ _ _ _ _ => mkResponse 404 "")
      noMaps (map_to_list exactHeaders) "/chat" "GET" "HTTP/1.1" "" []
      (Some (mkConnectionContext "/chat" false))
    = (st1, Some (mkConnectionContext "/chat" false), SwitchingProtocols r1)
    /\ accessHandlerCallback id id anyUrl (fun _ _ _ _ _ _ => mkResponse 404 "")
         st1 [] "/index.html" "GET" "HTTP/1.1" "" []
         (Some (mkConnectionContext "/index.html" false))
       = (st1, Some (mkConnectionContext "/index.html" false), SwitchingProtocols r2).
Proof.
  destruct (accessHandlerCallback id id anyUrl (fun _ _ _ _ _ _ => mkResponse 404 "")
              noMaps (map_to_list exactHeaders) "/chat" "GET" "HTTP/1.1" "" []
              (Some (mkConnectionContext "/chat" false)))
    as [[st1 cc1] a1] eqn:H1.
  assert (Ha : cc1 = Some (mkConnectionContext "/chat" false)
               /\ exists r1, a1 = SwitchingProtocols r1).
  { pose proof H1 as H. vm_compute in H. injection H as _ <- <-.
    split; [reflexivity | eexists; reflexivity]. }
  destruct Ha as [-> [r1 ->]].
  destruct (upgrade_headers_linger id id (fun _ => true) _ _ _ _ [] _ _ _ _ "/index.html" ""
              _ [] _ _ (mkConnectionContext "/index.html" false) _ H1 eq_refl
              ltac:(cbn; tauto) ltac:(cbn; tauto)) as [r2 H2].
  exists st1, r1, r2. split; [reflexivity | exact H2].
Defined.

Lemma gate_refuses_post (sha1_encode base64_encode : string -> string)
    (webSocketHandler : option (string -> bool)) (headers : Server.Headers)
    (url : string) (version : Server.Version) :
  Server.maybeCreateWebSocketResponse sha1_encode base64_encode webSocketHandler
    headers url Server.ePost version = None.
Proof.
  unfold Server.maybeCreateWebSocketResponse.
  destruct webSocketHandler as [isHandled|]; [|reflexivity].
  destruct (isHandled url); reflexivity.
Qed.

(** X21.  A POST request, which the upgrade gate never takes, call by call.  The first
    call for the connection only creates its context, with a post
    processor, and records the headers.  A call that brings upload data
    hands it to the post processor and answers nothing.  The call that
    brings none invokes the request handler, with the headers recorded and
    the post data gathered so far, queues its response, and leaves both
    maps of the server empty and the context deleted. *)
Theorem post_request_flow (sha1_encode base64_encode : string -> string)
    (webSocketHandler : option (string -> bool))
    (requestHandler : string -> Server.Method -> Server.Version -> gmap string string ->
                      string -> gmap string string -> Response)
    (st : Maps) (lines : list (string * string))
    (url versionStr uploadData : string) (parsed : list (string * string)) :
  In versionStr versionNames ->
  uploadData <> ""%string ->
  let call :=
    accessHandlerCallback sha1_encode base64_encode webSocketHandler requestHandler in
  let cc := mkConnectionContext url true in
  let st1 := fold_left keyValueIterator lines st in
  let st2 := fold_left postDataIterator parsed (fold_left keyValueIterator lines st1) in
  let st3 := fold_left keyValueIterator lines st2 in
  call st lines url "POST"%string versionStr ""%string [] None
  = (st1, Some cc, ContextCreated)
  /\ call st1 lines url "POST"%string versionStr uploadData parsed (Some cc)
     = (st2, Some cc, PostProcessed)
  /\ call st2 lines url "POST"%string versionStr ""%string [] (Some cc)
     = (noMaps, None,
        Responded (requestHandler url Server.ePost (parseVersion versionStr)
                                  (headers st3) ""%string (postKeyValues st3))).
Proof.
  intros Hv Hdata. cbv zeta. unfold accessHandlerCallback.
  change (parseMethod "POST") with Server.ePost.
  assert (Hok : (Server.major (parseVersion versionStr) <? 0) = false).
  { apply Z.ltb_ge.
    destruct (Z.ltb_spec (Server.major (parseVersion versionStr)) 0) as [H|H]; [|exact H].
    apply parseVersion_unknown in H. contradiction. }
  rewrite Hok, !gate_refuses_post. cbn [isPost andb].
  split; [reflexivity|]. split.
  - replace (String.eqb uploadData "") with false
      by (symmetry; now apply String.eqb_neq).
    reflexivity.
  - reflexivity.
Qed.

Lemma post_request_flow_witness :
  let handler := fun (_ : string) (_ : Server.Method) (_ : Server.Version)
                     (_ : gmap string string) (_ : string) (kv : gmap string string) =>
                   mkResponse 200 (default ""%string (kv !! "name"%string)) in
  let call := accessHandlerCallback id id anyUrl handler in
  let cc := mkConnectionContext "/form" true in
  (In "HTTP/1.1"%string versionNames /\ ("name=Ada"%string <> ""%string))
  /\ exists st2,
       call noMaps [] "/form"%string "POST"%string "HTTP/1.1"%string
            "name=Ada"%string [("name", "A"); ("name", "da")]%string (Some cc)
       = (st2, Some cc, PostProcessed)
       /\ call st2 [] "/form"%string "POST"%string "HTTP/1.1"%string ""%string [] (Some cc)
          = (noMaps, None, Responded (mkResponse 200 "Ada")).
Proof.
  cbv zeta.
  assert (Hv : In "HTTP/1.1"%string versionNames) by (cbn; tauto).
  assert (Hd : "name=Ada"%string <> ""%string) by discriminate.
  split; [split; assumption|].
  destruct (post_request_flow id id anyUrl
              (fun _ _ _ _ _ (kv : gmap string string) =>
                 mkResponse 200 (default ""%string (kv !! "name"%string)))
              noMaps [] "/form" "HTTP/1.1" "name=Ada"
              [("name", "A"); ("name", "da")]%string Hv Hd) as (_ & H2 & H3).
  eexists. split; [exact H2|].
  etransitivity; [exact H3|]. vm_compute. reflexivity.
Defined.

(** ** The scheduler and the poll set together *)

Lemma parseFrame_open_calls (frames : list Frame) :
  forall s : WebSocket,
    closeHandshake s = eNone ->
    connectionID (fst (parseFrame s frames)) = connectionID s
    /\ closeCallbackCalls (fst (parseFrame s frames))
       = closeCallbackCalls s
           ++ (if snd (parseFrame s frames) then [] else [connectionID s]).
Proof.
  assert (Hclose : forall (s : WebSocket) (c : closestatus.ProtocolCode) (why : bytes),
             closeHandshake s = eNone ->
             connectionID (closeConnection s c why) = connectionID s
             /\ closeCallbackCalls (closeConnection s c why)
                = closeCallbackCalls s ++ [connectionID s]).
  { intros s c why Hopen. unfold closeConnection, sendFrame. rewrite Hopen.
    cbn [set_closeHandshake socketOk]. destruct (socketOk s); split; reflexivity. }
  assert (Hstep : forall (rest : list Frame) (s s1 : WebSocket),
             (forall s : WebSocket,
                 closeHandshake s = eNone ->
                 connectionID (fst (parseFrame s rest)) = connectionID s
                 /\ closeCallbackCalls (fst (parseFrame s rest))
                    = closeCallbackCalls s
                        ++ (if snd (parseFrame s rest) then [] else [connectionID s])) ->
             closeHandshake s1 = eNone ->
             connectionID s1 = connectionID s ->
             closeCallbackCalls s1 = closeCallbackCalls s ->
             connectionID (fst (parseFrame s1 rest)) = connectionID s
             /\ closeCallbackCalls (fst (parseFrame s1 rest))
                = closeCallbackCalls s
                    ++ (if snd (parseFrame s1 rest) then [] else [connectionID s])).
  { intros rest s s1 IH H1 H2 H3. destruct (IH s1 H1) as [A B].
    rewrite A, B, H2, H3. split; reflexivity. }
  induction frames as [|frame rest IH]; intros s Hopen.
  - cbn. now rewrite app_nil_r.
  - cbn [parseFrame].
    destruct (negb (Header.isMasked (header frame))); [now apply Hclose|].
    destruct (Header.opCode (header frame)).
    + destruct (fragmented s); [|now apply Hclose].
      destruct (Header.fin (header frame)); now apply Hstep.
    + destruct (fragmented s); [now apply Hclose|].
      destruct (Header.fin (header frame)); now apply Hstep.
    + destruct (fragmented s); [now apply Hclose|].
      destruct (Header.fin (header frame)); now apply Hstep.
    + cbv zeta. cbn [fst snd deliver closeHandshake]. rewrite Hopen.
      unfold sendFrame. cbn [set_closeHandshake socketOk].
      destruct (socketOk s) eqn:Hok; cbn; rewrite ?Hok; split; reflexivity.
    + apply Hstep; [exact IH| | |];
        unfold sendFrame; cbn [deliver socketOk]; destruct (socketOk s); assumption || reflexivity.
    + now apply Hstep.
Qed.

Lemma runCallbacks_none_ready {W : Type} (slots : list (Poller.pollfd * Poller.Callback W)) :
  forall (pollResult n : Z) (w : W) (toRemove : list Z),
    (forall j qc, slots !! j = Some qc ->
                  Z.land (Poller.revents (fst qc)) Poller.POLLIN = 0) ->
    Poller.runCallbacks slots pollResult n w toRemove = Some (w, toRemove).
Proof.
  induction slots as [|[q cb] rest IH]; intros pollResult n w toRemove Hnot; [reflexivity|].
  cbn [Poller.runCallbacks].
  pose proof (Hnot O (q, cb) eq_refl) as Hq. cbn [fst] in Hq.
  rewrite Hq, Z.eqb_refl, andb_false_r.
  apply IH. intros j qc Hj. exact (Hnot (S j) qc Hj).
Qed.

Lemma runCallbacks_only_at {W : Type} (slots : list (Poller.pollfd * Poller.Callback W)) :
  forall (i : nat) (q : Poller.pollfd) (f : W -> W * bool) (pollResult n : Z) (w : W)
         (toRemove : list Z),
    slots !! i = Some (q, Some f) ->
    0 <= Poller.fd q ->
    Z.land (Poller.revents q) Poller.POLLIN <> 0 ->
    (forall j qc, j <> i -> slots !! j = Some qc ->
                  Z.land (Poller.revents (fst qc)) Poller.POLLIN = 0) ->
    Poller.runCallbacks slots pollResult n w toRemove
    = Some (fst (f w), if snd (f w) then toRemove else toRemove ++ [Poller.fd q]).
Proof.
  induction slots as [|[q0 cb0] rest IH];
    intros i q f pollResult n w toRemove Hi Hfd Hready Hothers; [discriminate|].
  destruct i as [|i].
  - injection Hi as -> ->. cbn [Poller.runCallbacks].
    replace (Poller.fd q >? -1) with true by (symmetry; apply Z.gtb_lt; lia).
    replace (Z.land (Poller.revents q) Poller.POLLIN =? 0) with false
      by (symmetry; now apply Z.eqb_neq).
    cbn [andb negb]. destruct (f w) as [w' keep]. cbn [fst snd].
    destruct (n + 1 =? pollResult); [reflexivity|].
    apply runCallbacks_none_ready.
    intros j qc Hj. apply (Hothers (S j) qc); [discriminate | exact Hj].
  - cbn [Poller.runCallbacks].
    assert (Hq0 : Z.land (Poller.revents q0) Poller.POLLIN = 0)
      by (apply (Hothers O (q0, cb0)); [discriminate | reflexivity]).
    rewrite Hq0, Z.eqb_refl, andb_false_r.
    apply (IH i); try assumption.
    intros j qc Hne Hj. apply (Hothers (S j) qc); [congruence | exact Hj].
Qed.

Lemma fold_left_removeOne_pendingAdds {W : Type} (removals : list Z) :
  forall p : Poller.t W,
    Poller.pendingAdds (fold_left Poller.removeOne removals p) = Poller.pendingAdds p.
Proof.
  induction removals as [|x removals IH]; intros p; [reflexivity|].
  cbn [fold_left]. rewrite IH. unfold Poller.removeOne.
  destruct (list_find _ _) as [[j ?]|]; reflexivity.
Qed.

Lemma filter_not_in_singleton (x : Z) (l : list Z) :
  filter (fun y => y ∉ [x]) l = filter (fun y => y <> x) l.
Proof. apply list_filter_iff. intros y. now rewrite list_elem_of_singleton. Qed.

(** A call of [operator()] on a poll set with nothing pending, when [poll]
    reports one slot readable. *)
Lemma poll_single {W : Type} (o : Poller.PollOutcome) (p : Poller.t W) (i : nat)
    (socket : Z) (f : W -> W * bool) (w : W) :
  Poller.pendingAdds p = [] ->
  Poller.pendingRemovals p = [] ->
  0 <= socket ->
  Poller.fd <$> (Poller.pollFDs p !! i) = Some socket ->
  Poller.pollCallbacks p !! i = Some (Some f) ->
  NoDup (Poller.polled p) ->
  onlyReady o i ->
  exists p',
    Poller.poll o p w = Some (p', fst (f w), Poller.pollResult o)
    /\ Poller.polled p'
       = (if snd (f w) then Poller.polled p
          else filter (fun y => y <> socket) (Poller.polled p))
    /\ Poller.pendingAdds p' = [] /\ Poller.pendingRemovals p' = [].
Proof.
  intros Hadds Hrems Hsock Hslot Hcb Hnd (Hpos & Hready & Hothers).
  destruct (Poller.pollFDs p !! i) as [q|] eqn:Hq; [|discriminate].
  cbn in Hslot. injection Hslot as Hfd.
  unfold Poller.poll, Poller.processPendingRemovals, Poller.processPendingRemovalsNoLock,
    Poller.processPendingAdds.
  rewrite Hrems. cbn [fold_left Poller.pendingAdds]. rewrite Hadds.
  cbn [fold_left Poller.pendingAdds Poller.pendingRemovals Poller.pollFDs
       Poller.nextAvailable Poller.pollCallbacks].
  replace (Poller.pollResult o <? 0) with false by (symmetry; apply Z.ltb_ge; lia).
  replace (Poller.pollResult o >? 0) with true by (symmetry; apply Z.gtb_lt; lia).
  rewrite (runCallbacks_only_at _ i
             (Poller.mkPollfd (Poller.fd q) (Poller.events q) (Poller.reported o i)) f).
  - eexists. split; [reflexivity|].
    split;
      [|split;
        [unfold Poller.bulkRemoval, Poller.processPendingRemovalsNoLock;
         cbn [Poller.pendingAdds]; now rewrite fold_left_removeOne_pendingAdds
        |reflexivity]].
    unfold Poller.bulkRemoval, Poller.processPendingRemovalsNoLock.
    cbn [Poller.pendingAdds Poller.pendingRemovals Poller.pollFDs Poller.nextAvailable
         Poller.pollCallbacks app].
    match goal with
    | |- Poller.polled (Poller.mk _ _ (Poller.pollFDs ?x) _ _) = ?r =>
        change (Poller.polled x = r)
    end.
    set (p1 := Poller.mk _ _ _ _ _).
    assert (Hp1 : Poller.polled p1 = Poller.polled p)
      by apply liveFds_writeRevents.
    rewrite polled_removals by (rewrite Hp1; exact Hnd).
    rewrite Hp1. cbn [Poller.fd app]. rewrite Hfd.
    destruct (snd (f w)); [apply filter_not_in_nil | apply filter_not_in_singleton].
  - apply lookup_zip_Some. split; [|exact Hcb].
    unfold Poller.writeRevents. rewrite list_lookup_imap, Hq. reflexivity.
  - cbn [Poller.fd]. lia.
  - exact Hready.
  - intros j [qj cbj] Hne Hj. apply lookup_zip_Some in Hj as [Hj _]. cbn [fst].
    unfold Poller.writeRevents in Hj. rewrite list_lookup_imap in Hj.
    destruct (Poller.pollFDs p !! j); [|discriminate].
    cbn in Hj. injection Hj as <-. cbn [Poller.revents]. now apply Hothers.
Qed.

Lemma onWebSocket_calls {R : Type} (id : ConnectionID) (op : WebSocket -> WebSocket * R)
    (st : Server.Private) (s s' : WebSocket) (r : R) (extra : list ConnectionID) :
  Server.webSockets st !! id = Some s ->
  op s = (s', r) ->
  closeCallbackCalls s' = closeCallbackCalls s ++ extra ->
  Server.onWebSocket id op st
  = Some (fold_left (fun st id => Server.webSocketClosed id st) extra
            (Server.set_webSockets st (<[ id := s' ]> (Server.webSockets st))), r).
Proof.
  intros H Hop Hc. unfold Server.onWebSocket. rewrite H, Hop, Hc.
  now rewrite drop_app_length.
Qed.

Lemma cycle_after_poll (o : Poller.PollOutcome) (d : Daemon) (p' : Poller.t Sessions)
    (st1 : Server.Private) (r : Z) :
  Server.webSocketRunning (server d) = true ->
  pollerCall o (poller d) (Server.count_poll (server d)) = Some (p', st1, r) ->
  webSocketCycle o d
  = Some (let '(st', e) :=
            if r <? 0 then (Server.write_cerr st1 "Error while polling", Server.StillRunning)
            else
              match Server.drainClosed (elements (Server.closedWebSockets st1)) st1 with
              | (st, false) => (st, Server.Returned)
              | (st, true) => (Server.set_closedWebSockets st ∅, Server.StillRunning)
              end in
          (mkDaemon st' p' (globalConnectionID d), e)).
Proof.
  intros Hrun Hpoll. unfold webSocketCycle. rewrite Hrun, Hpoll.
  cbn [negb Server.webSocketLoop]. rewrite Hrun, Hpoll. cbn [negb].
  destruct (r <? 0); [reflexivity|].
  destruct (Server.drainClosed _ _) as [st [|]]; reflexivity.
Qed.

(** The read callback of one session is the only one that runs. *)
Lemma pollerCall_single (recv : ConnectionID -> RecvResult) (o : Poller.PollOutcome)
    (d : Daemon) (i : nat) (socket : Z) (id : ConnectionID) (st : Server.Private) :
  serves recv d i socket id ->
  onlyReady o i ->
  match Server.onWebSocket id (fun s => receive s (recv id)) st with
  | Some (st1, keep) =>
      exists p',
        pollerCall o (poller d) st = Some (p', st1, Poller.pollResult o)
        /\ Poller.polled p'
           = (if keep then Poller.polled (poller d)
              else filter (fun y => y <> socket) (Poller.polled (poller d)))
        /\ Poller.pendingAdds p' = [] /\ Poller.pendingRemovals p' = []
  | None => pollerCall o (poller d) st = None
  end.
Proof.
  intros (Hadds & Hrems & Hsock & Hslot & Hcb & Hnd) Hready.
  destruct (poll_single o (poller d) i socket (receiveOn recv id) (Some st)
              Hadds Hrems Hsock Hslot Hcb Hnd Hready) as (p' & Hpoll & Hpolled & Hempty).
  unfold pollerCall. rewrite Hpoll. unfold receiveOn in *.
  destruct (Server.onWebSocket id _ st) as [[st1 keep]|]; [|reflexivity].
  exists p'. cbn [fst snd] in *. split; [reflexivity|]. split; assumption.
Qed.

(** X22.  [upgradeHandler] with a connection context, on a server whose
    sessions are registered under their own ids, all below the counter:
    the new session is registered under the value of the counter, which no
    session had, the counter moves on by one, no error is logged, and the
    sessions are again registered under their own ids below the counter;
    the socket is queued for the poll set with the read callback of the
    new session, unless that socket is queued already. *)
Theorem upgrade_registers_fresh_id (recv : ConnectionID -> RecvResult)
    (c : ConnectionContext) (socket : Z) (ok : bool) (d : Daemon) :
  idsInUse d ->
  let d' := upgradeHandler recv (Some c) socket ok d in
  let id := globalConnectionID d in
  idsInUse d'
  /\ globalConnectionID d' = id + 1
  /\ Server.webSockets (server d) !! id = None
  /\ Server.webSockets (server d')
     = <[ id := newWebSocket id ok ]> (Server.webSockets (server d))
  /\ Server.cerr (server d') = Server.cerr (server d)
  /\ (socket ∉ (fst <$> Poller.pendingAdds (poller d)) ->
      Poller.pendingAdds (poller d')
      = Poller.pendingAdds (poller d) ++ [(socket, receiveCallback recv id)]).
Proof.
  intros Hids. cbv zeta.
  assert (Hfree : Server.webSockets (server d) !! globalConnectionID d = None).
  { destruct (Server.webSockets (server d) !! globalConnectionID d) as [s|] eqn:Hs;
      [|reflexivity].
    apply Hids in Hs as [_ Hlt]. lia. }
  unfold upgradeHandler. rewrite Hfree.
  cbn [server poller globalConnectionID Server.set_webSockets Server.webSockets Server.cerr].
  split; [|split; [reflexivity | split; [reflexivity | split; [reflexivity | split;
                                                              [reflexivity|]]]]].
  - intros id s Hlook.
    cbn [server globalConnectionID Server.set_webSockets Server.webSockets] in *.
    destruct (decide (id = globalConnectionID d)) as [->|Hne].
    + rewrite lookup_insert_eq in Hlook. injection Hlook as <-.
      cbn [newWebSocket connectionID]. split; [reflexivity | lia].
    + rewrite lookup_insert_ne in Hlook by congruence.
      apply Hids in Hlook as [Hid Hlt]. split; [exact Hid | lia].
  - intros Hnew. unfold Poller.add.
    destruct (existsb _ _) eqn:Hex; [|reflexivity].
    apply existsb_exists in Hex as (kv & Hin & Heq).
    exfalso. apply Hnew. apply list_elem_of_fmap. exists kv.
    split; [symmetry; now apply Z.eqb_eq | now apply list_elem_of_In].
Qed.

Lemma upgrade_registers_fresh_id_witness :
  idsInUse freshDaemon
  /\ Server.webSockets
       (server (upgradeHandler (fun _ => recvEnd) (Some (mkConnectionContext "/chat" false))
                               5 true freshDaemon))
     = {[ 0 := newWebSocket 0 true ]}.
Proof.
  assert (H : idsInUse freshDaemon).
  { intros id s Hs. cbn in Hs. rewrite lookup_empty in Hs. discriminate. }
  split; [exact H|].
  destruct (upgrade_registers_fresh_id (fun _ => recvEnd) (mkConnectionContext "/chat" false)
              5 true freshDaemon H) as (_ & _ & _ & Hreg & _).
  rewrite Hreg. reflexivity.
Defined.

(** The daemon of the examples is what the code makes of a first upgrade. *)
Lemma established_oneSession (recv : ConnectionID -> RecvResult) :
  established recv = Some (oneSession recv).
Proof. vm_compute. reflexivity. Qed.

Lemma oneSession_serves (recv : ConnectionID -> RecvResult) :
  serves recv (oneSession recv) 0 5 0.
Proof.
  unfold serves, oneSession. cbn [poller Poller.pendingAdds Poller.pendingRemovals
                                   Poller.pollFDs Poller.pollCallbacks].
  split; [reflexivity|]. split; [reflexivity|]. split; [lia|].
  split; [reflexivity|]. split; [reflexivity|].
  vm_compute. apply NoDup_singleton.
Qed.

Lemma firstReadable_onlyReady : onlyReady firstReadable 0.
Proof.
  split; [cbn; lia|]. split; [cbn; discriminate|].
  intros [|j] Hj; [congruence | reflexivity].
Qed.

(** X23.  One turn of the scheduler in which only the socket of one open
    session is readable and [recv] gives a chunk.  The registry and the
    poll set stay in step: when [parseFrame] answers [true] the session
    stays registered, in its new state, and its socket stays polled; when
    it answers [false] the session is erased from the registry and its
    socket leaves the poll set, in that same turn.  The loop goes on, with
    the closed set empty. *)
Theorem registry_and_poll_set_in_step (recv : ConnectionID -> RecvResult)
    (o : Poller.PollOutcome) (d : Daemon) (i : nat) (socket : Z) (id : ConnectionID)
    (s : WebSocket) (frames : list Frame) :
  serves recv d i socket id ->
  onlyReady o i ->
  Server.webSocketRunning (server d) = true ->
  Server.closedWebSockets (server d) = ∅ ->
  Server.webSockets (server d) !! id = Some s ->
  connectionID s = id ->
  closeHandshake s = eNone ->
  recv id = recvChunk frames ->
  exists d',
    webSocketCycle o d = Some (d', Server.StillRunning)
    /\ Server.closedWebSockets (server d') = ∅
    /\ if snd (parseFrame s frames)
       then Server.webSockets (server d')
            = <[ id := fst (parseFrame s frames) ]> (Server.webSockets (server d))
            /\ Poller.polled (poller d') = Poller.polled (poller d)
       else Server.webSockets (server d') = delete id (Server.webSockets (server d))
            /\ Poller.polled (poller d')
               = filter (fun y => y <> socket) (Poller.polled (poller d)).
Proof.
  intros Hserves Hready Hrun Hclosed Hs Hid Hopen Hrecv.
  destruct (parseFrame_open_calls frames s Hopen) as [_ Hcalls].
  pose proof (pollerCall_single recv o d i socket id (Server.count_poll (server d))
                Hserves Hready) as Hp.
  rewrite (onWebSocket_calls id _ (Server.count_poll (server d)) s
             (fst (parseFrame s frames)) (snd (parseFrame s frames))
             (if snd (parseFrame s frames) then [] else [connectionID s])) in Hp;
    [ | exact Hs | rewrite Hrecv; cbn [receive]; apply surjective_pairing | exact Hcalls ].
  destruct Hp as (p' & Hpoll & Hpolled & _).
  rewrite (cycle_after_poll o d p' _ _ Hrun Hpoll).
  replace (Poller.pollResult o <? 0) with false
    by (symmetry; apply Z.ltb_ge; destruct Hready; lia).
  destruct (snd (parseFrame s frames)).
  - cbn [fold_left Server.set_webSockets Server.count_poll Server.closedWebSockets].
    rewrite Hclosed, elements_empty. cbn [Server.drainClosed].
    eexists. split; [reflexivity|]. split; [reflexivity|].
    split; [reflexivity | exact Hpolled].
  - cbn [fold_left]. unfold Server.webSocketClosed.
    cbn [Server.set_webSockets Server.set_closedWebSockets Server.count_poll
         Server.closedWebSockets Server.webSockets].
    rewrite Hclosed, Hid, (right_id_L ∅ (∪)), elements_singleton.
    cbn [Server.drainClosed].
    unfold Server.set_closedWebSockets, Server.set_webSockets, Server.count_poll.
    cbn [Server.webSockets Server.closedWebSockets]. rewrite lookup_insert_eq.
    eexists. split; [reflexivity|]. split; [reflexivity|].
    split; [apply delete_insert_eq | exact Hpolled].
Qed.

Lemma registry_and_poll_set_in_step_witness :
  let recv := fun _ : ConnectionID =>
                recvChunk [mkFrame (Header.mk true Header.eConnectionClose true 2)
                                   [x03; xe8]] in
  exists d',
    webSocketCycle firstReadable (oneSession recv) = Some (d', Server.StillRunning)
    /\ Server.webSockets (server d') = ∅
    /\ Poller.polled (poller d') = [].
Proof.
  intros recv.
  destruct (registry_and_poll_set_in_step recv firstReadable (oneSession recv) 0 5 0
              (newWebSocket 0 true)
              [mkFrame (Header.mk true Header.eConnectionClose true 2) [x03; xe8]]
              (oneSession_serves recv) firstReadable_onlyReady eq_refl eq_refl eq_refl
              eq_refl eq_refl eq_refl) as (d' & Hcycle & _ & Hrest).
  cbn [parseFrame snd Header.isMasked header negb Header.opCode] in Hrest.
  destruct Hrest as [Hreg Hpolled].
  exists d'. split; [exact Hcycle|]. split.
  - rewrite Hreg. vm_compute. reflexivity.
  - rewrite Hpolled. vm_compute. reflexivity.
Defined.

(** X24.  When the peer ends the stream without a Close frame ([recv]
    gives 0), the socket of the session leaves the poll set in that turn
    of the scheduler, but the session stays in the registry as it was: the
    close callback is not called, and nothing is reported closed. *)
Theorem end_of_stream_keeps_session (recv : ConnectionID -> RecvResult)
    (o : Poller.PollOutcome) (d : Daemon) (i : nat) (socket : Z) (id : ConnectionID)
    (s : WebSocket) :
  serves recv d i socket id ->
  onlyReady o i ->
  Server.webSocketRunning (server d) = true ->
  Server.closedWebSockets (server d) = ∅ ->
  Server.webSockets (server d) !! id = Some s ->
  recv id = recvEnd ->
  exists d',
    webSocketCycle o d = Some (d', Server.StillRunning)
    /\ Server.webSockets (server d') = Server.webSockets (server d)
    /\ Server.closedWebSockets (server d') = ∅
    /\ Poller.polled (poller d')
       = filter (fun y => y <> socket) (Poller.polled (poller d)).
Proof.
  intros Hserves Hready Hrun Hclosed Hs Hrecv.
  pose proof (pollerCall_single recv o d i socket id (Server.count_poll (server d))
                Hserves Hready) as Hp.
  rewrite (onWebSocket_calls id _ (Server.count_poll (server d)) s s false []) in Hp;
    [ | exact Hs | now rewrite Hrecv | now rewrite app_nil_r ].
  destruct Hp as (p' & Hpoll & Hpolled & _).
  rewrite (cycle_after_poll o d p' _ _ Hrun Hpoll).
  replace (Poller.pollResult o <? 0) with false
    by (symmetry; apply Z.ltb_ge; destruct Hready; lia).
  cbn [fold_left Server.set_webSockets Server.count_poll Server.closedWebSockets
       Server.webSockets].
  rewrite Hclosed, elements_empty. cbn [Server.drainClosed].
  eexists. split; [reflexivity|].
  cbn [server poller Server.set_closedWebSockets Server.webSockets Server.closedWebSockets].
  split; [now apply insert_id|]. split; [reflexivity | exact Hpolled].
Qed.

Lemma end_of_stream_keeps_session_witness :
  let recv := fun _ : ConnectionID => recvEnd in
  exists d',
    webSocketCycle firstReadable (oneSession recv) = Some (d', Server.StillRunning)
    /\ Server.webSockets (server d') !! 0 = Some (newWebSocket 0 true)
    /\ Poller.polled (poller d') = [].
Proof.
  intros recv.
  destruct (end_of_stream_keeps_session recv firstReadable (oneSession recv) 0 5 0
              (newWebSocket 0 true)
              (oneSession_serves recv) firstReadable_onlyReady eq_refl eq_refl eq_refl
              eq_refl) as (d' & Hcycle & Hreg & _ & Hpolled).
  exists d'. split; [exact Hcycle|]. split.
  - rewrite Hreg. reflexivity.
  - rewrite Hpolled. vm_compute. reflexivity.
Defined.

Lemma sendClose_open (s : WebSocket) (code : Z) (why : bytes) (now : Z) :
  closeHandshake s = eNone ->
  snd (sendClose s code why now) = eSuccess
  /\ closeCallbackCalls (fst (sendClose s code why now))
     = closeCallbackCalls s ++ [connectionID s].
Proof.
  intros Hopen. unfold sendClose, sendFrame. rewrite Hopen.
  cbn [set_closeHandshake set_closeSentTimePoint socketOk].
  destruct (socketOk s); split; reflexivity.
Qed.

(** A call of [operator()] on a poll set with nothing pending, when [poll]
    times out. *)
Lemma poll_idle {W : Type} (o : Poller.PollOutcome) (p : Poller.t W) (w : W) :
  Poller.pendingAdds p = [] ->
  Poller.pendingRemovals p = [] ->
  Poller.pollResult o = 0 ->
  Poller.poll o p w
  = Some (Poller.mk [] [] (Poller.writeRevents o (Poller.pollFDs p)) (Poller.nextAvailable p)
                    (Poller.pollCallbacks p), w, 0).
Proof.
  intros Hadds Hrems Hzero.
  unfold Poller.poll, Poller.processPendingRemovals, Poller.processPendingRemovalsNoLock,
    Poller.processPendingAdds.
  rewrite Hrems. cbn [fold_left Poller.pendingAdds]. rewrite Hadds.
  cbn [fold_left Poller.pendingAdds Poller.pendingRemovals Poller.pollFDs
       Poller.nextAvailable Poller.pollCallbacks].
  rewrite Hzero. reflexivity.
Qed.

(** X25.  The user sends Close on an open session, and the next turn of
    the scheduler finds nothing to read.  That turn erases the session
    from the registry, but its socket stays in the poll set, with the read
    callback that is bound to the erased session.  When in a later turn
    [poll] reports that descriptor readable, the callback runs on the
    session that is no more. *)
Theorem closed_session_stays_polled (recv : ConnectionID -> RecvResult)
    (o o' : Poller.PollOutcome) (d : Daemon) (i : nat) (socket : Z) (id : ConnectionID)
    (s : WebSocket) (code : Z) (why : bytes) (now : Z) :
  serves recv d i socket id ->
  Poller.pollResult o = 0 ->
  onlyReady o' i ->
  Server.webSocketRunning (server d) = true ->
  Server.closedWebSockets (server d) = ∅ ->
  Server.webSockets (server d) !! id = Some s ->
  connectionID s = id ->
  closeHandshake s = eNone ->
  exists st1 d2,
    userSendClose id code why now (server d) = Some (st1, eSuccess)
    /\ webSocketCycle o (mkDaemon st1 (poller d) (globalConnectionID d))
       = Some (d2, Server.StillRunning)
    /\ Server.webSockets (server d2) = delete id (Server.webSockets (server d))
    /\ Poller.polled (poller d2) = Poller.polled (poller d)
    /\ socket ∈ Poller.polled (poller d2)
    /\ Poller.pollCallbacks (poller d2) !! i = Some (receiveCallback recv id)
    /\ webSocketCycle o' d2 = None.
Proof.
  intros (Hadds & Hrems & Hsock & Hslot & Hcb & Hnd) Hzero Hready Hrun Hclosed Hs Hid Hopen.
  destruct (sendClose_open s code why now Hopen) as [Hres Hcalls].
  set (s1 := fst (sendClose s code why now)) in *.
  set (st1 := Server.webSocketClosed id
                (Server.set_webSockets (server d) (<[ id := s1 ]> (Server.webSockets (server d))))).
  set (p2 := Poller.mk [] [] (Poller.writeRevents o (Poller.pollFDs (poller d)))
                       (Poller.nextAvailable (poller d)) (Poller.pollCallbacks (poller d))).
  set (st2 := Server.set_closedWebSockets
                (Server.set_webSockets (Server.count_poll st1)
                   (delete id (Server.webSockets (server d))))
                ∅).
  assert (Hpolled2 : Poller.polled p2 = Poller.polled (poller d))
    by apply liveFds_writeRevents.
  assert (Hslot2 : Poller.fd <$> (Poller.pollFDs p2 !! i) = Some socket).
  { subst p2. cbn [Poller.pollFDs]. unfold Poller.writeRevents.
    rewrite list_lookup_imap.
    destruct (Poller.pollFDs (poller d) !! i); [exact Hslot | discriminate]. }
  exists st1, (mkDaemon st2 p2 (globalConnectionID d)).
  split.
  { unfold userSendClose.
    rewrite (onWebSocket_calls id _ (server d) s s1 eSuccess [connectionID s]);
      [ | exact Hs | subst s1; rewrite <- Hres; apply surjective_pairing | exact Hcalls ].
    cbn [fold_left]. now rewrite Hid. }
  split.
  { rewrite (cycle_after_poll o _ p2 (Server.count_poll st1) 0).
    - cbn [Z.ltb Z.compare]. subst st1. unfold Server.webSocketClosed.
      unfold Server.set_closedWebSockets, Server.set_webSockets, Server.count_poll.
      cbn [Server.webSockets Server.closedWebSockets Server.webSocketRunning
           Server.cerr Server.pollerCalls].
      rewrite Hclosed, (right_id_L ∅ (∪)), elements_singleton.
      cbn [Server.drainClosed Server.webSockets]. rewrite lookup_insert_eq.
      unfold Server.set_closedWebSockets, Server.set_webSockets.
      cbn [Server.webSockets Server.closedWebSockets Server.webSocketRunning
           Server.cerr Server.pollerCalls globalConnectionID].
      rewrite delete_insert_eq. subst st2.
      unfold Server.set_closedWebSockets, Server.set_webSockets, Server.count_poll,
        Server.webSocketClosed.
      cbn [Server.webSockets Server.closedWebSockets Server.webSocketRunning
           Server.cerr Server.pollerCalls].
      reflexivity.
    - exact Hrun.
    - unfold pollerCall. cbn [server poller].
      now rewrite (poll_idle o (poller d) _ Hadds Hrems Hzero). }
  split; [reflexivity|].
  split; [exact Hpolled2|].
  split.
  { cbn [poller]. rewrite Hpolled2. apply liveFds_elem_of. split; [exact Hsock|].
    destruct (Poller.pollFDs (poller d) !! i) as [q|] eqn:Hq; [|discriminate].
    exists q. split; [|now injection Hslot].
    apply list_elem_of_lookup. now exists i. }
  split; [exact Hcb|].
  assert (Hserves2 : serves recv (mkDaemon st2 p2 (globalConnectionID d)) i socket id).
  { unfold serves. cbn [poller]. rewrite Hpolled2. repeat split; assumption || reflexivity. }
  pose proof (pollerCall_single recv o' _ i socket id
                (Server.count_poll st2) Hserves2 Hready) as Hp.
  assert (Hgone : Server.onWebSocket id (fun s => receive s (recv id)) (Server.count_poll st2)
                  = None).
  { unfold Server.onWebSocket. subst st2. cbn [Server.count_poll Server.webSockets
      Server.set_closedWebSockets Server.set_webSockets].
    now rewrite lookup_delete_eq. }
  rewrite Hgone in Hp.
  unfold webSocketCycle. cbn [server poller] in *.
  replace (Server.webSocketRunning st2) with true by (symmetry; exact Hrun).
  cbn [negb]. now rewrite Hp.
Qed.

Lemma closed_session_stays_polled_witness :
  let recv := fun _ : ConnectionID =>
                recvChunk [mkFrame (Header.mk true Header.eConnectionClose true 2)
                                   [x03; xe8]] in
  exists st1 d2,
    userSendClose 0 1000 [] 0 (server (oneSession recv)) = Some (st1, eSuccess)
    /\ webSocketCycle noneReadable (mkDaemon st1 (poller (oneSession recv)) 1)
       = Some (d2, Server.StillRunning)
    /\ Server.webSockets (server d2) = ∅
    /\ Poller.polled (poller d2) = [5]
    /\ webSocketCycle firstReadable d2 = None.
Proof.
  intros recv.
  destruct (closed_session_stays_polled recv noneReadable firstReadable (oneSession recv)
              0 5 0 (newWebSocket 0 true) 1000 [] 0
              (oneSession_serves recv) eq_refl firstReadable_onlyReady eq_refl eq_refl
              eq_refl eq_refl eq_refl)
    as (st1 & d2 & Hsend & Hcycle & Hreg & Hpolled & _ & _ & Hgone).
  exists st1, d2.
  split; [exact Hsend|]. split; [exact Hcycle|].
  split; [rewrite Hreg; vm_compute; reflexivity|].
  split; [rewrite Hpolled; vm_compute; reflexivity | exact Hgone].
Defined.

(** ** The receiver handle *)

(** X26.  [stopReceiving] through one handle reaches every copy of it:
    afterwards [receiveData] and [receiveControl] through a handle of the
    same [Impl] still answer [true], but call no receiver of the user and
    leave everything as it is.  Handles of another [Impl] deliver as
    before, and a null handle answers [false]. *)
Theorem stopReceiving_reaches_copies {U : Type} (st : ReceiversImpl.Store U) (l : nat)
    (i : ReceiversImpl.Impl U) :
  ReceiversImpl.impls st !! l = Some i ->
  let st' := ReceiversImpl.stopReceiving (Some l) st in
  ReceiversImpl.user st' = ReceiversImpl.user st
  /\ (forall id op message,
         ReceiversImpl.receiveData (Some l) id op message st' = (st', true))
  /\ (forall id op payload,
         ReceiversImpl.receiveControl (Some l) id op payload st' = (st', true))
  /\ (forall l' id op message,
         l' <> l ->
         ReceiversImpl.user (fst (ReceiversImpl.receiveData (Some l') id op message st'))
         = ReceiversImpl.user (fst (ReceiversImpl.receiveData (Some l') id op message st)))
  /\ (forall l' id op payload,
         l' <> l ->
         ReceiversImpl.user (fst (ReceiversImpl.receiveControl (Some l') id op payload st'))
         = ReceiversImpl.user (fst (ReceiversImpl.receiveControl (Some l') id op payload st)))
  /\ (forall id op message, ReceiversImpl.receiveData None id op message st' = (st', false)).
Proof.
  intros Hl. cbv zeta. unfold ReceiversImpl.stopReceiving. rewrite Hl.
  split; [reflexivity|].
  split.
  { intros id op message. unfold ReceiversImpl.receiveData.
    cbn [ReceiversImpl.impls ReceiversImpl.user]. now rewrite lookup_insert_eq. }
  split.
  { intros id op payload. unfold ReceiversImpl.receiveControl.
    cbn [ReceiversImpl.impls ReceiversImpl.user]. now rewrite lookup_insert_eq. }
  split.
  { intros l' id op message Hne. unfold ReceiversImpl.receiveData.
    cbn [ReceiversImpl.impls ReceiversImpl.user fst].
    rewrite lookup_insert_ne by congruence.
    destruct (ReceiversImpl.impls st !! l'); reflexivity. }
  split.
  { intros l' id op payload Hne. unfold ReceiversImpl.receiveControl.
    cbn [ReceiversImpl.impls ReceiversImpl.user fst].
    rewrite lookup_insert_ne by congruence.
    destruct (ReceiversImpl.impls st !! l'); reflexivity. }
  reflexivity.
Qed.

Lemma stopReceiving_reaches_copies_witness :
  let st := ReceiversImpl.mkStore
              {[ 0%nat := ReceiversImpl.mkImpl logData logControl ]} [] in
  let st' := ReceiversImpl.stopReceiving (Some 0%nat) st in
  ReceiversImpl.impls st !! 0%nat = Some (ReceiversImpl.mkImpl logData logControl)
  /\ ReceiversImpl.user
       (fst (ReceiversImpl.receiveData (Some 0%nat) 7 Receivers.eText [x61] st))
     = [Receivers.receiveData 7 Receivers.eText [x61]]
  /\ ReceiversImpl.receiveData (Some 0%nat) 7 Receivers.eText [x61] st' = (st', true)
  /\ ReceiversImpl.user st' = [].
Proof.
  intros st st'.
  assert (Hl : ReceiversImpl.impls st !! 0%nat
               = Some (ReceiversImpl.mkImpl logData logControl))
    by (vm_compute; reflexivity).
  destruct (stopReceiving_reaches_copies st 0%nat _ Hl) as (Huser & Hdata & _).
  split; [exact Hl|]. split; [vm_compute; reflexivity|].
  split; [exact (Hdata 7 Receivers.eText [x61]) | exact Huser].
Defined.

(** ** Taking the server down *)

Lemma webSockets_fold_closed (calls : list ConnectionID) :
  forall st : Server.Private,
    Server.webSockets (fold_left (fun st id => Server.webSocketClosed id st) calls st)
    = Server.webSockets st.
Proof.
  induction calls as [|c calls IH]; intros st; [reflexivity|].
  cbn [fold_left]. now rewrite IH.
Qed.

Lemma webSockets_goAway (st : Server.Private) (k id : ConnectionID) :
  Server.webSockets (goAway st k) !! id
  = if decide (id = k)
    then (fun ws => closeConnection ws closestatus.eGoingAway [])
           <$> (Server.webSockets st !! id)
    else Server.webSockets st !! id.
Proof.
  unfold goAway, Server.onWebSocket.
  destruct (Server.webSockets st !! k) as [s|] eqn:Hk.
  - rewrite webSockets_fold_closed. cbn [Server.set_webSockets Server.webSockets].
    destruct (decide (id = k)) as [->|Hne].
    + now rewrite lookup_insert_eq, Hk.
    + now rewrite lookup_insert_ne by congruence.
  - destruct (decide (id = k)) as [->|Hne]; [now rewrite Hk | reflexivity].
Qed.

Lemma webSockets_fold_goAway (keys : list ConnectionID) (id : ConnectionID) :
  forall st : Server.Private,
    NoDup keys ->
    Server.webSockets (fold_left goAway keys st) !! id
    = if decide (id ∈ keys)
      then (fun ws => closeConnection ws closestatus.eGoingAway [])
             <$> (Server.webSockets st !! id)
      else Server.webSockets st !! id.
Proof.
  induction keys as [|k keys IH]; intros st Hnd.
  - cbn [fold_left]. destruct (decide (id ∈ [])) as [H|_]; [|reflexivity].
    now apply elem_of_nil in H.
  - apply NoDup_cons in Hnd as [Hk Hnd]. cbn [fold_left].
    rewrite (IH (goAway st k) Hnd), webSockets_goAway.
    destruct (decide (id ∈ keys)) as [Hin|Hout];
      destruct (decide (id = k)) as [->|Hne];
      destruct (decide (_ ∈ k :: keys)) as [Hin'|Hout'];
      try reflexivity; try contradiction.
    + exfalso. apply Hout'. now apply list_elem_of_further.
    + exfalso. apply Hout'. apply list_elem_of_here.
    + exfalso. apply elem_of_cons in Hin' as [?|?]; contradiction.
Qed.

Lemma running_fold_closed (calls : list ConnectionID) :
  forall st : Server.Private,
    Server.webSocketRunning (fold_left (fun st id => Server.webSocketClosed id st) calls st)
    = Server.webSocketRunning st.
Proof.
  induction calls as [|c calls IH]; intros st; [reflexivity|].
  cbn [fold_left]. now rewrite IH.
Qed.

Lemma running_fold_goAway (keys : list ConnectionID) :
  forall st : Server.Private,
    Server.webSocketRunning (fold_left goAway keys st) = Server.webSocketRunning st.
Proof.
  induction keys as [|k keys IH]; intros st; [reflexivity|].
  cbn [fold_left]. rewrite IH. unfold goAway, Server.onWebSocket.
  destruct (Server.webSockets st !! k) as [s|]; [|reflexivity].
  now rewrite running_fold_closed.
Qed.

(** X27.  When the server is destroyed, every session of the registry is
    handed to [closeConnection] with the code for going away, once, and
    the registry is left empty.  So a session that was open and whose
    socket works is destroyed with one more frame on the wire, the Close
    with code 1001 and no reason, and a session whose close handshake had
    begun is destroyed as it was. *)
Theorem teardown_says_going_away (st : Server.Private) :
  let r := destroyPrivate st in
  Server.webSockets (fst r) = ∅
  /\ Server.webSocketRunning (fst r) = false
  /\ snd r = (fun ws => closeConnection ws closestatus.eGoingAway [])
               <$> Server.webSockets st
  /\ forall id s,
       Server.webSockets st !! id = Some s ->
       exists s',
         snd r !! id = Some s'
         /\ (closeHandshake s = eNone -> socketOk s = true ->
             wire s' = wire s ++ [closeFrame 1001 []]
             /\ closeHandshake s' = eServerInitiated)
         /\ (closeHandshake s <> eNone -> s' = s).
Proof.
  cbv zeta. unfold destroyPrivate. cbn [fst snd Server.set_webSockets Server.webSockets].
  assert (Hall : Server.webSockets
                   (fold_left goAway (map fst (map_to_list (Server.webSockets st)))
                      (Server.mkPrivate (Server.webSockets st) (Server.closedWebSockets st)
                         false (Server.cerr st) (Server.pollerCalls st)))
                 = (fun ws => closeConnection ws closestatus.eGoingAway [])
                     <$> Server.webSockets st).
  { apply map_eq. intros id.
    rewrite webSockets_fold_goAway by apply NoDup_fst_map_to_list.
    cbn [Server.webSockets]. rewrite lookup_fmap.
    destruct (decide (id ∈ _)) as [Hin|Hout]; [reflexivity|].
    destruct (Server.webSockets st !! id) as [s|] eqn:Hs; [|reflexivity].
    exfalso. apply Hout. apply list_elem_of_fmap. exists (id, s).
    split; [reflexivity | now apply elem_of_map_to_list]. }
  split; [reflexivity|].
  split.
  { unfold Server.set_webSockets. cbn [Server.webSocketRunning].
    now rewrite running_fold_goAway. }
  split; [exact Hall|].
  intros id s Hs. rewrite Hall, lookup_fmap, Hs. cbn [fmap option_fmap option_map].
  eexists. split; [reflexivity|]. split.
  - intros Hopen Hok. unfold closeConnection, sendFrame. rewrite Hopen.
    cbn [set_closeHandshake socketOk]. rewrite Hok. split; reflexivity.
  - intros Hclosing. unfold closeConnection.
    destruct (closeHandshake s); [contradiction | reflexivity..].
Qed.

(** ** The upgrade gate and the header values *)

Lemma isHeaderSet_insert_present (headers : Server.Headers) (k v name : string) :
  is_Some (headers !! k) ->
  Server.isHeaderSet (<[ k := v ]> headers) name = Server.isHeaderSet headers name.
Proof.
  intros [v0 Hk]. unfold Server.isHeaderSet.
  destruct (decide (name = k)) as [->|Hne].
  - now rewrite lookup_insert_eq, Hk.
  - now rewrite lookup_insert_ne by congruence.
Qed.

Lemma isHeaderSetTo_insert_other (headers : Server.Headers) (k v name value : string) :
  name <> k ->
  Server.isHeaderSetTo (<[ k := v ]> headers) name value
  = Server.isHeaderSetTo headers name value.
Proof.
  intros Hne. unfold Server.isHeaderSetTo. now rewrite lookup_insert_ne by congruence.
Qed.

(** X28.  The upgrade gate looks at the values of three headers only:
    [Upgrade], [Connection] and [Sec-WebSocket-Key].  To change the value
    of any other header that the request carries changes neither whether
    the request is accepted nor the response; so whatever
    [Sec-WebSocket-Version] the client names is accepted. *)
Theorem gate_reads_three_values (sha1_encode base64_encode : string -> string)
    (webSocketHandler : option (string -> bool)) (headers : Server.Headers)
    (url : string) (method : Server.Method) (version : Server.Version) (k v : string) :
  is_Some (headers !! k) ->
  k <> "Upgrade"%string ->
  k <> "Connection"%string ->
  k <> "Sec-WebSocket-Key"%string ->
  Server.maybeCreateWebSocketResponse sha1_encode base64_encode webSocketHandler
    (<[ k := v ]> headers) url method version
  = Server.maybeCreateWebSocketResponse sha1_encode base64_encode webSocketHandler
      headers url method version.
Proof.
  intros Hk HnoU HnoC HnoK.
  unfold Server.maybeCreateWebSocketResponse, Server.MHD_HTTP_HEADER_HOST,
    Server.MHD_HTTP_HEADER_UPGRADE, Server.MHD_HTTP_HEADER_SEC_WEBSOCKET_KEY.
  rewrite !(isHeaderSet_insert_present headers k v) by exact Hk.
  rewrite !(isHeaderSetTo_insert_other headers k v) by congruence.
  rewrite (lookup_insert_ne headers k "Sec-WebSocket-Key" v) by congruence.
  reflexivity.
Qed.

Lemma gate_reads_three_values_witness :
  is_Some (Server.maybeCreateWebSocketResponse id id anyUrl
             (<[ "Sec-WebSocket-Version"%string := "7"%string ]> exactHeaders)
             "/chat" Server.eGet http11).
Proof.
  rewrite (gate_reads_three_values id id anyUrl exactHeaders "/chat" Server.eGet http11
             "Sec-WebSocket-Version" "7");
    [vm_compute; eexists; reflexivity
    | vm_compute; eexists; reflexivity
    | discriminate | discriminate | discriminate].
Defined.
